(** * pl5_bonus_calculation: recommendation verifier and prize ledger

    A shallow embedding of [pl5_bonus_calculation.py] together with the
    parts of the Python runtime the script relies on ([str] methods,
    [int()], [re], [csv.reader], [datetime.strptime], text decoding).

    Text is modelled the way Python holds it: a [str] is a sequence of
    Unicode code points.  Integers are [Z]; dictionaries are finite maps.
    The file system, the clock and the GBK table are taken as arguments.
    Console logging ([log_message]) has no influence on any returned or
    stored value and is left out.  The driver [main_process] is the
    function from the files it reads and the clock to what it hands to
    the ledger; the ledger is given by the two lists and the text handed
    to [write], and storing that text in the file is left out.

    The character tables are those of Unicode 14 (CPython 3.11), and
    [csv.reader] is the one of that version. *)

From Stdlib Require Import ZArith NArith List Lia Bool String Ascii.
From Stdlib Require Import Strings.Byte.
From Stdlib Require Import Sorting.Sorted Sorting.Permutation.
From stdpp Require Import base option list gmap.

(** A Python [str]: the list of its code points. *)
Abbreviation pystr := (list N).

(* ====================================================================== *)
(** * Python text primitives *)
(* ====================================================================== *)

Module Py.

Local Open Scope N_scope.

Definition between (lo hi c : N) : bool := (lo <=? c) && (c <=? hi).

(** ** UTF-8 (codec [utf-8], strict error handling)

    Rejects stray continuation bytes, overlong forms, surrogates and
    values above U+10FFFF. *)
Definition cont (b : N) : bool := between 128 191 b.

Fixpoint utf8_decode (bs : list N) : option pystr :=
  match bs with
  | [] => Some []
  | b0 :: r0 =>
    if b0 <? 128 then cons b0 <$> utf8_decode r0
    else if between 194 223 b0 then
      match r0 with
      | b1 :: r1 =>
        if cont b1
        then cons ((b0 - 192) * 64 + (b1 - 128)) <$> utf8_decode r1
        else None
      | _ => None
      end
    else if between 224 239 b0 then
      match r0 with
      | b1 :: (b2 :: r2) =>
        if between (if b0 =? 224 then 160 else 128)
                   (if b0 =? 237 then 159 else 191) b1 && cont b2
        then cons ((b0 - 224) * 4096 + (b1 - 128) * 64 + (b2 - 128))
               <$> utf8_decode r2
        else None
      | _ => None
      end
    else if between 240 244 b0 then
      match r0 with
      | b1 :: (b2 :: (b3 :: r3)) =>
        if between (if b0 =? 240 then 144 else 128)
                   (if b0 =? 244 then 143 else 191) b1 && cont b2 && cont b3
        then cons ((b0 - 240) * 262144 + (b1 - 128) * 4096
                   + (b2 - 128) * 64 + (b3 - 128))
               <$> utf8_decode r3
        else None
      | _ => None
      end
    else None
  end.

Definition bytes_of_string (s : string) : list N :=
  List.map N_of_ascii (list_ascii_of_string s).

(** A source-text literal: the code points of a UTF-8 string constant. *)
Definition lit (s : string) : pystr :=
  default [] (utf8_decode (bytes_of_string s)).
Arguments lit s%_string.

(** ** Character classes *)

(** [str.isspace] on one character, which is also what [str.strip] strips
    and what [\s] matches in a [str] pattern. *)
Definition isspace (c : N) : bool :=
  between 9 13 c || between 28 32 c || (c =? 133) || (c =? 160)
  || (c =? 5760) || between 8192 8202 c || (c =? 8232) || (c =? 8233)
  || (c =? 8239) || (c =? 8287) || (c =? 12288).

(** First code points of the runs of ten decimal digits (Unicode general
    category Nd, Unicode 14); the digit value of [s + k] is [k]. *)
Definition decimal_runs : list N :=
  [ 48; 1632; 1776; 1984; 2406; 2534; 2662; 2790; 2918; 3046; 3174; 3302;
    3430; 3558; 3664; 3792; 3872; 4160; 4240; 6112; 6160; 6470; 6608; 6784;
    6800; 6992; 7088; 7232; 7248; 42528; 43216; 43264; 43472; 43504; 43600;
    44016; 65296; 66720; 68912; 69734; 69872; 69942; 70096; 70384; 70736;
    70864; 71248; 71360; 71472; 71904; 72016; 72784; 73040; 73120; 92768;
    92864; 93008; 120782; 120792; 120802; 120812; 120822; 123200; 123632;
    125264; 130032 ].

Fixpoint run_value (runs : list N) (c : N) : option Z :=
  match runs with
  | [] => None
  | s :: runs' =>
    if between s (s + 9) c then Some (Z.of_N (c - s)) else run_value runs' c
  end.

(** The decimal value of a character, if it is a decimal digit. *)
Definition todecimal (c : N) : option Z := run_value decimal_runs c.

(** [\d] in a [str] pattern, [str.isdecimal] on one character. *)
Definition isdecimal (c : N) : bool :=
  match todecimal c with Some _ => true | None => false end.

(** ** Slicing, searching, splitting *)

Fixpoint dropwhile (f : N -> bool) (s : pystr) : pystr :=
  match s with
  | c :: s' => if f c then dropwhile f s' else s
  | [] => []
  end.

(** [s.strip()] *)
Definition strip (s : pystr) : pystr :=
  rev (dropwhile isspace (rev (dropwhile isspace s))).

(** [s.startswith(p)] *)
Fixpoint startswith (p s : pystr) : bool :=
  match p, s with
  | [], _ => true
  | x :: p', y :: s' => (x =? y) && startswith p' s'
  | _ :: _, [] => false
  end.

(** [sub in s] *)
Fixpoint contains (sub s : pystr) : bool :=
  startswith sub s ||
  match s with
  | [] => false
  | _ :: s' => contains sub s'
  end.

(** [s.split(sep)] for a non-empty separator: cut at every occurrence,
    found left to right without overlap.  [skip] counts the characters of
    an occurrence that are still to be passed over; [cur] is the section
    being collected, reversed. *)
Fixpoint split_aux (sep : pystr) (skip : nat) (cur : pystr) (s : pystr)
  : list pystr :=
  match s with
  | [] => [rev cur]
  | c :: s' =>
    match skip with
    | S k => split_aux sep k cur s'
    | O =>
      if startswith sep s
      then rev cur :: split_aux sep (Nat.pred (length sep)) [] s'
      else split_aux sep O (c :: cur) s'
    end
  end.

Definition split (sep s : pystr) : list pystr := split_aux sep O [] s.

(** [sep.join(parts)] *)
Fixpoint join (sep : pystr) (parts : list pystr) : pystr :=
  match parts with
  | [] => []
  | [p] => p
  | p :: rest => p ++ sep ++ join sep rest
  end.

(** Line boundaries of [str.splitlines]. *)
Definition islinebreak (c : N) : bool :=
  between 10 13 c || between 28 30 c || (c =? 133) || (c =? 8232)
  || (c =? 8233).

(** [s.splitlines()]: a CR LF pair is one boundary; no empty last line. *)
Fixpoint splitlines_aux (cur : pystr) (s : pystr) : list pystr :=
  match s with
  | [] => match cur with [] => [] | _ => [rev cur] end
  | c :: s' =>
    if c =? 13 then
      match s' with
      | c2 :: s'' =>
        if c2 =? 10 then rev cur :: splitlines_aux [] s''
        else rev cur :: splitlines_aux [] s'
      | [] => rev cur :: splitlines_aux [] s'
      end
    else if islinebreak c then rev cur :: splitlines_aux [] s'
    else splitlines_aux (c :: cur) s'
  end.

Definition splitlines (s : pystr) : list pystr := splitlines_aux [] s.

(** Code-point order on strings ([<] and [<=] on [str]). *)
Fixpoint ltb (a b : pystr) : bool :=
  match a, b with
  | _, [] => false
  | [], _ :: _ => true
  | x :: a', y :: b' => (x <? y) || ((x =? y) && ltb a' b')
  end.

Definition leb (a b : pystr) : bool := negb (ltb b a).

(** ** [int(s)] on a string, base 10

    Surrounding white space is skipped, one sign is allowed, digits may be
    any Unicode decimal digits and may be separated by single underscores.
    Characters below 127 are taken as they are, so of the control
    characters only 9 to 13 and the space count as white space there.
    [None] stands for [ValueError], which is also what a literal of more
    than [max_str_digits] digits raises. *)
Definition int_space (c : N) : bool :=
  between 9 13 c || (c =? 32) || ((127 <=? c) && isspace c).

Definition max_str_digits : nat := 4300.

Fixpoint scan_digits (acc : Z) (n : nat) (s : pystr) : option (Z * nat * pystr) :=
  match s with
  | [] => Some (acc, n, [])
  | c :: s' =>
    match todecimal c with
    | Some d => scan_digits (10 * acc + d)%Z (S n) s'
    | None =>
      if c =? 95 then
        match s' with
        | c2 :: s'' =>
          match todecimal c2 with
          | Some d => scan_digits (10 * acc + d)%Z (S n) s''
          | None => None
          end
        | [] => None
        end
      else Some (acc, n, s)
    end
  end.

Definition int_unsigned (s : pystr) : option Z :=
  match s with
  | c :: s' =>
    match todecimal c with
    | Some d =>
      match scan_digits d 1 s' with
      | Some (v, n, rest) =>
        if forallb int_space rest && (n <=? max_str_digits)%nat
        then Some v else None
      | None => None
      end
    | None => None
    end
  | [] => None
  end.

Definition int (s : pystr) : option Z :=
  match dropwhile int_space s with
  | c :: r =>
    if c =? 43 then int_unsigned r
    else if c =? 45 then Z.opp <$> int_unsigned r
    else int_unsigned (c :: r)
  | [] => None
  end.

(** ** Sorting

    [sorted(l, key=...)] and [l.sort()] are stable and compare with [<]
    only.  [lt a b] is the comparison of the keys.  With [reverse=True]
    the order is descending and equal elements still keep their original
    relative order. *)
Section Sorting.
Context {A : Type} (lt : A -> A -> bool).

Fixpoint insert_sorted (x : A) (l : list A) : list A :=
  match l with
  | [] => [x]
  | y :: l' => if lt y x then y :: insert_sorted x l' else x :: l
  end.

Definition sorted (l : list A) : list A := foldr insert_sorted [] l.
End Sorting.

Definition sorted_reverse {A : Type} (lt : A -> A -> bool) : list A -> list A :=
  sorted (fun a b => lt b a).

(** The comparison that [key=...] stands for, with integer keys. *)
Definition by_key {A : Type} (key : A -> Z) (a b : A) : bool :=
  (key a <? key b)%Z.

(** ** [str(n)] and the [','] format of an integer *)

Fixpoint uint_chars (d : Decimal.uint) : pystr :=
  match d with
  | Decimal.Nil => []
  | Decimal.D0 d => 48 :: uint_chars d
  | Decimal.D1 d => 49 :: uint_chars d
  | Decimal.D2 d => 50 :: uint_chars d
  | Decimal.D3 d => 51 :: uint_chars d
  | Decimal.D4 d => 52 :: uint_chars d
  | Decimal.D5 d => 53 :: uint_chars d
  | Decimal.D6 d => 54 :: uint_chars d
  | Decimal.D7 d => 55 :: uint_chars d
  | Decimal.D8 d => 56 :: uint_chars d
  | Decimal.D9 d => 57 :: uint_chars d
  end.

Definition digits_of (n : N) : pystr := uint_chars (N.to_uint n).

(** [str(z)] *)
Definition str_of_int (z : Z) : pystr :=
  if (z <? 0)%Z then 45 :: digits_of (Z.abs_N z) else digits_of (Z.abs_N z).

(** Thousands separators: a comma before every group of three digits
    counted from the right. *)
Fixpoint group3 (ds : pystr) : pystr :=
  match ds with
  | [] => []
  | d :: ds' =>
    if (0 <? length ds')%nat && (length ds' mod 3 =? 0)%nat
    then d :: 44 :: group3 ds'
    else d :: group3 ds'
  end.

(** [f"{z:,}"] *)
Definition format_comma (z : Z) : pystr :=
  if (z <? 0)%Z then 45 :: group3 (digits_of (Z.abs_N z))
  else group3 (digits_of (Z.abs_N z)).

(** [''.join(map(str, numbers))] *)
Definition concat_ints (l : list Z) : pystr := List.concat (List.map str_of_int l).

End Py.

(* ====================================================================== *)
(** * Regular expressions ([re], patterns over [str]) *)
(* ====================================================================== *)

Module Re.

(** The fragment of pattern syntax the script uses.  Quantifiers only
    ever apply to a single-character class, and are greedy. *)
Inductive regex : Type :=
| Eps
| Chr (c : N)                                  (* a literal character *)
| Cls (f : N -> bool)                          (* a class: \d, \s, [...] *)
| Seq (r1 r2 : regex)
| Alt (r1 r2 : regex)                          (* r1|r2 *)
| Rep (f : N -> bool) (lo : nat) (hi : option nat)   (* {lo,hi}, *, + *)
| Group (i : nat) (r : regex)                  (* the i-th parentheses *)
| Bol                                          (* ^ *)
| Eol.                                         (* $ *)

(** A literal string. *)
Definition Str (s : pystr) : regex := foldr (fun c r => Seq (Chr c) r) Eps s.

(** A sequence of patterns. *)
Definition Cat (rs : list regex) : regex := foldr Seq Eps rs.

Definition Star (f : N -> bool) : regex := Rep f 0 None.
Definition Plus (f : N -> bool) : regex := Rep f 1 None.

(** Captured groups, most recent first. *)
Abbreviation captures := (list (nat * pystr)).

Definition below (n : nat) (hi : option nat) : bool :=
  match hi with
  | None => true
  | Some h => (n <? h)%nat
  end.

Section Matcher.
Context {R : Type}.

(** The greedy quantifier: take one more character when possible, and
    fall back to stopping here when the rest of the pattern then fails. *)
Fixpoint rep (f : N -> bool) (lo : nat) (hi : option nat) (n : nat)
    (s : pystr) (k : pystr -> option R) : option R :=
  let stop := if (lo <=? n)%nat then k s else None in
  match s with
  | c :: s' =>
    if f c && below n hi then
      match rep f lo hi (S n) s' k with
      | Some x => Some x
      | None => stop
      end
    else stop
  | [] => stop
  end.

(** Backtracking matcher in continuation-passing style.  [total] is the
    length of the whole subject, [s] what is left of it, [g] the groups
    closed so far; [k] matches the rest of the pattern.  The first
    success in the order of the alternatives tried is the result, as
    with [re]. *)
Fixpoint run (total : nat) (r : regex) (s : pystr) (g : captures)
    (k : pystr -> captures -> option R) : option R :=
  match r with
  | Eps => k s g
  | Chr c =>
    match s with
    | c' :: s' => if (c' =? c)%N then k s' g else None
    | [] => None
    end
  | Cls f =>
    match s with
    | c' :: s' => if f c' then k s' g else None
    | [] => None
    end
  | Seq r1 r2 => run total r1 s g (fun s' g' => run total r2 s' g' k)
  | Alt r1 r2 =>
    match run total r1 s g k with
    | Some x => Some x
    | None => run total r2 s g k
    end
  | Rep f lo hi => rep f lo hi 0 s (fun s' => k s' g)
  | Group i r1 =>
    run total r1 s g
      (fun s' g' => k s' ((i, take (length s - length s') s) :: g'))
  | Bol => if (length s =? total)%nat then k s g else None
  | Eol =>
    match s with
    | [] => k s g
    | [c] => if (c =? 10)%N then k s g else None
    | _ => None
    end
  end.
End Matcher.

(** A match: the text that follows it and its groups. *)
Record rmatch : Type := { after : pystr; groups : captures }.

Definition accept (s : pystr) (g : captures) : option rmatch :=
  Some {| after := s; groups := g |}.

(** The match of [r] that starts at the head of [s], if any. *)
Definition match_at (total : nat) (r : regex) (s : pystr) : option rmatch :=
  run total r s [] accept.

(** [re.match(r, s)] *)
Definition rematch (r : regex) (s : pystr) : option rmatch :=
  match_at (length s) r s.

Fixpoint search_from (total : nat) (r : regex) (s : pystr) : option rmatch :=
  match match_at total r s with
  | Some m => Some m
  | None =>
    match s with
    | [] => None
    | _ :: s' => search_from total r s'
    end
  end.

(** [re.search(r, s)]: the leftmost start that matches. *)
Definition search (r : regex) (s : pystr) : option rmatch :=
  search_from (length s) r s.

(** [r.finditer(s)]: the matches found left to right without overlap.
    [skip] counts the characters of the last match still to be passed. *)
Fixpoint finditer_aux (total : nat) (r : regex) (skip : nat) (s : pystr)
  : list rmatch :=
  match skip with
  | S k =>
    match s with
    | [] => []
    | _ :: s' => finditer_aux total r k s'
    end
  | O =>
    match match_at total r s with
    | Some m =>
      m :: match s with
           | [] => []
           | _ :: s' =>
             finditer_aux total r (Nat.pred (length s - length (after m))) s'
           end
    | None =>
      match s with
      | [] => []
      | _ :: s' => finditer_aux total r O s'
      end
    end
  end.

Definition finditer (r : regex) (s : pystr) : list rmatch :=
  finditer_aux (length s) r O s.

(** [m.group(i)] for a group that took part in the match. *)
Fixpoint lookup_group (i : nat) (g : captures) : option pystr :=
  match g with
  | [] => None
  | (j, v) :: g' => if (i =? j)%nat then Some v else lookup_group i g'
  end.

Definition group (i : nat) (m : rmatch) : pystr :=
  default [] (lookup_group i (groups m)).

(** [re.findall(r'\d', s)]: every decimal digit of [s], in order. *)
Definition findall_digit (s : pystr) : list pystr :=
  List.map (fun c => [c]) (List.filter Py.isdecimal s).

End Re.

(* ====================================================================== *)
(** * [csv.reader] with the default dialect *)
(* ====================================================================== *)

Module Csv.

(** The reader is the character automaton of the [csv] module for the
    [excel] dialect: the comma delimits, the double quote (34) quotes and
    is doubled to stand for itself, no escape character, not strict.  It is fed the lines one at
    a time, each followed by an end-of-line signal. *)
Inductive parser_state : Type :=
| START_RECORD | START_FIELD | IN_FIELD | IN_QUOTED_FIELD
| QUOTE_IN_QUOTED_FIELD | EAT_CRNL.

(** [fields] and [field] are kept in reverse. *)
Record reader : Type := {
  fields : list pystr;
  field : pystr;
  state : parser_state
}.

Definition field_limit : N := 131072.

Definition parse_reset : reader :=
  {| fields := []; field := []; state := START_RECORD |}.

Definition set_state (st : parser_state) (rd : reader) : reader :=
  {| fields := fields rd; field := field rd; state := st |}.

Definition parse_save_field (rd : reader) : reader :=
  {| fields := rev (field rd) :: fields rd; field := []; state := state rd |}.

(** [None] is [csv.Error]: the field grew beyond the size limit. *)
Definition parse_add_char (c : N) (rd : reader) : option reader :=
  if (field_limit <=? N.of_nat (length (field rd)))%N then None
  else Some {| fields := fields rd; field := c :: field rd; state := state rd |}.

Definition is_nl (c : N) : bool := (c =? 10)%N || (c =? 13)%N.

(** One step of the automaton; [None] as input is the end of the line. *)
Definition parse_process_char (rd : reader) (c : option N) : option reader :=
  let start_field :=
    match c with
    | None => Some (set_state START_RECORD (parse_save_field rd))
    | Some ch =>
      if is_nl ch then Some (set_state EAT_CRNL (parse_save_field rd))
      else if (ch =? 34)%N then Some (set_state IN_QUOTED_FIELD rd)
      else if (ch =? 44)%N then Some (set_state START_FIELD (parse_save_field rd))
      else set_state IN_FIELD <$> parse_add_char ch rd
    end in
  match state rd with
  | START_RECORD =>
    match c with
    | None => Some rd
    | Some ch => if is_nl ch then Some (set_state EAT_CRNL rd) else start_field
    end
  | START_FIELD => start_field
  | IN_FIELD =>
    match c with
    | None => Some (set_state START_RECORD (parse_save_field rd))
    | Some ch =>
      if is_nl ch then Some (set_state EAT_CRNL (parse_save_field rd))
      else if (ch =? 44)%N then Some (set_state START_FIELD (parse_save_field rd))
      else parse_add_char ch rd
    end
  | IN_QUOTED_FIELD =>
    match c with
    | None => Some rd
    | Some ch =>
      if (ch =? 34)%N then Some (set_state QUOTE_IN_QUOTED_FIELD rd)
      else parse_add_char ch rd
    end
  | QUOTE_IN_QUOTED_FIELD =>
    match c with
    | None => Some (set_state START_RECORD (parse_save_field rd))
    | Some ch =>
      if (ch =? 34)%N then set_state IN_QUOTED_FIELD <$> parse_add_char ch rd
      else if (ch =? 44)%N then Some (set_state START_FIELD (parse_save_field rd))
      else if is_nl ch then Some (set_state EAT_CRNL (parse_save_field rd))
      else set_state IN_FIELD <$> parse_add_char ch rd
    end
  | EAT_CRNL =>
    match c with
    | None => Some (set_state START_RECORD rd)
    | Some ch => if is_nl ch then Some rd else None
    end
  end.

Fixpoint feed (rd : reader) (line : pystr) : option reader :=
  match line with
  | [] => parse_process_char rd None
  | c :: line' =>
    match parse_process_char rd (Some c) with
    | Some rd' => feed rd' line'
    | None => None
    end
  end.

(** All the rows the reader yields for the given lines, or [None] when it
    raises [csv.Error] on the way.  A record goes on to the next line
    while a quoted field is open; input that ends inside one yields what
    was collected. *)
Fixpoint rows_from (rd : reader) (lines : list pystr) : option (list (list pystr)) :=
  match lines with
  | [] =>
    match field rd, state rd with
    | [], START_RECORD | [], START_FIELD | [], IN_FIELD
    | [], QUOTE_IN_QUOTED_FIELD | [], EAT_CRNL => Some []
    | _, _ => Some [rev (fields (parse_save_field rd))]
    end
  | line :: lines' =>
    match feed rd line with
    | None => None
    | Some rd' =>
      match state rd' with
      | START_RECORD => cons (rev (fields rd')) <$> rows_from parse_reset lines'
      | _ => rows_from rd' lines'
      end
    end
  end.

(** [list(csv.reader(lines))] *)
Definition reader_rows (lines : list pystr) : option (list (list pystr)) :=
  rows_from parse_reset lines.

End Csv.

(* ====================================================================== *)
(** * [datetime] *)
(* ====================================================================== *)

Module DateTime.

Record datetime : Type := {
  year : Z; month : Z; day : Z; hour : Z; minute : Z; second : Z
}.

Definition fields_of (t : datetime) : list Z :=
  [year t; month t; day t; hour t; minute t; second t].

(** Order of two field lists, most significant field first. *)
Fixpoint fields_ltb (a b : list Z) : bool :=
  match a, b with
  | x :: a', y :: b' => (x <? y)%Z || ((x =? y)%Z && fields_ltb a' b')
  | _, _ => false
  end.

(** [t1 < t2] and [t1 == t2] on naive datetimes. *)
Definition ltb (t1 t2 : datetime) : bool := fields_ltb (fields_of t1) (fields_of t2).

Definition eqb (t1 t2 : datetime) : bool :=
  forallb (fun p => (fst p =? snd p)%Z) (combine (fields_of t1) (fields_of t2)).

Definition is_leap (y : Z) : bool :=
  ((y mod 4 =? 0) && negb (y mod 100 =? 0) || (y mod 400 =? 0))%Z.

Definition days_in_month (y m : Z) : Z :=
  if (m =? 2)%Z then (if is_leap y then 29 else 28)%Z
  else if ((m =? 4) || (m =? 6) || (m =? 9) || (m =? 11))%Z then 30%Z
  else 31%Z.

Import Re.

Definition dig (lo hi : N) : regex := Cls (Py.between (48 + lo) (48 + hi)).
Definition anydig : regex := Cls Py.isdecimal.

(** The pattern [strptime] builds for the format ["%Y%m%d_%H%M%S"]:
    one named group per directive, in this order. *)
Definition format_regex : regex :=
  Cat [ Group 1 (Cat [anydig; anydig; anydig; anydig]);
        Group 2 (Alt (Cat [dig 1 1; dig 0 2])
                (Alt (Cat [dig 0 0; dig 1 9]) (dig 1 9)));
        Group 3 (Alt (Cat [dig 3 3; dig 0 1])
                (Alt (Cat [dig 1 2; anydig])
                (Alt (Cat [dig 0 0; dig 1 9])
                (Alt (dig 1 9) (Cat [Chr 32; dig 1 9])))));
        Chr 95;
        Group 4 (Alt (Cat [dig 2 2; dig 0 3])
                (Alt (Cat [dig 0 1; anydig]) anydig));
        Group 5 (Alt (Cat [dig 0 5; anydig]) anydig);
        Group 6 (Alt (Cat [dig 6 6; dig 0 1])
                (Alt (Cat [dig 0 5; anydig]) anydig)) ].

(** [datetime.strptime(s, "%Y%m%d_%H%M%S")]; [None] is [ValueError]: the
    text does not match, text is left over, or the fields are not a date
    and time of day. *)
Definition strptime (s : pystr) : option datetime :=
  m ← rematch format_regex s;
  if negb (bool_decide (after m = [])) then None else
  y ← Py.int (group 1 m);
  mo ← Py.int (group 2 m);
  d ← Py.int (group 3 m);
  h ← Py.int (group 4 m);
  mi ← Py.int (group 5 m);
  sec ← Py.int (group 6 m);
  if ((1 <=? y) && (d <=? days_in_month y mo) && (sec <=? 59))%Z
  then Some {| year := y; month := mo; day := d;
               hour := h; minute := mi; second := sec |}
  else None.

End DateTime.

(* ====================================================================== *)
(** * The script *)
(* ====================================================================== *)

Import Py.

(** ** Configuration *)

Definition MAX_NORMAL_RECORDS : nat := 10.
Definition MAX_ERROR_LOGS : nat := 20.

(** The one prize tier, "direct selection". *)
Definition ZHIXUAN : pystr := Eval vm_compute in lit "直选".

Definition PRIZE_VALUES : gmap pystr Z := {[ ZHIXUAN := 100000%Z ]}.

(** ** Files *)

(** What opening a path for reading gives: the bytes of the file, or an
    [IOError] (a directory, no permission, ...).  A directory listing is a
    finite map from paths to files. *)
Inductive file : Type :=
| Unreadable
| Content (bytes : list byte).

Abbreviation filesystem := (gmap pystr file).

Inductive encoding : Type := UTF_8 | GBK | LATIN_1.

(** Text-mode reading turns CR LF and lone CR into LF. *)
Fixpoint universal_newlines (s : pystr) : pystr :=
  match s with
  | [] => []
  | c :: s' =>
    if (c =? 13)%N then
      match s' with
      | c2 :: s'' =>
        if (c2 =? 10)%N then 10%N :: universal_newlines s''
        else 10%N :: universal_newlines s'
      | [] => 10%N :: universal_newlines s'
      end
    else c :: universal_newlines s'
  end.

Section Reading.

(** The two-byte table of the GBK codec (lead byte, trail byte), which is
    data of the runtime; [None] marks an unassigned pair. *)
Variable gbk_table : N -> N -> option N.

Fixpoint gbk_decode (bs : list N) : option pystr :=
  match bs with
  | [] => Some []
  | b0 :: r0 =>
    if (b0 <? 128)%N then cons b0 <$> gbk_decode r0
    else
      match r0 with
      | b1 :: r1 =>
        match gbk_table b0 b1 with
        | Some c => cons c <$> gbk_decode r1
        | None => None
        end
      | [] => None
      end
  end.

(** [bytes.decode(enc)]; [None] is [UnicodeDecodeError]. *)
Definition decode (enc : encoding) (bs : list byte) : option pystr :=
  match enc with
  | UTF_8 => utf8_decode (List.map Byte.to_N bs)
  | GBK => gbk_decode (List.map Byte.to_N bs)
  | LATIN_1 => Some (List.map Byte.to_N bs)
  end.

(** [open(path, 'r', encoding=enc).read()]; [None] when it raises
    [UnicodeDecodeError] or [IOError]. *)
Definition open_read (fs : filesystem) (file_path : pystr) (enc : encoding)
  : option pystr :=
  match fs !! file_path with
  | Some (Content bs) => universal_newlines <$> decode enc bs
  | _ => None
  end.

Definition encodings : list encoding := [UTF_8; GBK; LATIN_1].

Fixpoint try_encodings (fs : filesystem) (file_path : pystr)
    (encs : list encoding) : option pystr :=
  match encs with
  | [] => None
  | enc :: encs' =>
    match open_read fs file_path enc with
    | Some text => Some text
    | None => try_encodings fs file_path encs'
    end
  end.

Definition robust_file_read (fs : filesystem) (file_path : pystr)
  : option pystr :=
  match fs !! file_path with
  | None => None
  | Some _ => try_encodings fs file_path encodings
  end.

End Reading.

(** ** Draw table *)

(** The value stored for a period: [{'numbers': [...]}]. *)
Record draw_record : Type := { numbers : list Z }.

(** [period_map] and [periods_list] while the rows are read. *)
Abbreviation loader_state := (gmap pystr draw_record * list pystr)%type.

(** [^\d{4,7}$] *)
Definition period_pattern : Re.regex :=
  Re.Cat [Re.Bol; Re.Rep isdecimal 4 (Some 7); Re.Eol].

Definition in_digit_range (num : Z) : bool := (0 <=? num)%Z && (num <=? 9)%Z.

(** [row[i]] where the length has been checked. *)
Definition cell (row : list pystr) (i : nat) : pystr := nth i row [].

(** The body of the loop over the rows.  A [ValueError] of [int] leaves
    the row out, as does a number outside 0..9. *)
Definition load_row (st : loader_state) (row : list pystr) : loader_state :=
  if (6 <=? length row)%nat
     && bool_decide (is_Some (Re.rematch period_pattern (cell row 0)))
  then
    match
      pos_1 ← Py.int (cell row 1);
      pos_2 ← Py.int (cell row 2);
      pos_3 ← Py.int (cell row 3);
      pos_4 ← Py.int (cell row 4);
      pos_5 ← Py.int (cell row 5);
      Some [pos_1; pos_2; pos_3; pos_4; pos_5]
    with
    | Some nums =>
      if negb (forallb in_digit_range nums) then st
      else (<[cell row 0 := {| numbers := nums |}]> st.1, st.2 ++ [cell row 0])
    | None => st
    end
  else st.

Definition load_rows (rows : list (list pystr)) : loader_state :=
  fold_left load_row rows (∅, []).

(** The sort key [int] of a period.  Every stored period matched
    [period_pattern], for which [int] does not fail. *)
Definition period_key (period : pystr) : Z := default 0%Z (Py.int period).

(** [None] stands for the pair [(None, None)].  An exception inside the
    [try] (from the reader, or no first row to skip) ends there too. *)
Definition get_period_data_from_csv (csv_content : pystr)
  : option (gmap pystr draw_record * list pystr) :=
  match csv_content with
  | [] => None
  | _ =>
    match Csv.reader_rows (splitlines csv_content) with
    | None | Some [] => None
    | Some (_ :: rows) =>
      let '(period_map, periods_list) := load_rows rows in
      if bool_decide (period_map = ∅) then None
      else Some (period_map, sorted (by_key period_key) periods_list)
    end
  end.

(** ** Report lookup *)

(** [分析基于数据:\s*截至\s*(\d+)\s*期] *)
Definition cutoff_pattern : Re.regex :=
  Re.Cat [ Re.Str (lit "分析基于数据:"); Re.Star isspace; Re.Str (lit "截至");
           Re.Star isspace; Re.Group 1 (Re.Plus isdecimal); Re.Star isspace;
           Re.Str (lit "期") ].

(** [_(\d{8}_\d{6})\.txt$] *)
Definition timestamp_pattern : Re.regex :=
  Re.Cat [ Re.Chr 95;
           Re.Group 1 (Re.Cat [ Re.Rep isdecimal 8 (Some 8); Re.Chr 95;
                                Re.Rep isdecimal 6 (Some 6) ]);
           Re.Str (lit ".txt"); Re.Eol ].

(** A candidate is the tuple [(timestamp, file_path)]. *)
Abbreviation candidate := (DateTime.datetime * pystr)%type.

(** [<] on these tuples: the first components that differ decide. *)
Definition candidate_ltb (a b : candidate) : bool :=
  if negb (DateTime.eqb a.1 b.1) then DateTime.ltb a.1 b.1
  else Py.ltb a.2 b.2.

Section Locator.

Variable gbk_table : N -> N -> option N.

(** The body of the loop over the files the glob pattern found. *)
Definition consider (fs : filesystem) (target_period : pystr)
    (candidates : list candidate) (file_path : pystr) : list candidate :=
  match robust_file_read gbk_table fs file_path with
  | None | Some [] => candidates
  | Some content =>
    match Re.search cutoff_pattern content with
    | Some m =>
      if bool_decide (Re.group 1 m = target_period) then
        match Re.search timestamp_pattern file_path with
        | Some timestamp_str_match =>
          match DateTime.strptime (Re.group 1 timestamp_str_match) with
          | Some timestamp => candidates ++ [(timestamp, file_path)]
          | None => candidates
          end
        | None => candidates
        end
      else candidates
    | None => candidates
    end
  end.

(** [found] is the result of [glob.glob] for the report pattern, in the
    order it lists the directory. *)
Definition find_matching_report (fs : filesystem) (found : list pystr)
    (target_period : pystr) : option pystr :=
  let candidates := fold_left (consider fs target_period) found [] in
  match candidates with
  | [] => None
  | _ =>
    match sorted_reverse candidate_ltb candidates with
    | latest :: _ => Some latest.2
    | [] => None
    end
  end.

End Locator.

(** ** Recommendations *)

Record recommendations : Type := {
  single : list (list Z);
  duplex : gmap pystr (list Z);
  target_period : pystr
}.

(** [本次预测目标:\s*第\s*(\d+)\s*期] *)
Definition target_pattern : Re.regex :=
  Re.Cat [ Re.Str (lit "本次预测目标:"); Re.Star isspace; Re.Str (lit "第");
           Re.Star isspace; Re.Group 1 (Re.Plus isdecimal); Re.Star isspace;
           Re.Str (lit "期") ].

(** The class [[0-9\s,]]. *)
Definition digit_space_comma (c : N) : bool :=
  between 48 57 c || isspace c || (c =? 44)%N.

Definition bracketed : list Re.regex :=
  [ Re.Star isspace; Re.Chr 91; Re.Group 1 (Re.Plus digit_space_comma);
    Re.Chr 93 ].

(** [注\s*\d+:\s*\[([0-9\s,]+)\]] *)
Definition rec_pattern : Re.regex :=
  Re.Cat ([ Re.Str (lit "注"); Re.Star isspace; Re.Plus isdecimal; Re.Chr 58 ]
          ++ bracketed).

(** [第一位推荐:\s*\[([0-9\s,]+)\]] and the like. *)
Definition duplex_pattern (label : pystr) : Re.regex :=
  Re.Cat (Re.Str label :: bracketed).

Definition duplex_patterns : list (pystr * Re.regex) :=
  [ (lit "pos1", duplex_pattern (lit "第一位推荐:"));
    (lit "pos2", duplex_pattern (lit "第二位推荐:"));
    (lit "pos3", duplex_pattern (lit "第三位推荐:"));
    (lit "pos4", duplex_pattern (lit "第四位推荐:"));
    (lit "pos5", duplex_pattern (lit "第五位推荐:")) ].

(** [[int(x.strip()) for x in re.findall(r'\d', numbers_str)]];
    [None] is a [ValueError] of [int]. *)
Definition digits_in (numbers_str : pystr) : option (list Z) :=
  mapM (fun x => Py.int (strip x)) (Re.findall_digit numbers_str).

Definition add_single (acc : list (list Z)) (m : Re.rmatch) : list (list Z) :=
  match digits_in (Re.group 1 m) with
  | Some nums =>
    if (length nums =? 5)%nat && forallb in_digit_range nums
    then acc ++ [nums] else acc
  | None => acc
  end.

Definition add_duplex (content : pystr) (acc : gmap pystr (list Z))
    (entry : pystr * Re.regex) : gmap pystr (list Z) :=
  match Re.search entry.2 content with
  | Some m =>
    match digits_in (Re.group 1 m) with
    | Some nums =>
      match List.filter in_digit_range nums with
      | [] => acc
      | kept => <[entry.1 := sorted Z.ltb (remove_dups kept)]> acc
      end
    | None => acc
    end
  | None => acc
  end.

Definition parse_recommendations_from_report (content : pystr) : recommendations :=
  {| target_period :=
       match Re.search target_pattern content with
       | Some target_match => Re.group 1 target_match
       | None => []
       end;
     single := fold_left add_single (Re.finditer rec_pattern content) [];
     duplex := fold_left (add_duplex content) duplex_patterns ∅ |}.

(** ** Scoring *)

Module WinRecord.
Record t : Type := {
  index : Z;
  numbers : list Z;
  prize_type : pystr;
  prize_amount : Z
}.
End WinRecord.

Abbreviation score := (Z * gmap pystr Z * list WinRecord.t)%type.

(** The body of the loop over [enumerate(recommendations)]. *)
Definition score_bet (prize_numbers : list Z) (st : score)
    (bet : nat * list Z) : score :=
  let '(total_prize, prize_stats, winning_details) := st in
  let '(i, recommendation) := bet in
  if negb (length recommendation =? 5)%nat then st
  else if bool_decide (recommendation = prize_numbers) then
    let prize_amount := PRIZE_VALUES !!! ZHIXUAN in
    ((total_prize + prize_amount)%Z,
     <[ZHIXUAN := ((prize_stats !!! ZHIXUAN) + 1)%Z]> prize_stats,
     winning_details ++
       [ {| WinRecord.index := Z.of_nat i + 1;
            WinRecord.numbers := recommendation;
            WinRecord.prize_type := ZHIXUAN;
            WinRecord.prize_amount := prize_amount |} ])
  else st.

(** [enumerate(l)] *)
Definition enumerate {A : Type} (l : list A) : list (nat * A) :=
  combine (seq 0 (length l)) l.

Definition calculate_prize (recommendations : list (list Z))
    (prize_numbers : list Z) : score :=
  match recommendations, prize_numbers with
  | [], _ | _, [] => (0%Z, ∅, [])
  | _, _ =>
    if negb (length prize_numbers =? 5)%nat then (0%Z, ∅, [])
    else fold_left (score_bet prize_numbers) (enumerate recommendations)
           (0%Z, {[ ZHIXUAN := 0%Z ]}, [])
  end.

(** ** Ledger *)

(** The argument [new_entry]: a dictionary, each key of which may be
    missing ([dict.get] then supplies a default). *)
Record entry_data : Type := {
  period : option pystr;
  prize_numbers : option (list Z);
  recommendation_count : option Z;
  winning_count : option Z;
  total_prize : option Z;
  winning_details : option (list WinRecord.t)
}.

(** Truth value of the dictionary: it has a key. *)
Definition entry_nonempty (e : entry_data) : bool :=
  bool_decide (is_Some (period e)) || bool_decide (is_Some (prize_numbers e))
  || bool_decide (is_Some (recommendation_count e))
  || bool_decide (is_Some (winning_count e))
  || bool_decide (is_Some (total_prize e))
  || bool_decide (is_Some (winning_details e)).

(** ["\n" + "="*80 + "\n"] *)
Definition DELIMITER : pystr := 10%N :: repeat 61%N 80 ++ [10%N].

Definition NL : pystr := [10%N].

Definition ERROR_MARKER : pystr := Eval vm_compute in lit "ERROR".
Definition CUOWU_MARKER : pystr := Eval vm_compute in lit "错误".
Definition EVAL_TIME_MARKER : pystr := Eval vm_compute in lit "评估时间:".
Definition ERROR_LOG_HEADER : pystr := Eval vm_compute in lit "错误日志:".

(** The first loop: sort the sections of the existing text into the two
    lists. *)
Definition classify (st : list pystr * list pystr) (section : pystr)
  : list pystr * list pystr :=
  let '(normal_records, error_logs) := st in
  match strip section with
  | [] => st
  | _ =>
    if contains ERROR_MARKER section || contains CUOWU_MARKER section
    then (normal_records, error_logs ++ [section])
    else if contains EVAL_TIME_MARKER section
    then (normal_records ++ [section], error_logs)
    else st
  end.

Definition detail_line (detail : WinRecord.t) : pystr :=
  lit "  第" ++ str_of_int (WinRecord.index detail) ++ lit "注: "
  ++ concat_ints (WinRecord.numbers detail) ++ lit " - "
  ++ WinRecord.prize_type detail ++ lit " - "
  ++ format_comma (WinRecord.prize_amount detail) ++ lit "元".

(** The text of a new evaluation record; [now] is the clock reading in
    the form [%Y-%m-%d %H:%M:%S]. *)
Definition render_entry (now : pystr) (new_entry : entry_data) : pystr :=
  let entry_lines :=
    [ lit "评估时间: " ++ now;
      lit "评估期号: " ++ default (lit "未知") (period new_entry);
      lit "开奖号码: " ++ concat_ints (default [] (prize_numbers new_entry));
      lit "推荐数量: " ++ str_of_int (default 0%Z (recommendation_count new_entry))
        ++ lit "注";
      lit "中奖数量: " ++ str_of_int (default 0%Z (winning_count new_entry))
        ++ lit "注";
      lit "总奖金: " ++ format_comma (default 0%Z (total_prize new_entry))
        ++ lit "元";
      [] ] in
  let entry_lines :=
    match winning_details new_entry with
    | Some (d :: ds) =>
      entry_lines ++ [lit "中奖详情:"] ++ List.map detail_line (d :: ds) ++ [[]]
    | _ => entry_lines
    end in
  join NL entry_lines.

Definition render_error (now : pystr) (new_error : pystr) : pystr :=
  lit "错误时间: " ++ now ++ NL ++ lit "错误信息: " ++ new_error ++ NL.

(** What one call leaves behind: the two lists as they are when the file
    is written, and the text handed to [write]. *)
Record ledger : Type := {
  normal_records : list pystr;
  error_logs : list pystr;
  written : pystr
}.

(** [existing_content] is the text read from the report file, empty when
    there is no file or reading it failed.  [now_entry] and [now_error]
    are the clock readings taken for the new record and the new error. *)
Definition manage_report (existing_content : pystr)
    (now_entry now_error : pystr)
    (new_entry : option entry_data) (new_error : option pystr) : ledger :=
  let sections := split DELIMITER existing_content in
  let '(normal_records, error_logs) := fold_left classify sections ([], []) in
  let normal_records :=
    match new_entry with
    | Some e =>
      if entry_nonempty e then render_entry now_entry e :: normal_records
      else normal_records
    | None => normal_records
    end in
  let error_logs :=
    match new_error with
    | Some (c :: msg) => render_error now_error (c :: msg) :: error_logs
    | _ => error_logs
    end in
  let normal_records := take MAX_NORMAL_RECORDS normal_records in
  let error_logs := take MAX_ERROR_LOGS error_logs in
  let new_content_parts := [] in
  let new_content_parts :=
    match normal_records with
    | [] => new_content_parts
    | _ => new_content_parts ++ normal_records
    end in
  let new_content_parts :=
    match error_logs with
    | [] => new_content_parts
    | _ =>
      (match new_content_parts with
       | [] => new_content_parts
       | _ => new_content_parts ++ [[]]
       end) ++ [ERROR_LOG_HEADER] ++ error_logs
    end in
  {| normal_records := normal_records;
     error_logs := error_logs;
     written := join DELIMITER new_content_parts |}.

(** Reading the report file at the start of [manage_report]: decoded as
    UTF-8, and empty when the file is missing or cannot be read. *)
Definition read_existing (f : option file) : pystr :=
  match f with
  | Some (Content bs) =>
    default [] (universal_newlines <$> utf8_decode (List.map Byte.to_N bs))
  | _ => []
  end.

(** ** Formatting the wins *)

(** The display names of the position labels; another label is shown as
    it is. *)
Definition POS_NAMES : list (pystr * pystr) :=
  [ (lit "pos1", lit "第一位"); (lit "pos2", lit "第二位");
    (lit "pos3", lit "第三位"); (lit "pos4", lit "第四位");
    (lit "pos5", lit "第五位") ].

Fixpoint pos_name_in (names : list (pystr * pystr)) (pos : pystr) : pystr :=
  match names with
  | [] => pos
  | (label, name) :: names' =>
    if bool_decide (pos = label) then name else pos_name_in names' pos
  end.

Definition pos_name : pystr -> pystr := pos_name_in POS_NAMES.

(** The line of one win; the amount is written without separators. *)
Definition format_detail (detail : WinRecord.t) : pystr :=
  lit "  第" ++ str_of_int (WinRecord.index detail) ++ lit "注: "
  ++ concat_ints (WinRecord.numbers detail) ++ lit " - "
  ++ WinRecord.prize_type detail ++ lit " - "
  ++ str_of_int (WinRecord.prize_amount detail) ++ lit "元".

Definition format_duplex (item : pystr * list Z) : pystr :=
  lit "  " ++ pos_name item.1 ++ lit ": ["
  ++ join (lit ",") (List.map str_of_int item.2) ++ lit "]".

Definition REGRET_LINE : pystr := Eval vm_compute in lit "遗憾：所有推荐号码均未中奖".

Definition DUPLEX_HEADER : pystr := 10%N :: lit "复式推荐参考:".

(** [duplex_data] is the dictionary as the list of its items in
    insertion order, empty for [None] and for the empty dictionary. *)
Definition format_winning_details (winning_details : list WinRecord.t)
    (prize_numbers : list Z) (duplex_data : list (pystr * list Z))
    (target_period : pystr) : list pystr :=
  let lines := [] in
  let lines :=
    match target_period with
    | [] => lines
    | _ => lines ++ [lit "预测期号: 第" ++ target_period ++ lit "期"]
    end in
  let numbers_str := concat_ints prize_numbers in
  let lines := lines ++ [lit "开奖号码: " ++ numbers_str] in
  let lines :=
    match winning_details with
    | [] => lines ++ [REGRET_LINE]
    | _ =>
      lines
      ++ [lit "恭喜：共有 " ++ str_of_int (Z.of_nat (length winning_details))
          ++ lit " 注中奖"]
      ++ List.map format_detail winning_details
    end in
  match duplex_data with
  | [] => lines
  | _ => lines ++ [DUPLEX_HEADER] ++ List.map format_duplex duplex_data
  end.

(** ** The main process *)

Definition CSV_FILE : pystr := Eval vm_compute in lit "pl5.csv".

(** [l[-k]] for [k] from 1; [None] is an [IndexError]. *)
Definition index_from_end {A : Type} (l : list A) (k : nat) : option A :=
  if (k <=? length l)%nat then l !! (length l - k) else None.

(** [str(e)] of a [KeyError]: the [repr] of the key, a period of decimal
    digits. *)
Definition str_of_key_error (key : pystr) : pystr := 39%N :: key ++ [39%N].

Definition INDEX_ERROR : pystr := Eval vm_compute in lit "list index out of range".

Section Main.

Variable gbk_table : N -> N -> option N.

(** The body of the [try] up to the dictionary [entry_data].  The left
    summand is an exception, given by its [str]; the right summand is the
    entry.  Printing to the console is left out.  [found] is what the
    glob pattern of the reports lists. *)
Definition evaluate (fs : filesystem) (found : list pystr)
  : pystr + entry_data :=
  match robust_file_read gbk_table fs CSV_FILE with
  | None | Some [] => inl (lit "无法读取CSV文件: " ++ CSV_FILE)
  | Some csv_content =>
    match get_period_data_from_csv csv_content with
    | None => inl (lit "CSV数据解析失败")
    | Some (period_map, periods_list) =>
      if bool_decide (period_map = ∅) || bool_decide (periods_list = [])
      then inl (lit "CSV数据解析失败")
      else if (length periods_list <? 2)%nat
      then inl (lit "数据不足，至少需要2期数据")
      else
        match index_from_end periods_list 1, index_from_end periods_list 2 with
        | Some eval_period, Some data_cutoff_period =>
          match find_matching_report gbk_table fs found data_cutoff_period with
          | None | Some [] =>
            inl (lit "未找到数据截止期为 " ++ data_cutoff_period
                 ++ lit " 的分析报告")
          | Some report_path =>
            match robust_file_read gbk_table fs report_path with
            | None | Some [] => inl (lit "无法读取报告文件: " ++ report_path)
            | Some report_content =>
              let recommendations_data :=
                parse_recommendations_from_report report_content in
              let recommendations := single recommendations_data in
              match recommendations with
              | [] => inl (lit "报告中未找到有效的推荐号码")
              | _ =>
                match period_map !! eval_period with
                | None => inl (str_of_key_error eval_period)
                | Some record =>
                  let prize_numbers := numbers record in
                  let '(total_prize, prize_stats, winning_details) :=
                    calculate_prize recommendations prize_numbers in
                  inr {| period := Some eval_period;
                         prize_numbers := Some prize_numbers;
                         recommendation_count :=
                           Some (Z.of_nat (length recommendations));
                         winning_count :=
                           Some (Z.of_nat (length winning_details));
                         total_prize := Some total_prize;
                         winning_details := Some winning_details |}
                end
              end
            end
          end
        | _, _ => inl INDEX_ERROR
        end
    end
  end.

(** One run.  [report_path] is the path of the ledger and [now] the
    clock reading when the ledger is rewritten; the result is what
    [manage_report] leaves. *)
Definition main_process (fs : filesystem) (found : list pystr)
    (report_path now : pystr) : ledger :=
  let existing_content := read_existing (fs !! report_path) in
  match evaluate fs found with
  | inr entry_data =>
    manage_report existing_content now now (Some entry_data) None
  | inl e =>
    let error_msg := lit "处理过程中发生错误: " ++ e in
    manage_report existing_content now now None (Some error_msg)
  end.

End Main.

(* ====================================================================== *)
(** * Notions used to state and to prove the properties *)
(* ====================================================================== *)

(** The win record of the bet at position [i] (counted from 0). *)
Definition win_record (i : nat) (bet : list Z) : WinRecord.t :=
  {| WinRecord.index := Z.of_nat i + 1;
     WinRecord.numbers := bet;
     WinRecord.prize_type := ZHIXUAN;
     WinRecord.prize_amount := 100000 |}.

(** The bets equal to the draw, with their positions, in bet order. *)
Definition winning_bets (prize_numbers : list Z)
    (recommendations : list (list Z)) : list (nat * list Z) :=
  List.filter (fun b => bool_decide (b.2 = prize_numbers))
    (enumerate recommendations).

(** A field of a row that reads as an integer from 0 to 9. *)
Definition field_is_digit (f : pystr) : bool :=
  match Py.int f with
  | Some v => in_digit_range v
  | None => false
  end.

(** A well-formed row of the draw table: at least six fields, a period of
    4 to 7 digits, and five digit fields after it. *)
Definition row_accepted (row : list pystr) : bool :=
  (6 <=? length row)%nat
  && bool_decide (is_Some (Re.rematch period_pattern (cell row 0)))
  && forallb (fun i => field_is_digit (cell row i)) [1; 2; 3; 4; 5].

(** The numbers of a well-formed row. *)
Definition row_numbers (row : list pystr) : list Z :=
  List.map (fun i => default 0%Z (Py.int (cell row i))) [1; 2; 3; 4; 5].

(** Order of two items by an integer key. *)
Definition key_le {A : Type} (key : A -> Z) (a b : A) : Prop := (key a <= key b)%Z.
Definition key_lt {A : Type} (key : A -> Z) (a b : A) : Prop := (key a < key b)%Z.

(** Order of two periods by numeric value. *)
Definition period_le : pystr -> pystr -> Prop := key_le period_key.
Definition period_lt : pystr -> pystr -> Prop := key_lt period_key.

(** The cutoff period a report declares: the digits of the first place in
    its text where the labelled pattern matches. *)
Definition declared_cutoff (content : pystr) : option pystr :=
  Re.group 1 <$> Re.search cutoff_pattern content.

(** The time stamp embedded in a file name, when there is one and it
    parses. *)
Definition filename_timestamp (file_path : pystr) : option DateTime.datetime :=
  m ← Re.search timestamp_pattern file_path;
  DateTime.strptime (Re.group 1 m).

(** A file that can be selected for a target period: it reads as a
    non-empty text that declares this cutoff, and its name carries a
    time stamp; the result is that time stamp. *)
Definition selectable (gbk_table : N -> N -> option N) (fs : filesystem)
    (target_period : pystr) (file_path : pystr) : option DateTime.datetime :=
  content ← robust_file_read gbk_table fs file_path;
  match content with
  | [] => None
  | _ =>
    cutoff ← declared_cutoff content;
    if bool_decide (cutoff = target_period)
    then filename_timestamp file_path else None
  end.

(** The candidate tuple a file contributes when it is selectable. *)
Definition candidate_of (gbk_table : N -> N -> option N) (fs : filesystem)
    (target_period : pystr) (file_path : pystr) : option candidate :=
  (fun ts => (ts, file_path)) <$> selectable gbk_table fs target_period file_path.

(** A section of the ledger that carries an error marker. *)
Definition is_error_section (section : pystr) : bool :=
  contains ERROR_MARKER section || contains CUOWU_MARKER section.

(** A section that carries the evaluation time stamp marker and no error
    marker. *)
Definition is_normal_section (section : pystr) : bool :=
  negb (is_error_section section) && contains EVAL_TIME_MARKER section.

(** The records a call adds at the front of each list. *)
Definition new_normal_records (now_entry : pystr)
    (new_entry : option entry_data) : list pystr :=
  match new_entry with
  | Some e => if entry_nonempty e then [render_entry now_entry e] else []
  | None => []
  end.

Definition new_error_logs (now_error : pystr) (new_error : option pystr)
  : list pystr :=
  match new_error with
  | Some (c :: msg) => [render_error now_error (c :: msg)]
  | _ => []
  end.

(** The layout of the rewritten file: the normal records, then, if there
    are error logs, an empty part (when there are normal records), the
    header and the error logs. *)
Definition layout (normals errors : list pystr) : list pystr :=
  normals ++
  match errors with
  | [] => []
  | _ => match normals with [] => [] | _ => [[]] end
         ++ ERROR_LOG_HEADER :: errors
  end.

(** The layout as the claim words it: no part between the normal records
    and the header. *)
Definition layout_as_claimed (normals errors : list pystr) : list pystr :=
  normals ++
  match errors with
  | [] => []
  | _ => ERROR_LOG_HEADER :: errors
  end.

(** The character 注 that opens a single-bet line. *)
Definition ZHU : N := 27880.

(** What follows 注 in [rec_pattern]. *)
Definition rec_body : Re.regex :=
  Re.Cat ([ Re.Star isspace; Re.Plus isdecimal; Re.Chr 58 ] ++ bracketed).

(** A single-bet line: 注, white space, the digits of the bet index, a
    colon, white space, and the bracketed content. *)
Definition bet_line (sp1 idx sp2 content : pystr) : pystr :=
  ZHU :: sp1 ++ idx ++ 58%N :: sp2 ++ 91%N :: content ++ [93%N].

(** The line of the claim, with bet index 3 and the digits 1 to 5. *)
Definition BET_3 : pystr := bet_line (lit " ") (lit "3") (lit " ") (lit "1, 2, 3, 4, 5").

(** The values of the digit characters of a text, in order. *)
Definition digit_values (s : pystr) : list Z := omap todecimal s.

Definition five_digits (s : pystr) : bool := (length (digit_values s) =? 5)%nat.

(** A pattern without anchors none of whose characters or classes
    accepts [z]. *)
Fixpoint avoids (z : N) (r : Re.regex) : bool :=
  match r with
  | Re.Eps => true
  | Re.Chr c => negb (z =? c)%N
  | Re.Cls f => negb (f z)
  | Re.Seq r1 r2 | Re.Alt r1 r2 => avoids z r1 && avoids z r2
  | Re.Rep f _ _ => negb (f z)
  | Re.Group _ r1 => avoids z r1
  | Re.Bol | Re.Eol => false
  end.

(** The same match in a subject that goes on with [tail]. *)
Definition extend (tail : pystr) (m : Re.rmatch) : Re.rmatch :=
  {| Re.after := Re.after m ++ tail; Re.groups := Re.groups m |}.

(** The match of a single-bet line: what follows the line, and the
    bracket content as group 1. *)
Definition line_match (content post : pystr) : Re.rmatch :=
  {| Re.after := post; Re.groups := [(1, content)] |}.

(** A text without a line feed. *)
Definition no_line_feed (s : pystr) : Prop := Forall (fun c => c ≠ 10%N) s.

(** A reader state that holds no line feed. *)
Definition reader_clean (rd : Csv.reader) : Prop :=
  Forall no_line_feed (Csv.fields rd) ∧ no_line_feed (Csv.field rd).

(** Characters other than ['='], ['E'] and 错: a text made of them holds
    neither the delimiter nor an error marker. *)
Definition plain_char (c : N) : bool :=
  negb (c =? 61)%N && negb (c =? 69)%N && negb (c =? 38169)%N.

Definition plain (s : pystr) : bool := forallb plain_char s.

(** An entry whose texts are plain, as are those [main_process] builds:
    the clock reading, a period of digits, the tier label. *)
Definition entry_plain (now : pystr) (e : entry_data) : bool :=
  plain now && plain (default [] (period e))
  && forallb (fun d => plain (WinRecord.prize_type d))
       (default [] (winning_details e)).

(** Successive calls with a new entry each, every call reading the text
    the one before wrote. *)
Fixpoint record_all (writes : list (pystr * entry_data)) (content : pystr)
  : pystr :=
  match writes with
  | [] => content
  | (now, e) :: writes' =>
    record_all writes' (written (manage_report content now [] (Some e) None))
  end.

(** What the bytes of a file decode to under the first of the three
    encodings that accepts them; Latin-1 accepts every byte. *)
Definition first_decode (gbk_table : N -> N -> option N) (bs : list byte)
  : pystr :=
  match decode gbk_table UTF_8 bs with
  | Some decoded => decoded
  | None =>
    match decode gbk_table GBK bs with
    | Some decoded => decoded
    | None => List.map Byte.to_N bs
    end
  end.

(** The well-formed rows of a table that carry period [p], in file
    order. *)
Definition rows_of_period (p : pystr) (rows : list (list pystr))
  : list (list pystr) :=
  List.filter (fun row => row_accepted row && bool_decide (cell row 0 = p)) rows.

Definition record_of_row (row : list pystr) : draw_record :=
  {| numbers := row_numbers row |}.

Definition pystr_eq_dec : ∀ s t : pystr, {s = t} + {s ≠ t} :=
  List.list_eq_dec N.eq_dec.

(** A pattern without parentheses. *)
Fixpoint group_free (r : Re.regex) : bool :=
  match r with
  | Re.Seq r1 r2 | Re.Alt r1 r2 => group_free r1 && group_free r2
  | Re.Group _ _ => false
  | _ => true
  end.

(** The position labels of the duplex section. *)
Definition duplex_labels : list pystr := List.map fst duplex_patterns.

(** An integer from 0 to 9. *)
Definition is_digit (d : Z) : Prop := (0 <= d <= 9)%Z.

(** The bets equal to the draw. *)
Definition matching_bets (prize_numbers : list Z)
    (recommendations : list (list Z)) : list (list Z) :=
  List.filter (fun bet => bool_decide (bet = prize_numbers)) recommendations.

(** A separator between the digits of a bet: white space and commas. *)
Definition digit_separator (sep : pystr) : bool :=
  forallb (fun c => isspace c || (c =? 44)%N) sep.

(** A text without ['=']: no delimiter starts inside it. *)
Definition no_equals (s : pystr) : Prop := Forall (fun c => c ≠ 61%N) s.

(** A part that is read back as a normal record, and one that is read
    back as an error log. *)
Definition normal_part (p : pystr) : Prop :=
  plain p = true ∧ is_normal_section p = true.

Definition error_part (p : pystr) : Prop :=
  no_equals p ∧ is_error_section p = true.

(** What a call finds as error logs in a file laid out with the error
    logs [errors]: the header comes first. *)
Definition error_logs_read (errors : list pystr) : list pystr :=
  match errors with
  | [] => []
  | _ => ERROR_LOG_HEADER :: errors
  end.

(** Successive calls with a new error each, every call reading the text
    the one before wrote. *)
Fixpoint log_all (errors : list (pystr * pystr)) (content : pystr) : pystr :=
  match errors with
  | [] => content
  | (now, msg) :: errors' =>
    log_all errors' (written (manage_report content [] now None (Some msg)))
  end.

(** The elements of [l] with [x] between each two of them. *)
Fixpoint interleave {A : Type} (x : A) (l : list A) : list A :=
  match l with
  | [] => []
  | [a] => [a]
  | a :: l' => a :: x :: interleave x l'
  end.

(** The error list a call with a new error leaves, given the error logs
    of the file it read. *)
Definition log_error (errors : list pystr) (failure : pystr * pystr)
  : list pystr :=
  take MAX_ERROR_LOGS
    (render_error failure.1 failure.2 :: error_logs_read errors).

(** A failure that can be logged and read back: a clock reading and a
    non-empty message, both without ['=']. *)
Definition loggable (failure : pystr * pystr) : Prop :=
  no_equals failure.1 ∧ no_equals failure.2 ∧ failure.2 ≠ [].

(** The ways in which a run fails, with the message of each: the table
    cannot be read or is empty; it has no well-formed row; it has a
    single well-formed row; no report declares the period before the
    last as its cutoff; the report found has no bet. *)
Definition failure_cause (gbk_table : N -> N -> option N) (fs : filesystem)
    (found : list pystr) (msg : pystr) : Prop :=
  (msg = lit "无法读取CSV文件: pl5.csv"
   ∧ (robust_file_read gbk_table fs CSV_FILE = None
      ∨ robust_file_read gbk_table fs CSV_FILE = Some []))
  ∨ (∃ csv_content,
       robust_file_read gbk_table fs CSV_FILE = Some csv_content
       ∧ ((msg = lit "CSV数据解析失败"
           ∧ get_period_data_from_csv csv_content = None)
          ∨ (msg = lit "数据不足，至少需要2期数据"
             ∧ ∃ period_map p,
                 get_period_data_from_csv csv_content = Some (period_map, [p]))
          ∨ ∃ period_map earlier cutoff eval,
              get_period_data_from_csv csv_content
              = Some (period_map, earlier ++ [cutoff; eval])
              ∧ ((msg = lit "未找到数据截止期为 " ++ cutoff ++ lit " 的分析报告"
                  ∧ find_matching_report gbk_table fs found cutoff = None)
                 ∨ (msg = lit "报告中未找到有效的推荐号码"
                    ∧ ∃ report_path report_content,
                        find_matching_report gbk_table fs found cutoff
                        = Some report_path
                        ∧ robust_file_read gbk_table fs report_path
                          = Some report_content
                        ∧ single (parse_recommendations_from_report
                                    report_content) = [])))).

(** The entry of a run that evaluates the period [eval], drawn as
    [draw], on the bets [recommendations]. *)
Definition entry_of (eval : pystr) (draw : list Z)
    (recommendations : list (list Z)) : entry_data :=
  let wins := matching_bets draw recommendations in
  {| period := Some eval;
     prize_numbers := Some draw;
     recommendation_count := Some (Z.of_nat (length recommendations));
     winning_count := Some (Z.of_nat (length wins));
     total_prize := Some (100000 * Z.of_nat (length wins))%Z;
     winning_details :=
       Some (List.map (fun b => win_record b.1 b.2)
               (winning_bets draw recommendations)) |}.

(** What a successful run has gone through. *)
Definition run_of (gbk_table : N -> N -> option N) (fs : filesystem)
    (found : list pystr) (e : entry_data) : Prop :=
  ∃ csv_content period_map earlier cutoff eval report_path report_content draw,
    robust_file_read gbk_table fs CSV_FILE = Some csv_content
    ∧ get_period_data_from_csv csv_content
      = Some (period_map, earlier ++ [cutoff; eval])
    ∧ find_matching_report gbk_table fs found cutoff = Some report_path
    ∧ robust_file_read gbk_table fs report_path = Some report_content
    ∧ declared_cutoff report_content = Some cutoff
    ∧ period_le cutoff eval
    ∧ period_map !! eval = Some {| numbers := draw |}
    ∧ length draw = 5 ∧ Forall is_digit draw
    ∧ forallb isdecimal eval = true
    ∧ single (parse_recommendations_from_report report_content) ≠ []
    ∧ e = entry_of eval draw
            (single (parse_recommendations_from_report report_content)).



(* ====================================================================== *)
(** * Scoring: proofs *)
(* ====================================================================== *)

Lemma prize_value_zhixuan : PRIZE_VALUES !!! ZHIXUAN = 100000%Z.
Proof. unfold PRIZE_VALUES. apply lookup_total_singleton_eq. Qed.

(** The loop of [calculate_prize], from any starting state. *)
Lemma score_fold (prize_numbers : list Z) (bets : list (nat * list Z))
    (t c : Z) (d : list WinRecord.t) :
  length prize_numbers = 5 →
  let wins := List.filter (fun b => bool_decide (b.2 = prize_numbers)) bets in
  fold_left (score_bet prize_numbers) bets (t, {[ ZHIXUAN := c ]}, d)
  = ((t + 100000 * Z.of_nat (length wins))%Z,
     {[ ZHIXUAN := (c + Z.of_nat (length wins))%Z ]},
     d ++ List.map (fun b => win_record b.1 b.2) wins).
Proof.
  intros Hlen. revert t c d.
  induction bets as [|[i r] bets IH]; intros t c d; cbn [fold_left List.filter List.map].
  - cbn. rewrite !Z.add_0_r, app_nil_r. reflexivity.
  - unfold score_bet at 2. cbn [snd fst].
    destruct (length r =? 5)%nat eqn:Hr; cbn [negb].
    + destruct (bool_decide (r = prize_numbers)) eqn:Heq.
      * rewrite prize_value_zhixuan, lookup_total_singleton_eq, insert_singleton_eq.
        rewrite IH. cbn [length List.map fst snd].
        rewrite <- app_assoc. cbn [app].
        set (n := length (List.filter _ bets)).
        replace (t + 100000 + 100000 * Z.of_nat n)%Z
          with (t + 100000 * Z.of_nat (S n))%Z by lia.
        replace (c + 1 + Z.of_nat n)%Z with (c + Z.of_nat (S n))%Z by lia.
        reflexivity.
      * apply IH.
    + assert (bool_decide (r = prize_numbers) = false) as ->.
      { apply bool_decide_eq_false. intros ->.
        apply Nat.eqb_neq in Hr. congruence. }
      apply IH.
Qed.

Lemma calculate_prize_nonempty (recommendations : list (list Z))
    (prize_numbers : list Z) :
  length prize_numbers = 5 → recommendations ≠ [] →
  let wins := winning_bets prize_numbers recommendations in
  calculate_prize recommendations prize_numbers
  = ((100000 * Z.of_nat (length wins))%Z,
     {[ ZHIXUAN := Z.of_nat (length wins) ]},
     List.map (fun b => win_record b.1 b.2) wins).
Proof.
  intros Hlen Hne. unfold calculate_prize.
  destruct recommendations as [|r rs]; [congruence|].
  destruct prize_numbers as [|p ps]; [discriminate|].
  rewrite Hlen. cbn [Nat.eqb negb].
  rewrite score_fold by exact Hlen. reflexivity.
Qed.

Lemma calculate_prize_details (recommendations : list (list Z))
    (prize_numbers : list Z) :
  length prize_numbers = 5 →
  (calculate_prize recommendations prize_numbers).2
  = List.map (fun b => win_record b.1 b.2)
      (winning_bets prize_numbers recommendations).
Proof.
  intros Hlen. destruct recommendations as [|r rs].
  - reflexivity.
  - rewrite calculate_prize_nonempty by (done || exact Hlen). reflexivity.
Qed.

(** Positions in an enumeration. *)
Lemma elem_of_enumerate_from {A : Type} (l : list A) (k i : nat) (x : A) :
  In (i, x) (combine (seq k (length l)) l) ↔ k ≤ i ∧ l !! (i - k) = Some x.
Proof.
  revert k. induction l as [|y l IH]; intros k; cbn [length seq combine In].
  - split; [tauto|]. intros [_ H]. discriminate.
  - rewrite IH. split.
    + intros [H|[Hle Hl]].
      * injection H as <- <-. split; [lia|]. by rewrite Nat.sub_diag.
      * split; [lia|]. replace (i - k) with (S (i - S k)) by lia. exact Hl.
    + intros [Hle Hl]. destruct (decide (i = k)) as [->|Hne].
      * left. rewrite Nat.sub_diag in Hl. cbn in Hl. congruence.
      * right. split; [lia|]. replace (i - k) with (S (i - S k)) in Hl by lia.
        exact Hl.
Qed.

Lemma elem_of_enumerate {A : Type} (l : list A) (i : nat) (x : A) :
  In (i, x) (enumerate l) ↔ l !! i = Some x.
Proof.
  unfold enumerate. rewrite elem_of_enumerate_from, Nat.sub_0_r.
  split; [tauto|]. intros H. split; [lia|exact H].
Qed.

Lemma enumerate_positions_from {A : Type} (l : list A) (k : nat) :
  List.map fst (combine (seq k (length l)) l) = seq k (length l).
Proof.
  revert k. induction l as [|y l IH]; intros k; cbn; [done|]. by rewrite IH.
Qed.

(** Filtering keeps a strictly increasing list strictly increasing. *)
Lemma filter_increasing {A : Type} (key : A → Z) (f : A → bool) (l : list A) :
  StronglySorted Z.lt (List.map key l) →
  StronglySorted Z.lt (List.map key (List.filter f l)).
Proof.
  induction l as [|x l IH]; cbn; [done|].
  intros H. apply StronglySorted_inv in H as [Hs Hall].
  destruct (f x); cbn; [|by apply IH].
  constructor; [by apply IH|].
  rewrite List.Forall_forall in Hall |- *. intros y Hy. apply Hall.
  apply in_map_iff in Hy as (b & <- & Hb). apply in_map_iff.
  exists b. split; [done|]. apply filter_In in Hb. tauto.
Qed.

Lemma seq_increasing (k n : nat) :
  StronglySorted Z.lt (List.map (fun i => Z.of_nat i + 1)%Z (seq k n)).
Proof.
  revert k. induction n as [|n IH]; intros k; cbn; constructor; [apply IH|].
  rewrite List.Forall_forall. intros y Hy.
  apply in_map_iff in Hy as (j & <- & Hj). apply in_seq in Hj. lia.
Qed.

Lemma win_indices_increasing (prize_numbers : list Z)
    (recommendations : list (list Z)) :
  StronglySorted Z.lt
    (List.map WinRecord.index
       (List.map (fun b => win_record b.1 b.2)
          (winning_bets prize_numbers recommendations))).
Proof.
  rewrite List.map_map. cbn [win_record WinRecord.index].
  unfold winning_bets.
  apply (filter_increasing (fun b : nat * list Z => Z.of_nat b.1 + 1)%Z).
  rewrite <- (List.map_map fst (fun i => Z.of_nat i + 1)%Z).
  unfold enumerate. rewrite enumerate_positions_from. apply seq_increasing.
Qed.

(** C1.  Against a draw of five digits, the win records are exactly the
    bets equal to the draw, element by element and in order: each such
    bet gives one record, at its position counted from 1 and at the fixed
    amount of 100000; a bet that differs anywhere gives none; and the
    records come in the order of the bets. *)
Theorem calculate_prize_exact_match (recommendations : list (list Z))
    (prize_numbers : list Z) :
  length prize_numbers = 5 →
  let details := (calculate_prize recommendations prize_numbers).2 in
  details = List.map (fun b => win_record b.1 b.2)
              (winning_bets prize_numbers recommendations)
  ∧ (∀ i, recommendations !! i = Some prize_numbers →
       In (win_record i prize_numbers) details)
  ∧ (∀ i bet, recommendations !! i = Some bet → bet ≠ prize_numbers →
       ∀ w, In w details → WinRecord.index w ≠ (Z.of_nat i + 1)%Z)
  ∧ (∀ w, In w details →
       WinRecord.numbers w = prize_numbers
       ∧ WinRecord.prize_amount w = 100000%Z
       ∧ ∃ i, recommendations !! i = Some prize_numbers
              ∧ w = win_record i prize_numbers)
  ∧ StronglySorted Z.lt (List.map WinRecord.index details).
Proof.
  intros Hlen details.
  assert (Hd : details = List.map (fun b => win_record b.1 b.2)
                 (winning_bets prize_numbers recommendations))
    by (apply calculate_prize_details; exact Hlen).
  assert (Hin : ∀ w, In w details ↔
            ∃ i, recommendations !! i = Some prize_numbers
                 ∧ w = win_record i prize_numbers).
  { intros w. rewrite Hd, in_map_iff. unfold winning_bets. split.
    - intros ([i r] & <- & Hb). apply filter_In in Hb as [Hb Heq].
      apply bool_decide_eq_true in Heq. cbn in Heq. subst r.
      apply elem_of_enumerate in Hb. by exists i.
    - intros (i & Hi & ->). exists (i, prize_numbers). split; [done|].
      apply filter_In. split; [by apply elem_of_enumerate|].
      by apply bool_decide_eq_true. }
  split; [exact Hd|]. split; [|split; [|split]].
  - intros i Hi. apply Hin. by exists i.
  - intros i bet Hi Hne w Hw Hidx. apply Hin in Hw as (j & Hj & ->).
    cbn in Hidx. assert (j = i) as -> by lia. congruence.
  - intros w Hw. apply Hin in Hw as (i & Hi & ->). cbn. eauto.
  - rewrite Hd. apply win_indices_increasing.
Qed.

Lemma calculate_prize_exact_match_witness :
  (calculate_prize [[1; 2; 3; 4; 5]; [1; 2; 3; 4; 6]]%Z [1; 2; 3; 4; 5]%Z).2
  = [win_record 0 [1; 2; 3; 4; 5]%Z].
Proof.
  exact (proj1 (calculate_prize_exact_match
                  [[1; 2; 3; 4; 5]; [1; 2; 3; 4; 6]]%Z [1; 2; 3; 4; 5]%Z
                  eq_refl)).
Defined.

(** C7.  When the draw does not have exactly five numbers the result is
    the zero score: no prize, an empty tier summary, no win record.  The
    function is total, so there is no error to raise. *)
Theorem calculate_prize_malformed_draw (recommendations : list (list Z))
    (prize_numbers : list Z) :
  length prize_numbers ≠ 5 →
  calculate_prize recommendations prize_numbers = (0%Z, ∅, []).
Proof.
  intros Hlen. unfold calculate_prize.
  destruct recommendations as [|r rs]; [done|].
  destruct prize_numbers as [|p ps]; [done|].
  apply Nat.eqb_neq in Hlen. by rewrite Hlen.
Qed.

Lemma calculate_prize_malformed_draw_witness :
  calculate_prize [[1; 2; 3; 4]]%Z [1; 2; 3; 4]%Z = (0%Z, ∅, []).
Proof.
  apply (calculate_prize_malformed_draw [[1; 2; 3; 4]]%Z [1; 2; 3; 4]%Z).
  cbn. lia.
Defined.

(** C10, as the claim states it, fails for an empty list of bets: the
    guard returns an empty summary, which has no count for the tier. *)
Lemma calculate_prize_empty_summary :
  let '(total_prize, prize_stats, winning_details) :=
    calculate_prize [] [1; 2; 3; 4; 5]%Z in
  prize_stats = ∅
  ∧ prize_stats !! ZHIXUAN ≠ Some (Z.of_nat (length winning_details)).
Proof. split; [reflexivity|]. cbn. rewrite lookup_empty. discriminate. Qed.

(** C10, amended.  For a draw of five digits the total prize is 100000
    times the number of win records and the indices of the win records
    are strictly increasing; when there is at least one bet the summary
    holds exactly the direct-selection tier, counted as the number of win
    records, and when there is none the summary is empty. *)
Theorem calculate_prize_consistent (recommendations : list (list Z))
    (prize_numbers : list Z) :
  length prize_numbers = 5 →
  let '(total_prize, prize_stats, winning_details) :=
    calculate_prize recommendations prize_numbers in
  total_prize = (100000 * Z.of_nat (length winning_details))%Z
  ∧ StronglySorted Z.lt (List.map WinRecord.index winning_details)
  ∧ (recommendations ≠ [] →
       prize_stats = {[ ZHIXUAN := Z.of_nat (length winning_details) ]})
  ∧ (recommendations = [] → prize_stats = ∅).
Proof.
  intros Hlen. destruct recommendations as [|r rs].
  - cbn. repeat split; [constructor|done].
  - rewrite calculate_prize_nonempty by (done || exact Hlen).
    rewrite length_map. repeat split; [apply win_indices_increasing|done].
Qed.

Lemma calculate_prize_consistent_witness :
  let '(total_prize, prize_stats, winning_details) :=
    calculate_prize [[7; 7; 7; 7; 7]]%Z [7; 7; 7; 7; 7]%Z in
  total_prize = (100000 * Z.of_nat (length winning_details))%Z
  ∧ StronglySorted Z.lt (List.map WinRecord.index winning_details)
  ∧ ([[7; 7; 7; 7; 7]]%Z ≠ [] →
       prize_stats = {[ ZHIXUAN := Z.of_nat (length winning_details) ]})
  ∧ ([[7; 7; 7; 7; 7]]%Z = [] → prize_stats = ∅).
Proof.
  exact (calculate_prize_consistent [[7; 7; 7; 7; 7]]%Z [7; 7; 7; 7; 7]%Z eq_refl).
Defined.

(* ====================================================================== *)
(** * Reading files: proofs *)
(* ====================================================================== *)

(** Text-mode reading leaves no carriage return. *)
Lemma universal_newlines_no_cr (s : pystr) : ¬ In 13%N (universal_newlines s).
Proof.
  assert (H : ∀ n s, length s ≤ n → ¬ In 13%N (universal_newlines s)).
  { induction n as [|n IH]; intros [|c t] Hlen; cbn [length] in Hlen;
      try (by intros []); [lia|].
    cbn [universal_newlines].
    destruct (c =? 13)%N eqn:Hc.
    - destruct t as [|c2 t2].
      + intros [?|[]]. done.
      + destruct (c2 =? 10)%N; intros [?|Hin]; try done;
          revert Hin; apply IH; cbn [length] in *; lia.
    - apply N.eqb_neq in Hc. intros [?|Hin]; [done|].
      revert Hin. apply IH. lia. }
  by apply (H (length s)).
Qed.

Section ReadingFacts.
Variable gbk_table : N -> N -> option N.
Variable fs : filesystem.
Variable file_path : pystr.

Lemma try_encodings_none (encs : list encoding) :
  try_encodings gbk_table fs file_path encs = None ↔
  ∀ enc, In enc encs → open_read gbk_table fs file_path enc = None.
Proof.
  induction encs as [|e encs IH]; cbn [try_encodings].
  - split; [intros _ enc []|done].
  - destruct (open_read gbk_table fs file_path e) eqn:He.
    + split; [done|]. intros H. specialize (H e (or_introl eq_refl)). congruence.
    + rewrite IH. split.
      * intros H enc [<-|Hin]; [done|by apply H].
      * intros H enc Hin. apply H. by right.
Qed.

Lemma try_encodings_some (encs : list encoding) (text : pystr) :
  try_encodings gbk_table fs file_path encs = Some text ↔
  ∃ earlier enc later,
    encs = earlier ++ enc :: later
    ∧ open_read gbk_table fs file_path enc = Some text
    ∧ ∀ e, In e earlier → open_read gbk_table fs file_path e = None.
Proof.
  induction encs as [|e encs IH]; cbn [try_encodings].
  - split; [done|]. intros (earlier & enc & later & H & _).
    by destruct earlier.
  - destruct (open_read gbk_table fs file_path e) eqn:He.
    + split.
      * intros [= ->]. exists [], e, encs. repeat split; [done|]. intros ? [].
      * intros ([|e' earlier] & enc & later & Heq & Hok & Hbad).
        -- injection Heq as <- _. congruence.
        -- injection Heq as <- _. specialize (Hbad e (or_introl eq_refl)). congruence.
    + rewrite IH. split.
      * intros (earlier & enc & later & -> & Hok & Hbad).
        exists (e :: earlier), enc, later. repeat split; [done|].
        intros e' [<-|Hin]; [done|by apply Hbad].
      * intros ([|e' earlier] & enc & later & Heq & Hok & Hbad).
        -- injection Heq as <- _. congruence.
        -- injection Heq as <- ->. exists earlier, enc, later.
           repeat split; [done|]. intros e'' Hin. apply Hbad. by right.
Qed.

(** C9, as the claim states it, fails: what is returned for a file with
    the line end CR LF is not the decoding of its bytes under any of
    the encodings, since reading in text mode turns CR LF into a line
    feed. *)
Lemma line_end_not_the_decode :
  let bs := [Byte.x61; Byte.x0d; Byte.x0a; Byte.x62] in
  let fs : filesystem := {[ lit "pl5.csv" := Content bs ]} in
  robust_file_read (fun _ _ => None) fs (lit "pl5.csv") = Some [97; 10; 98]%N
  ∧ decode (fun _ _ => None) UTF_8 bs = Some [97; 13; 10; 98]%N
  ∧ ¬ ∃ enc, robust_file_read (fun _ _ => None) fs (lit "pl5.csv")
             = decode (fun _ _ => None) enc bs.
Proof.
  cbv zeta. split; [vm_compute; reflexivity|]. split; [vm_compute; reflexivity|].
  intros [[| |] H]; vm_compute in H; discriminate H.
Qed.

(** C9, amended.  The reader tries UTF-8, GBK and Latin-1 in this order
    and returns the text read under the first of them that succeeds:
    the decoding of the bytes of the file under the first encoding that
    accepts them, in which every CR LF and every lone CR has become a
    line feed, so that the text holds no carriage return.  It returns
    nothing exactly when the file does not exist or cannot be opened;
    bytes that can be read always decode under Latin-1, so such a file
    always yields a text. *)
Theorem robust_file_read_first_success :
  encodings = [UTF_8; GBK; LATIN_1]
  ∧ (robust_file_read gbk_table fs file_path = None ↔
       fs !! file_path = None
       ∨ ∀ enc, In enc encodings → open_read gbk_table fs file_path enc = None)
  ∧ (∀ text, robust_file_read gbk_table fs file_path = Some text ↔
       is_Some (fs !! file_path)
       ∧ ∃ earlier enc later,
           encodings = earlier ++ enc :: later
           ∧ open_read gbk_table fs file_path enc = Some text
           ∧ ∀ e, In e earlier → open_read gbk_table fs file_path e = None)
  ∧ (∀ bs, fs !! file_path = Some (Content bs) →
       is_Some (robust_file_read gbk_table fs file_path))
  ∧ (robust_file_read gbk_table fs file_path = None ↔
       fs !! file_path = None ∨ fs !! file_path = Some Unreadable)
  ∧ (∀ bs, fs !! file_path = Some (Content bs) →
       robust_file_read gbk_table fs file_path
       = Some (universal_newlines (first_decode gbk_table bs))
       ∧ ∀ text,
           robust_file_read gbk_table fs file_path = Some text ↔
           ∃ earlier enc later decoded,
             encodings = earlier ++ enc :: later
             ∧ decode gbk_table enc bs = Some decoded
             ∧ (∀ e, In e earlier → decode gbk_table e bs = None)
             ∧ text = universal_newlines decoded)
  ∧ (∀ text, robust_file_read gbk_table fs file_path = Some text →
       ¬ In 13%N text).
Proof.
  assert (Hbytes : ∀ bs, fs !! file_path = Some (Content bs) →
            robust_file_read gbk_table fs file_path
            = Some (universal_newlines (first_decode gbk_table bs))).
  { intros bs Hf. unfold robust_file_read, encodings, first_decode.
    rewrite Hf. cbn [try_encodings]. unfold open_read. rewrite Hf.
    destruct (decode gbk_table UTF_8 bs) as [d1|]; [done|].
    destruct (decode gbk_table GBK bs) as [d2|]; [done|]. done. }
  split; [reflexivity|]. split; [|split; [|split; [|split; [|split]]]].
  - unfold robust_file_read. destruct (fs !! file_path) as [f|] eqn:Hf.
    + rewrite try_encodings_none. split; [by right|]. by intros [|].
    + split; [by left|done].
  - unfold robust_file_read.
    intros text. destruct (fs !! file_path) as [f|] eqn:Hf.
    + rewrite try_encodings_some. split; [by split|by intros [_ H]].
    + split; [done|]. by intros [[? ?] _].
  - intros bs Hf. rewrite (Hbytes bs Hf). by eexists.
  - destruct (fs !! file_path) as [[|bs]|] eqn:Hf.
    + split; [by right|]. intros _. unfold robust_file_read. rewrite Hf.
      apply try_encodings_none. intros enc _. unfold open_read. by rewrite Hf.
    + rewrite (Hbytes bs eq_refl). split; [done|]. by intros [|].
    + split; [by left|]. intros _. unfold robust_file_read. by rewrite Hf.
  - intros bs Hf. split; [by apply Hbytes|].
    intros text. rewrite (Hbytes bs Hf). unfold first_decode, encodings. split.
    + destruct (decode gbk_table UTF_8 bs) as [d1|] eqn:H1;
        [|destruct (decode gbk_table GBK bs) as [d2|] eqn:H2];
        intros Heq; apply (inj Some) in Heq; subst text.
      * exists [], UTF_8, [GBK; LATIN_1], d1.
        split; [done|]. split; [done|]. split; [|done].
        intros e He. destruct He.
      * exists [UTF_8], GBK, [LATIN_1], d2.
        split; [done|]. split; [done|]. split; [|done].
        intros e He. destruct He as [<-|He]; [done|destruct He].
      * exists [UTF_8; GBK], LATIN_1, [], (List.map Byte.to_N bs).
        split; [done|]. split; [done|]. split; [|done].
        intros e He. destruct He as [<-|[<-|He]]; [done|done|destruct He].
    + intros (earlier & enc & later & decoded & Hencs & Hd & Hearlier & ->).
      destruct earlier as [|e1 [|e2 [|e3 earlier]]];
        injection Hencs as <-; try subst.
      * by rewrite Hd.
      * rewrite (Hearlier UTF_8) by (by left). by rewrite Hd.
      * rewrite (Hearlier UTF_8) by (by left).
        rewrite (Hearlier GBK) by (right; by left).
        cbn [decode] in Hd. by injection Hd as <-.
      * by destruct earlier.
  - intros text Hread. destruct (fs !! file_path) as [[|bs]|] eqn:Hf.
    + unfold robust_file_read in Hread. rewrite Hf in Hread.
      apply try_encodings_some in Hread as (_ & enc & _ & _ & Hopen & _).
      unfold open_read in Hopen. by rewrite Hf in Hopen.
    + rewrite (Hbytes bs eq_refl) in Hread. injection Hread as <-.
      apply universal_newlines_no_cr.
    + unfold robust_file_read in Hread. by rewrite Hf in Hread.
Qed.

End ReadingFacts.

(* ====================================================================== *)
(** * Patterns and numbers: proofs *)
(* ====================================================================== *)

(** When a greedy repetition followed by [k] succeeds at all: some
    admissible number of characters of the class can be taken so that
    [k] succeeds on what follows. *)
Lemma rep_is_Some {R : Type} (f : N → bool) (lo : nat) (hi : option nat)
    (n : nat) (s : pystr) (k : pystr → option R) :
  is_Some (Re.rep f lo hi n s k) ↔
  ∃ pre post,
    s = pre ++ post ∧ forallb f pre = true ∧ lo ≤ n + length pre
    ∧ (pre = [] ∨ Re.below (n + length pre - 1) hi = true)
    ∧ is_Some (k post).
Proof.
  revert n. induction s as [|c s IH]; intros n; cbn [Re.rep].
  - destruct (lo <=? n) eqn:Hlo.
    + apply Nat.leb_le in Hlo. split.
      * intros Hk. exists [], []. cbn. repeat split; [lia|by left|done].
      * intros (pre & post & Heq & _ & _ & _ & Hk).
        symmetry in Heq. apply app_eq_nil in Heq as [-> ->]. done.
    + apply Nat.leb_gt in Hlo. split; [by intros [? ?]|].
      intros (pre & post & Heq & _ & Hle & _ & _).
      symmetry in Heq. apply app_eq_nil in Heq as [-> ->]. cbn in Hle. lia.
  - assert (Hstop : is_Some (if lo <=? n then k (c :: s) else None) ↔
                    lo ≤ n ∧ is_Some (k (c :: s))).
    { destruct (lo <=? n) eqn:Hlo.
      - apply Nat.leb_le in Hlo. tauto.
      - apply Nat.leb_gt in Hlo. split; [by intros [? ?]|lia]. }
    assert (Hbelow : ∀ m, Re.below m hi = true → n ≤ m → Re.below n hi = true)
      by (intros m Hm Hle; destruct hi as [h|]; [|done]; unfold Re.below in *;
          apply Nat.ltb_lt; apply Nat.ltb_lt in Hm; lia).
    destruct (f c && Re.below n hi) eqn:Hc.
    + apply andb_true_iff in Hc as [Hfc Hb].
      destruct (Re.rep f lo hi (S n) s k) as [x|] eqn:Hrec.
      * split; [|done]. intros _.
        destruct (proj1 (IH (S n))) as (pre & post & -> & Hpre & Hle & Hhi & Hk).
        { by rewrite Hrec. }
        exists (c :: pre), post. cbn [length forallb app]. rewrite Hfc, Hpre.
        repeat split; [lia| |done]. right.
        destruct Hhi as [->|Hhi]; cbn [length].
        -- by replace (n + 1 - 1) with n by lia.
        -- by replace (n + S (length pre) - 1) with (S n + length pre - 1) by lia.
      * rewrite Hstop. split.
        -- intros [Hlo Hk]. exists [], (c :: s). cbn.
           repeat split; [lia|by left|done].
        -- intros ([|c' pre] & post & Heq & Hpre & Hle & Hhi & Hk).
           ++ cbn in Heq, Hle. subst post. split; [lia|done].
           ++ exfalso. cbn in Heq. injection Heq as <- ->.
              cbn in Hpre. apply andb_true_iff in Hpre as [_ Hpre].
              assert (is_Some (Re.rep f lo hi (S n) (pre ++ post) k)) as [? ?];
                [|congruence].
              apply IH. exists pre, post. cbn [length] in Hle, Hhi.
              repeat split; [done|lia| |done].
              destruct Hhi as [Hhi|Hhi]; [discriminate|].
              destruct pre; [by left|right]. cbn [length] in *.
              by replace (S n + S (length pre) - 1)
                with (n + S (S (length pre)) - 1) by lia.
    + rewrite Hstop. split.
      * intros [Hlo Hk]. exists [], (c :: s). cbn.
        repeat split; [lia|by left|done].
      * intros ([|c' pre] & post & Heq & Hpre & Hle & Hhi & Hk).
        -- cbn in Heq, Hle. subst post. split; [lia|done].
        -- exfalso. cbn in Heq. injection Heq as <- ->.
           cbn in Hpre. apply andb_true_iff in Hpre as [Hfc _].
           destruct Hhi as [Hhi|Hhi]; [discriminate|].
           rewrite Hfc in Hc. cbn in Hc.
           rewrite (Hbelow _ Hhi) in Hc; [discriminate|]. cbn [length]. lia.
Qed.

(** What [^\d{4,7}$] matches: 4 to 7 decimal digits, possibly followed
    by one final line feed. *)
Lemma period_pattern_matches (s : pystr) :
  is_Some (Re.rematch period_pattern s) ↔
  ∃ ds tail, s = ds ++ tail ∧ forallb isdecimal ds = true
             ∧ 4 ≤ length ds ≤ 7 ∧ (tail = [] ∨ tail = [10%N]).
Proof.
  unfold Re.rematch, Re.match_at, period_pattern. cbn [Re.Cat foldr Re.run].
  rewrite Nat.eqb_refl, rep_is_Some. split.
  - intros (pre & post & -> & Hpre & Hlo & Hhi & Hk).
    exists pre, post. repeat split; [done|lia| |].
    + destruct Hhi as [->|Hhi]; [cbn in Hlo; lia|].
      unfold Re.below in Hhi. apply Nat.ltb_lt in Hhi. cbn [Nat.add] in Hhi. lia.
    + destruct post as [|c [|c' post]]; [by left| |by destruct Hk].
      destruct (c =? 10)%N eqn:Hc; [|by destruct Hk].
      apply N.eqb_eq in Hc. subst c. by right.
  - intros (ds & tail & -> & Hds & [Hlo Hhi] & Htail).
    exists ds, tail. repeat split; [done|lia| |].
    + right. unfold Re.below. apply Nat.ltb_lt. cbn [Nat.add]. lia.
    + destruct Htail as [->| ->]; cbn; done.
Qed.

(** No white space character is a decimal digit. *)
Lemma isspace_cases (c : N) :
  isspace c = true →
  In c [ 9; 10; 11; 12; 13; 28; 29; 30; 31; 32; 133; 160; 5760; 8192; 8193;
         8194; 8195; 8196; 8197; 8198; 8199; 8200; 8201; 8202; 8232; 8233;
         8239; 8287; 12288 ]%N.
Proof.
  unfold isspace, between.
  rewrite !orb_true_iff, !andb_true_iff, !N.leb_le, !N.eqb_eq.
  cbn [In]. lia.
Qed.

Lemma isdecimal_not_isspace (c : N) : isdecimal c = true → isspace c = false.
Proof.
  intros Hd. destruct (isspace c) eqn:Hs; [|done].
  apply isspace_cases in Hs. cbn [In] in Hs.
  repeat (destruct Hs as [<-|Hs]; [vm_compute in Hd; discriminate|]).
  destruct Hs.
Qed.

Lemma int_space_isspace (c : N) : int_space c = true → isspace c = true.
Proof.
  unfold int_space, isspace, between.
  rewrite !orb_true_iff, !andb_true_iff, !N.leb_le, !N.eqb_eq.
  intros [[H|H]|[_ H]]; [lia|lia|].
  rewrite !orb_true_iff, !andb_true_iff, !N.leb_le, !N.eqb_eq in H. lia.
Qed.

Lemma isdecimal_not_int_space (c : N) : isdecimal c = true → int_space c = false.
Proof.
  intros Hd. destruct (int_space c) eqn:Hs; [|done].
  apply int_space_isspace in Hs. by rewrite isdecimal_not_isspace in Hs.
Qed.

Lemma run_value_range (runs : list N) (c : N) (d : Z) :
  run_value runs c = Some d → (0 <= d <= 9)%Z.
Proof.
  induction runs as [|s runs IH]; cbn; [done|].
  destruct (between s (s + 9) c) eqn:Hb; [|exact IH].
  intros [= <-]. unfold between in Hb.
  apply andb_true_iff in Hb as [H1 H2].
  apply N.leb_le in H1, H2. lia.
Qed.

Lemma todecimal_range (c : N) (d : Z) : todecimal c = Some d → (0 <= d <= 9)%Z.
Proof. apply run_value_range. Qed.

Lemma isdecimal_todecimal (c : N) :
  isdecimal c = true → ∃ d, todecimal c = Some d ∧ (0 <= d <= 9)%Z.
Proof.
  unfold isdecimal. destruct (todecimal c) as [d|] eqn:Hd; [|done].
  intros _. exists d. split; [done|]. by apply (todecimal_range c).
Qed.

(** Reading a run of digits that ends the text or stands before a final
    line feed. *)
Lemma scan_digits_run (ds tail : pystr) (acc : Z) (n : nat) :
  forallb isdecimal ds = true → tail = [] ∨ tail = [10%N] → (0 <= acc)%Z →
  ∃ v, scan_digits acc n (ds ++ tail) = Some (v, n + length ds, tail)
       ∧ (0 <= v)%Z.
Proof.
  revert acc n. induction ds as [|c ds IH]; intros acc n Hds Htail Hacc.
  - exists acc. rewrite Nat.add_0_r. split; [|done].
    destruct Htail as [->| ->]; reflexivity.
  - cbn in Hds. apply andb_true_iff in Hds as [Hc Hds].
    apply isdecimal_todecimal in Hc as (d & Hd & Hr).
    cbn [app scan_digits]. rewrite Hd.
    destruct (IH (10 * acc + d)%Z (S n) Hds Htail) as (v & Hv & Hv0); [lia|].
    exists v. rewrite Hv. cbn [length]. split; [|done].
    by replace (S n + length ds) with (n + S (length ds)) by lia.
Qed.

(** [int] reads every text that [period_pattern] matches, as a number
    that is not negative. *)
Lemma int_of_digits (ds tail : pystr) :
  forallb isdecimal ds = true → 1 ≤ length ds ≤ max_str_digits →
  tail = [] ∨ tail = [10%N] →
  ∃ v, Py.int (ds ++ tail) = Some v ∧ (0 <= v)%Z.
Proof.
  intros Hds [Hlo Hhi] Htail. destruct ds as [|c ds]; [cbn in Hlo; lia|].
  cbn in Hds. apply andb_true_iff in Hds as [Hc Hds].
  pose proof (isdecimal_not_int_space c Hc) as Hsp.
  destruct (isdecimal_todecimal c Hc) as (d & Hd & Hr).
  unfold Py.int. cbn [app dropwhile]. rewrite Hsp.
  assert ((c =? 43)%N = false) as ->.
  { apply N.eqb_neq. intros ->. vm_compute in Hd. discriminate. }
  assert ((c =? 45)%N = false) as ->.
  { apply N.eqb_neq. intros ->. vm_compute in Hd. discriminate. }
  unfold int_unsigned. rewrite Hd.
  destruct (scan_digits_run ds tail d 1 Hds Htail) as (v & -> & Hv); [lia|].
  exists v. split; [|done].
  assert (forallb int_space tail = true) as ->
    by (destruct Htail as [->| ->]; reflexivity).
  cbn [length] in Hhi.
  assert ((1 + length ds <=? max_str_digits) = true) as ->
    by (apply Nat.leb_le; lia).
  reflexivity.
Qed.

Lemma int_of_period (period : pystr) :
  is_Some (Re.rematch period_pattern period) →
  Py.int period = Some (period_key period) ∧ (0 <= period_key period)%Z.
Proof.
  intros H. apply period_pattern_matches in H as (ds & tail & -> & Hds & Hlen & Htail).
  destruct (int_of_digits ds tail Hds) as (v & Hv & Hv0); [|done|].
  { unfold max_str_digits. lia. }
  unfold period_key. rewrite Hv. done.
Qed.

(* ====================================================================== *)
(** * Draw table: proofs *)
(* ====================================================================== *)

(** The loop body adds exactly the well-formed rows. *)
Lemma load_row_spec (st : loader_state) (row : list pystr) :
  load_row st row =
  if row_accepted row
  then (<[cell row 0 := {| numbers := row_numbers row |}]> st.1,
        st.2 ++ [cell row 0])
  else st.
Proof.
  unfold load_row, row_accepted, row_numbers, field_is_digit.
  destruct ((6 <=? length row)
            && bool_decide (is_Some (Re.rematch period_pattern (cell row 0))));
    [|done].
  cbn [andb forallb List.map].
  destruct (Py.int (cell row 1)) as [p1|]; [|done].
  destruct (Py.int (cell row 2)) as [p2|]; cbn [mbind option_bind default];
    [|by rewrite ?andb_false_r].
  destruct (Py.int (cell row 3)) as [p3|]; cbn [mbind option_bind default];
    [|by rewrite ?andb_false_r].
  destruct (Py.int (cell row 4)) as [p4|]; cbn [mbind option_bind default];
    [|by rewrite ?andb_false_r].
  destruct (Py.int (cell row 5)) as [p5|]; cbn [mbind option_bind default];
    [|by rewrite ?andb_false_r].
  cbn [forallb]. by destruct (_ && _).
Qed.

Lemma load_row_rejected (st : loader_state) (row : list pystr) :
  row_accepted row = false → load_row st row = st.
Proof. intros H. by rewrite load_row_spec, H. Qed.

Lemma fold_load_row_filter (rows : list (list pystr)) (st : loader_state) :
  fold_left load_row rows st
  = fold_left load_row (List.filter row_accepted rows) st.
Proof.
  revert st. induction rows as [|row rows IH]; intros st; cbn; [done|].
  destruct (row_accepted row) eqn:Hrow; cbn.
  - apply IH.
  - rewrite load_row_rejected by done. apply IH.
Qed.

Lemma fold_load_row_periods (rows : list (list pystr)) (st : loader_state) :
  (fold_left load_row rows st).2
  = st.2 ++ List.map (fun row => cell row 0) (List.filter row_accepted rows).
Proof.
  revert st. induction rows as [|row rows IH]; intros st; cbn.
  - by rewrite app_nil_r.
  - rewrite IH, load_row_spec. destruct (row_accepted row); cbn; [|done].
    by rewrite <- app_assoc.
Qed.

Lemma row_numbers_digits (row : list pystr) :
  row_accepted row = true →
  length (row_numbers row) = 5
  ∧ Forall (fun num => 0 <= num <= 9)%Z (row_numbers row).
Proof.
  unfold row_accepted, row_numbers. intros H.
  apply andb_true_iff in H as [_ H]. split; [reflexivity|].
  rewrite forallb_forall in H. apply List.Forall_forall.
  intros num Hnum. apply in_map_iff in Hnum as (i & <- & Hi).
  specialize (H i Hi). unfold field_is_digit in H.
  destruct (Py.int (cell row i)) as [v|]; [|done]. cbn.
  unfold in_digit_range in H. apply andb_true_iff in H as [H1 H2].
  apply Z.leb_le in H1, H2. lia.
Qed.

(** Every record of the map comes from a well-formed row. *)
Lemma fold_load_row_records (rows : list (list pystr)) (st : loader_state)
    (p : pystr) (r : draw_record) :
  (fold_left load_row rows st).1 !! p = Some r →
  st.1 !! p = Some r
  ∨ ∃ row, In row rows ∧ row_accepted row = true ∧ cell row 0 = p
           ∧ numbers r = row_numbers row.
Proof.
  revert st. induction rows as [|row rows IH]; intros st; cbn; [by left|].
  intros H. apply IH in H as [H|(row' & Hin & Hrest)].
  - rewrite load_row_spec in H. destruct (row_accepted row) eqn:Hrow; [|by left].
    cbn in H. destruct (decide (cell row 0 = p)) as [Heq|Hne].
    + rewrite Heq, lookup_insert_eq in H. injection H as <-.
      right. exists row. repeat split; [by left|done|done].
    + rewrite lookup_insert_ne in H by done. by left.
  - right. exists row'. split; [by right|done].
Qed.

(** The map is empty exactly when no period was listed. *)
Lemma fold_load_row_empty (rows : list (list pystr)) (st : loader_state) :
  (st.1 = ∅ ↔ st.2 = []) →
  ((fold_left load_row rows st).1 = ∅ ↔ (fold_left load_row rows st).2 = []).
Proof.
  revert st. induction rows as [|row rows IH]; intros st Hst; cbn; [done|].
  apply IH. rewrite load_row_spec. destruct (row_accepted row); [|done].
  cbn. split.
  - intros H. by apply insert_non_empty in H.
  - intros H. by apply app_eq_nil in H as [_ ?].
Qed.

(* ====================================================================== *)
(** * Sorting: proofs *)
(* ====================================================================== *)

Section SortFacts.
Context {A : Type} (lt : A → A → bool).

Lemma insert_sorted_perm (x : A) (l : list A) :
  Permutation (insert_sorted lt x l) (x :: l).
Proof.
  induction l as [|y l IH]; cbn; [done|].
  destruct (lt y x); [|done].
  rewrite IH. apply perm_swap.
Qed.

Lemma sorted_perm (l : list A) : Permutation (sorted lt l) l.
Proof.
  induction l as [|x l IH]; cbn; [done|].
  fold (sorted lt l). rewrite insert_sorted_perm. by constructor.
Qed.

(** The head of the sorted list has nothing before it in the order, as
    soon as the order is asymmetric and negatively transitive. *)
Lemma sorted_head (x : A) (t l : list A) :
  (∀ a b, lt a b = true → lt b a = false) →
  (∀ a b c, lt a c = true → lt a b = true ∨ lt b c = true) →
  sorted lt l = x :: t →
  In x l ∧ ∀ y, In y l → lt y x = false.
Proof.
  intros Hasym Hneg. revert x t.
  induction l as [|a l IH]; intros x t; cbn; [done|].
  fold (sorted lt l). destruct (sorted lt l) as [|h t'] eqn:Hs.
  - cbn. intros [= <- <-].
    assert (l = []) as ->.
    { apply Permutation_nil. rewrite <- Hs. apply sorted_perm. }
    split; [by left|]. intros y [<-|[]].
    destruct (lt a a) eqn:Haa; [|done]. by rewrite (Hasym a a Haa) in Haa.
  - destruct (IH h t' eq_refl) as [Hh Hmin]. cbn.
    destruct (lt h a) eqn:Hha.
    + intros [= <- <-]. split; [by right|].
      intros y [<-|Hy]; [by apply Hasym|by apply Hmin].
    + intros [= <- <-]. split; [by left|].
      intros y [<-|Hy].
      * destruct (lt a a) eqn:Haa; [|done]. by rewrite (Hasym a a Haa) in Haa.
      * destruct (lt y a) eqn:Hya; [|done].
        destruct (Hneg y h a Hya) as [H|H]; [|congruence].
        rewrite (Hmin y Hy) in H. discriminate.
Qed.

End SortFacts.

Section KeySort.
Context {A : Type} (key : A → Z).

Lemma insert_sorted_by_key (x : A) (l : list A) :
  StronglySorted (key_le key) l →
  StronglySorted (key_le key) (insert_sorted (by_key key) x l).
Proof.
  induction l as [|y l IH]; cbn; intros Hl.
  - constructor; [constructor|constructor].
  - apply StronglySorted_inv in Hl as [Hl Hy].
    unfold by_key at 1. destruct (key y <? key x)%Z eqn:Hyx.
    + apply Z.ltb_lt in Hyx. constructor; [by apply IH|].
      rewrite List.Forall_forall in Hy |- *. intros z Hz.
      apply (Permutation_in _ (insert_sorted_perm (by_key key) x l)) in Hz.
      destruct Hz as [<-|Hz]; [unfold key_le; lia|by apply Hy].
    + apply Z.ltb_ge in Hyx. constructor; [by constructor|].
      constructor; [done|].
      rewrite List.Forall_forall in Hy |- *. intros z Hz.
      specialize (Hy z Hz). unfold key_le in *. lia.
Qed.

Lemma sorted_by_key (l : list A) :
  StronglySorted (key_le key) (sorted (by_key key) l).
Proof.
  induction l as [|x l IH]; cbn; [constructor|].
  by apply insert_sorted_by_key.
Qed.

(** With distinct keys the order is strict, and conversely. *)
Lemma sorted_strict_iff (l : list A) :
  StronglySorted (key_le key) l →
  (StronglySorted (key_lt key) l ↔ List.NoDup (List.map key l)).
Proof.
  induction 1 as [|x l Hl IH Hx]; cbn.
  - split; constructor.
  - rewrite List.NoDup_cons_iff, <- IH. split.
    + intros H. apply StronglySorted_inv in H as [Hs Hlt]. split; [|done].
      intros Hin. apply in_map_iff in Hin as (y & Hy & Hin).
      rewrite List.Forall_forall in Hlt. specialize (Hlt y Hin).
      unfold key_lt in Hlt. lia.
    + intros [Hnin Hs]. constructor; [done|].
      rewrite List.Forall_forall in Hx |- *. intros y Hy.
      specialize (Hx y Hy). unfold key_le in Hx. unfold key_lt.
      destruct (decide (key x = key y)) as [Heq|Hne]; [|lia].
      exfalso. apply Hnin. rewrite Heq. by apply in_map.
Qed.

End KeySort.

(* ====================================================================== *)
(** * No field of a table holds a line feed *)
(* ====================================================================== *)

Lemma splitlines_aux_no_break (n : nat) (s cur : pystr) :
  length s ≤ n →
  Forall (fun c => islinebreak c = false) cur →
  Forall (Forall (fun c => islinebreak c = false)) (splitlines_aux cur s).
Proof.
  revert s cur. induction n as [|n IH]; intros s cur Hlen Hcur.
  - destruct s; [|cbn in Hlen; lia]. cbn. destruct cur; [constructor|].
    constructor; [|constructor]. by apply Forall_rev.
  - destruct s as [|c s]; cbn [splitlines_aux].
    + destruct cur; [constructor|].
      constructor; [|constructor]. by apply Forall_rev.
    + cbn [length] in Hlen.
      assert (Hrest : ∀ s', length s' ≤ n →
                Forall (Forall (fun c => islinebreak c = false))
                  (rev cur :: splitlines_aux [] s')).
      { intros s' Hs'. constructor; [by apply Forall_rev|]. by apply IH. }
      destruct (c =? 13)%N.
      * destruct s as [|c2 s]; [apply Hrest; cbn; lia|].
        cbn [length] in Hlen.
        destruct (c2 =? 10)%N; apply Hrest; cbn [length]; lia.
      * destruct (islinebreak c) eqn:Hc; [apply Hrest; lia|].
        apply IH; [lia|]. by constructor.
Qed.

Lemma splitlines_no_line_feed (s : pystr) :
  Forall no_line_feed (splitlines s).
Proof.
  unfold splitlines.
  eapply Forall_impl; [apply (splitlines_aux_no_break (length s)); [lia|constructor]|].
  intros line Hline. eapply Forall_impl; [exact Hline|].
  intros c Hc ->. vm_compute in Hc. discriminate.
Qed.

(** The reader only ever stores characters it was fed. *)
Lemma parse_save_field_clean (rd : Csv.reader) :
  reader_clean rd → reader_clean (Csv.parse_save_field rd).
Proof.
  intros [Hfs Hf]. split; cbn; [|constructor].
  constructor; [by apply Forall_rev|done].
Qed.

Lemma set_state_clean (st : Csv.parser_state) (rd : Csv.reader) :
  reader_clean rd → reader_clean (Csv.set_state st rd).
Proof. by intros [Hfs Hf]. Qed.

Lemma parse_add_char_clean (c : N) (rd rd' : Csv.reader) :
  c ≠ 10%N → reader_clean rd → Csv.parse_add_char c rd = Some rd' →
  reader_clean rd'.
Proof.
  intros Hc [Hfs Hf]. unfold Csv.parse_add_char.
  destruct (_ <=? _)%N; [done|]. intros [= <-]. split; cbn; [done|].
  by constructor.
Qed.

Lemma add_char_state_clean (st : Csv.parser_state) (c : N) (rd rd' : Csv.reader) :
  c ≠ 10%N → reader_clean rd →
  Csv.set_state st <$> Csv.parse_add_char c rd = Some rd' → reader_clean rd'.
Proof.
  intros Hc Hrd H. destruct (Csv.parse_add_char c rd) as [rd1|] eqn:Hadd; [|done].
  injection H as <-. apply set_state_clean. by apply (parse_add_char_clean c rd).
Qed.

Lemma parse_process_char_clean (rd rd' : Csv.reader) (c : option N) :
  match c with Some ch => ch ≠ 10%N | None => True end →
  reader_clean rd → Csv.parse_process_char rd c = Some rd' → reader_clean rd'.
Proof.
  intros Hc Hrd. unfold Csv.parse_process_char.
  pose proof (parse_save_field_clean rd Hrd) as Hsave.
  destruct (Csv.state rd), c as [ch|];
    repeat match goal with
           | |- context [if ?b then _ else _] => destruct b
           end;
    intros H;
    try (injection H as <-);
    eauto using set_state_clean, parse_add_char_clean, add_char_state_clean;
    try done.
Qed.

Lemma feed_clean (line : pystr) (rd rd' : Csv.reader) :
  no_line_feed line → reader_clean rd → Csv.feed rd line = Some rd' →
  reader_clean rd'.
Proof.
  revert rd. induction line as [|c line IH]; intros rd Hline Hrd; cbn [Csv.feed].
  - by apply parse_process_char_clean.
  - apply Forall_cons in Hline as [Hc Hline].
    destruct (Csv.parse_process_char rd (Some c)) as [rd1|] eqn:Hstep; [|done].
    apply IH; [done|]. by apply (parse_process_char_clean rd rd1 (Some c)).
Qed.

Lemma rows_from_clean (lines : list pystr) (rd : Csv.reader)
    (rows : list (list pystr)) :
  Forall no_line_feed lines → reader_clean rd →
  Csv.rows_from rd lines = Some rows → Forall (Forall no_line_feed) rows.
Proof.
  revert rd rows. induction lines as [|line lines IH]; intros rd rows Hlines Hrd.
  - cbn [Csv.rows_from].
    assert (Hlast : Forall (Forall no_line_feed)
                      [rev (Csv.fields (Csv.parse_save_field rd))]).
    { constructor; [|constructor]. apply Forall_rev.
      by apply parse_save_field_clean. }
    destruct (Csv.field rd), (Csv.state rd); intros [= <-];
      first [exact Hlast | constructor].
  - apply Forall_cons in Hlines as [Hline Hlines]. cbn [Csv.rows_from].
    destruct (Csv.feed rd line) as [rd1|] eqn:Hfeed; [|done].
    pose proof (feed_clean line rd rd1 Hline Hrd Hfeed) as Hrd1.
    destruct (Csv.state rd1); try (by apply IH).
    destruct (Csv.rows_from Csv.parse_reset lines) as [rest|] eqn:Hrest; [|done].
    intros [= <-]. constructor; [apply Forall_rev, Hrd1|].
    apply (IH Csv.parse_reset); [done| |done].
    split; constructor.
Qed.

(** Every field of every row of a table read from a text. *)
Lemma table_fields_no_line_feed (csv_content : pystr) (rows : list (list pystr)) :
  Csv.reader_rows (splitlines csv_content) = Some rows →
  Forall (Forall no_line_feed) rows.
Proof.
  apply rows_from_clean; [apply splitlines_no_line_feed|split; constructor].
Qed.

(** A period of a table is 4 to 7 decimal digits, with nothing after. *)
Lemma table_period_digits (csv_content : pystr) (header : list pystr)
    (rows : list (list pystr)) (row : list pystr) :
  Csv.reader_rows (splitlines csv_content) = Some (header :: rows) →
  In row rows → row_accepted row = true →
  forallb isdecimal (cell row 0) = true ∧ 4 ≤ length (cell row 0) ≤ 7.
Proof.
  intros Hrows Hin Hacc.
  apply table_fields_no_line_feed in Hrows.
  apply Forall_cons in Hrows as [_ Hrows].
  rewrite List.Forall_forall in Hrows. specialize (Hrows row Hin).
  unfold row_accepted in Hacc.
  apply andb_true_iff in Hacc as [Hacc _].
  apply andb_true_iff in Hacc as [Hlen Hpat].
  apply Nat.leb_le in Hlen. apply bool_decide_eq_true in Hpat.
  assert (Hcell : no_line_feed (cell row 0)).
  { rewrite List.Forall_forall in Hrows. apply Hrows.
    unfold cell. apply nth_In. lia. }
  apply period_pattern_matches in Hpat as (ds & tail & Heq & Hds & Hlen' & Htail).
  destruct Htail as [->| ->].
  - rewrite app_nil_r in Heq. by rewrite Heq.
  - exfalso. rewrite Heq in Hcell. unfold no_line_feed in Hcell.
    apply Forall_app in Hcell as [_ Hcell].
    apply Forall_cons in Hcell as [Hcell _]. done.
Qed.

(* ====================================================================== *)
(** * Draw table: the claims *)
(* ====================================================================== *)

Lemma row_accepted_false (row : list pystr) :
  length row < 6
  ∨ Re.rematch period_pattern (cell row 0) = None
  ∨ (∃ i, 1 ≤ i ≤ 5
          ∧ ∀ v, Py.int (cell row i) = Some v → ¬ (0 <= v <= 9)%Z) →
  row_accepted row = false.
Proof.
  unfold row_accepted. intros [H|[H|(i & Hi & H)]].
  - apply Nat.leb_gt in H. by rewrite H.
  - rewrite H. rewrite bool_decide_eq_false_2; [by rewrite andb_false_r|].
    by intros [? ?].
  - apply andb_false_iff. right.
    apply not_true_is_false. intros Hall. rewrite forallb_forall in Hall.
    assert (Hin : In i [1; 2; 3; 4; 5]) by (cbn; lia).
    specialize (Hall i Hin). unfold field_is_digit in Hall.
    destruct (Py.int (cell row i)) as [v|]; [|done].
    apply (H v eq_refl). unfold in_digit_range in Hall.
    apply andb_true_iff in Hall as [H1 H2]. apply Z.leb_le in H1, H2. lia.
Qed.

(** The result of the loader, in terms of the rows after the header. *)
Lemma get_period_data_rows (csv_content : pystr)
    (period_map : gmap pystr draw_record) (periods_list : list pystr) :
  get_period_data_from_csv csv_content = Some (period_map, periods_list) →
  ∃ header rows,
    Csv.reader_rows (splitlines csv_content) = Some (header :: rows)
    ∧ period_map = (load_rows rows).1
    ∧ periods_list = sorted (by_key period_key) (load_rows rows).2.
Proof.
  unfold get_period_data_from_csv. destruct csv_content as [|c s]; [done|].
  destruct (Csv.reader_rows _) as [[|header rows]|]; [done| |done].
  destruct (load_rows rows) as [m l] eqn:Hl.
  destruct (bool_decide (m = ∅)); [done|].
  intros [= <- <-]. exists header, rows. by rewrite Hl.
Qed.

(** C6.  A row with fewer than six fields, or whose first field the
    period pattern does not match, or one of whose fields 1 to 5 does
    not read as an integer from 0 to 9, leaves the mapping and the period
    list as they are; the loader's result is that of the well-formed
    rows alone; every record of the resulting mapping comes from a
    well-formed row, is stored under a period of 4 to 7 decimal digits,
    and has exactly five numbers, each from 0 to 9.  The period pattern
    matches 4 to 7 decimal digits and tolerates one final line feed,
    which no field of a table holds. *)
Theorem malformed_rows_excluded :
  (∀ (st : loader_state) (row : list pystr),
     length row < 6
     ∨ Re.rematch period_pattern (cell row 0) = None
     ∨ (∃ i, 1 ≤ i ≤ 5
             ∧ ∀ v, Py.int (cell row i) = Some v → ¬ (0 <= v <= 9)%Z) →
     load_row st row = st)
  ∧ (∀ rows, load_rows rows = load_rows (List.filter row_accepted rows))
  ∧ (∀ csv_content period_map periods_list,
       get_period_data_from_csv csv_content = Some (period_map, periods_list) →
       ∀ p r, period_map !! p = Some r →
         length (numbers r) = 5
         ∧ Forall (fun num => 0 <= num <= 9)%Z (numbers r)
         ∧ forallb isdecimal p = true ∧ 4 ≤ length p ≤ 7
         ∧ ∃ header rows row,
             Csv.reader_rows (splitlines csv_content) = Some (header :: rows)
             ∧ In row rows ∧ row_accepted row = true
             ∧ cell row 0 = p ∧ numbers r = row_numbers row)
  ∧ (∀ s, is_Some (Re.rematch period_pattern s) ↔
          ∃ ds tail, s = ds ++ tail ∧ forallb isdecimal ds = true
                     ∧ 4 ≤ length ds ≤ 7 ∧ (tail = [] ∨ tail = [10%N])).
Proof.
  split; [|split; [|split]].
  - intros st row H. apply load_row_rejected. by apply row_accepted_false.
  - intros rows. unfold load_rows. apply fold_load_row_filter.
  - intros csv_content period_map periods_list Hget p r Hp.
    apply get_period_data_rows in Hget as (header & rows & Hrows & -> & _).
    unfold load_rows in Hp.
    apply fold_load_row_records in Hp as [Hp|(row & Hin & Hacc & Hcell & Hnum)].
    { cbn in Hp. by rewrite lookup_empty in Hp. }
    destruct (row_numbers_digits row Hacc) as [Hlen Hrange].
    destruct (table_period_digits csv_content header rows row Hrows Hin Hacc)
      as [Hdigits Hp].
    rewrite Hnum, <- Hcell.
    split; [done|]. split; [done|]. split; [done|]. split; [done|].
    by exists header, rows, row.
  - apply period_pattern_matches.
Qed.

(** A period that stands on two rows is listed twice in the result. *)
Lemma repeated_period_listed_twice :
  ∃ period_map,
    get_period_data_from_csv
      (lit "period,n1,n2,n3,n4,n5
1000,1,2,3,4,5
1000,1,2,3,4,5")
    = Some (period_map, [lit "1000"; lit "1000"])
    ∧ ¬ StronglySorted period_lt [lit "1000"; lit "1000"]
    ∧ ¬ List.NoDup [lit "1000"; lit "1000"].
Proof.
  eexists. split; [vm_compute; reflexivity|]. split.
  - intros H. apply StronglySorted_inv in H as [_ H].
    apply Forall_inv in H. vm_compute in H. discriminate.
  - intros H. apply List.NoDup_cons_iff in H as [H _]. apply H. by left.
Qed.

(** C3.  The claim is right and the loader misses it: the list is
    meant to hold each period once, as the mapping does, since the
    caller takes its last entry as the newest period and the one before
    it as the period before, and asks for two periods of data.  On a
    table whose only period stands on two rows the mapping holds one
    period and the list two entries, which is neither strictly
    ascending nor free of duplicates; the check for two periods passes,
    and the draw is scored against a report whose cutoff is the period
    evaluated. *)
Theorem repeated_period_counts_as_two :
  let csv_content := lit "period,n1,n2,n3,n4,n5
25002,7,7,7,7,7
25002,8,8,8,8,8" in
  let fs : filesystem :=
    {[ lit "pl5.csv" :=
         Content (list_byte_of_string "period,n1,n2,n3,n4,n5
25002,7,7,7,7,7
25002,8,8,8,8,8");
       lit "pl5_analysis_output_20250102_120000.txt" :=
         Content (list_byte_of_string "分析基于数据: 截至 25002 期
注 1: [8, 8, 8, 8, 8]") ]} in
  get_period_data_from_csv csv_content
  = Some ({[ lit "25002" := {| numbers := [8; 8; 8; 8; 8]%Z |} ]},
          [lit "25002"; lit "25002"])
  ∧ ¬ StronglySorted period_lt [lit "25002"; lit "25002"]
  ∧ ¬ List.NoDup [lit "25002"; lit "25002"]
  ∧ robust_file_read (fun _ _ => None) fs CSV_FILE = Some csv_content
  ∧ declared_cutoff
      (lit "分析基于数据: 截至 25002 期
注 1: [8, 8, 8, 8, 8]") = Some (lit "25002")
  ∧ evaluate (fun _ _ => None) fs
      [lit "pl5_analysis_output_20250102_120000.txt"]
    = inr (entry_of (lit "25002") [8; 8; 8; 8; 8]%Z [[8; 8; 8; 8; 8]%Z]).
Proof.
  cbv zeta. split; [vm_compute; reflexivity|]. split; [|split].
  - intros H. apply StronglySorted_inv in H as [_ H].
    apply Forall_inv in H. vm_compute in H. discriminate.
  - intros H. apply List.NoDup_cons_iff in H as [H _]. apply H. by left.
  - repeat split; vm_compute; reflexivity.
Qed.

(** What does hold of the order.  The period list is the periods of the
    well-formed rows in ascending order of numeric value, whatever the
    order of the rows; the order is strict, and the list free of
    duplicates, exactly when these rows carry pairwise distinct numeric
    values.  The numeric value of a listed period is what [int] reads. *)
Theorem periods_ascending (csv_content : pystr)
    (period_map : gmap pystr draw_record) (periods_list : list pystr) :
  get_period_data_from_csv csv_content = Some (period_map, periods_list) →
  StronglySorted period_le periods_list
  ∧ (∀ p, In p periods_list → Py.int p = Some (period_key p))
  ∧ ∃ header rows,
      Csv.reader_rows (splitlines csv_content) = Some (header :: rows)
      ∧ let accepted :=
          List.map (fun row => cell row 0) (List.filter row_accepted rows) in
        Permutation periods_list accepted
        ∧ (StronglySorted period_lt periods_list
           ↔ List.NoDup (List.map period_key accepted))
        ∧ (List.NoDup (List.map period_key accepted) → List.NoDup periods_list).
Proof.
  intros Hget.
  apply get_period_data_rows in Hget as (header & rows & Hrows & _ & ->).
  unfold load_rows. rewrite fold_load_row_periods. cbn [snd app].
  set (accepted := List.map _ (List.filter row_accepted rows)).
  pose proof (sorted_perm (by_key period_key) accepted) as Hperm.
  pose proof (sorted_by_key period_key accepted) as Hsorted.
  split; [exact Hsorted|]. split.
  - intros p Hp. apply (Permutation_in _ Hperm) in Hp.
    apply in_map_iff in Hp as (row & <- & Hrow).
    apply filter_In in Hrow as [_ Hacc]. unfold row_accepted in Hacc.
    apply andb_true_iff in Hacc as [Hacc _].
    apply andb_true_iff in Hacc as [_ Hacc].
    apply bool_decide_eq_true in Hacc. by apply int_of_period.
  - exists header, rows. split; [exact Hrows|]. cbv zeta.
    split; [exact Hperm|].
    assert (Hkeys : Permutation (List.map period_key (sorted (by_key period_key) accepted))
                      (List.map period_key accepted))
      by (by apply Permutation_map).
    split.
    + rewrite (sorted_strict_iff period_key _ Hsorted). split.
      * intros H. by apply (Permutation_NoDup Hkeys).
      * intros H. apply (Permutation_NoDup (Permutation_sym Hkeys)). exact H.
    + intros H. apply (Permutation_NoDup (Permutation_sym Hkeys)) in H.
      by apply NoDup_map_inv in H.
Qed.

Lemma periods_ascending_witness :
  StronglySorted period_le [lit "1000"; lit "1001"; lit "10000"].
Proof.
  refine (proj1 (periods_ascending
      (lit "period,n1,n2,n3,n4,n5
10000,0,0,0,0,0
1001,1,2,3,4,5
1000,9,9,9,9,9
999,1,1,1,1,1")
      (<[lit "1000" := {| numbers := [9; 9; 9; 9; 9]%Z |}]>
        (<[lit "1001" := {| numbers := [1; 2; 3; 4; 5]%Z |}]>
          (<[lit "10000" := {| numbers := [0; 0; 0; 0; 0]%Z |}]> ∅)))
      [lit "1000"; lit "1001"; lit "10000"] _)).
  vm_compute. reflexivity.
Defined.

(* ====================================================================== *)
(** * Report lookup: proofs *)
(* ====================================================================== *)

(** ** The order on candidates is a strict total order *)

Lemma str_ltb_irrefl (a : pystr) : Py.ltb a a = false.
Proof.
  induction a as [|x a IH]; cbn; [done|].
  by rewrite N.ltb_irrefl, N.eqb_refl, IH.
Qed.

Lemma str_ltb_trans (a b c : pystr) :
  Py.ltb a b = true → Py.ltb b c = true → Py.ltb a c = true.
Proof.
  revert b c. induction a as [|x a IH]; intros [|y b] [|z c]; cbn; try done.
  rewrite !orb_true_iff, !andb_true_iff, !N.ltb_lt, !N.eqb_eq.
  intros [H1|[-> H1]] [H2|[-> H2]]; [left; lia|by left|by left|].
  right. split; [done|]. by apply (IH b).
Qed.

Lemma str_ltb_trichotomy (a b : pystr) :
  Py.ltb a b = true ∨ a = b ∨ Py.ltb b a = true.
Proof.
  revert b. induction a as [|x a IH]; intros [|y b]; cbn; auto.
  destruct (N.lt_trichotomy x y) as [H|[->|H]].
  - left. apply orb_true_iff. left. by apply N.ltb_lt.
  - rewrite N.ltb_irrefl, N.eqb_refl. cbn.
    destruct (IH b) as [H|[->|H]]; auto.
  - right. right. apply orb_true_iff. left. by apply N.ltb_lt.
Qed.

Ltac datetime_order :=
  unfold DateTime.ltb, DateTime.eqb, DateTime.fields_of; cbn;
  rewrite ?orb_true_iff, ?andb_true_iff, ?orb_false_iff, ?andb_false_iff,
    ?Z.ltb_lt, ?Z.eqb_eq, ?Z.ltb_ge, ?Z.eqb_neq.

Lemma datetime_eqb_eq (t1 t2 : DateTime.datetime) :
  DateTime.eqb t1 t2 = true ↔ t1 = t2.
Proof.
  destruct t1, t2. datetime_order. split.
  - intros (-> & -> & -> & -> & -> & -> & _). reflexivity.
  - intros [= -> -> -> -> -> ->]. tauto.
Qed.

Lemma datetime_ltb_irrefl (t : DateTime.datetime) : DateTime.ltb t t = false.
Proof.
  destruct t. unfold DateTime.ltb, DateTime.fields_of. cbn.
  by rewrite !Z.ltb_irrefl, !Z.eqb_refl.
Qed.

Lemma datetime_ltb_trans (t1 t2 t3 : DateTime.datetime) :
  DateTime.ltb t1 t2 = true → DateTime.ltb t2 t3 = true →
  DateTime.ltb t1 t3 = true.
Proof. destruct t1, t2, t3. datetime_order. lia. Qed.

Lemma datetime_ltb_trichotomy (t1 t2 : DateTime.datetime) :
  DateTime.ltb t1 t2 = true ∨ t1 = t2 ∨ DateTime.ltb t2 t1 = true.
Proof.
  destruct (DateTime.ltb t1 t2) eqn:H12; [by left|right].
  destruct (DateTime.ltb t2 t1) eqn:H21; [by right|left].
  apply datetime_eqb_eq. revert H12 H21.
  destruct t1, t2. datetime_order. lia.
Qed.

Lemma candidate_ltb_irrefl (a : candidate) : candidate_ltb a a = false.
Proof.
  unfold candidate_ltb.
  rewrite (proj2 (datetime_eqb_eq a.1 a.1) eq_refl). cbn [negb].
  apply str_ltb_irrefl.
Qed.

Lemma candidate_ltb_cases (a b : candidate) :
  candidate_ltb a b = true ↔
  DateTime.ltb a.1 b.1 = true ∨ (a.1 = b.1 ∧ Py.ltb a.2 b.2 = true).
Proof.
  unfold candidate_ltb. destruct (DateTime.eqb a.1 b.1) eqn:He; cbn [negb].
  - apply datetime_eqb_eq in He. rewrite He, datetime_ltb_irrefl.
    split; [by right|]. by intros [?|[_ ?]].
  - split; [by left|]. intros [H|[Heq _]]; [done|].
    apply datetime_eqb_eq in Heq. congruence.
Qed.

Lemma candidate_ltb_trans (a b c : candidate) :
  candidate_ltb a b = true → candidate_ltb b c = true →
  candidate_ltb a c = true.
Proof.
  rewrite !candidate_ltb_cases. intros [H1|[E1 H1]] [H2|[E2 H2]].
  - left. by apply (datetime_ltb_trans _ b.1).
  - left. by rewrite <- E2.
  - left. by rewrite E1.
  - right. split; [congruence|]. by apply (str_ltb_trans _ b.2).
Qed.

Lemma candidate_ltb_trichotomy (a b : candidate) :
  candidate_ltb a b = true ∨ a = b ∨ candidate_ltb b a = true.
Proof.
  rewrite !candidate_ltb_cases. destruct a as [t1 p1], b as [t2 p2]. cbn.
  destruct (datetime_ltb_trichotomy t1 t2) as [H|[->|H]]; [by left; left| |by right; right; left].
  destruct (str_ltb_trichotomy p1 p2) as [H|[->|H]].
  - left. by right.
  - right. by left.
  - right. right. by right.
Qed.

Lemma candidate_ltb_asym (a b : candidate) :
  candidate_ltb a b = true → candidate_ltb b a = false.
Proof.
  intros H. destruct (candidate_ltb b a) eqn:H'; [|done].
  pose proof (candidate_ltb_trans a b a H H') as Haa.
  by rewrite candidate_ltb_irrefl in Haa.
Qed.

Lemma candidate_ltb_negtrans (a b c : candidate) :
  candidate_ltb a c = true → candidate_ltb a b = true ∨ candidate_ltb b c = true.
Proof.
  intros Hac. destruct (candidate_ltb_trichotomy a b) as [H|[<-|H]];
    [by left|by right|].
  right. by apply (candidate_ltb_trans b a c).
Qed.

(** The latest candidate: the head of the list sorted in reverse. *)
Lemma latest_candidate (x : candidate) (t l : list candidate) :
  sorted_reverse candidate_ltb l = x :: t →
  In x l ∧ ∀ y, In y l → candidate_ltb x y = false.
Proof.
  unfold sorted_reverse. intros H.
  apply (sorted_head (fun a b => candidate_ltb b a)) in H; [done| |].
  - intros a b. apply candidate_ltb_asym.
  - intros a b c Hca. destruct (candidate_ltb_negtrans c b a Hca); auto.
Qed.

Lemma latest_candidate_unique (l l' : list candidate) :
  Permutation l l' →
  head (sorted_reverse candidate_ltb l) = head (sorted_reverse candidate_ltb l').
Proof.
  intros Hperm.
  destruct (sorted_reverse candidate_ltb l) as [|x t] eqn:Hs;
  destruct (sorted_reverse candidate_ltb l') as [|x' t'] eqn:Hs'; cbn.
  - done.
  - exfalso. assert (l = []) as ->.
    { apply Permutation_nil. rewrite <- Hs. apply sorted_perm. }
    apply Permutation_nil in Hperm. subst l'. discriminate.
  - exfalso. assert (l' = []) as ->.
    { apply Permutation_nil. rewrite <- Hs'. apply sorted_perm. }
    apply Permutation_sym, Permutation_nil in Hperm. subst l. discriminate.
  - apply latest_candidate in Hs as [Hx Hmax].
    apply latest_candidate in Hs' as [Hx' Hmax'].
    f_equal. destruct (candidate_ltb_trichotomy x x') as [H|[H|H]]; [|done|].
    + rewrite Hmax in H; [done|]. by apply (Permutation_in _ (Permutation_sym Hperm)).
    + rewrite Hmax' in H; [done|]. by apply (Permutation_in _ Hperm).
Qed.

Section LocatorFacts.
Variable gbk_table : N -> N -> option N.
Variable fs : filesystem.
Variable target_period : pystr.


Lemma selectable_iff (p : pystr) (ts : DateTime.datetime) :
  selectable gbk_table fs target_period p = Some ts ↔
  ∃ content, robust_file_read gbk_table fs p = Some content
             ∧ content ≠ []
             ∧ declared_cutoff content = Some target_period
             ∧ filename_timestamp p = Some ts.
Proof.
  unfold selectable.
  destruct (robust_file_read gbk_table fs p) as [[|c content]|];
    cbn [mbind option_bind].
  - split; [done|]. by intros (? & [= <-] & ? & _).
  - destruct (declared_cutoff (c :: content)) as [cutoff|] eqn:Hd;
      cbn [mbind option_bind].
    + destruct (bool_decide (cutoff = target_period)) eqn:Hc.
      * apply bool_decide_eq_true in Hc. subst cutoff. split.
        -- intros H. exists (c :: content). by rewrite Hd.
        -- by intros (? & _ & _ & _ & ?).
      * apply bool_decide_eq_false in Hc. split; [done|].
        intros (? & [= <-] & _ & Hd' & _). congruence.
    + split; [done|]. intros (? & [= <-] & _ & Hd' & _). congruence.
  - split; [done|]. by intros (? & ? & _).
Qed.

Lemma consider_selectable (candidates : list candidate) (file_path : pystr) :
  consider gbk_table fs target_period candidates file_path
  = candidates
    ++ option_list (candidate_of gbk_table fs target_period file_path).
Proof.
  unfold candidate_of, consider, selectable, declared_cutoff, filename_timestamp.
  destruct (robust_file_read gbk_table fs file_path) as [[|c content]|];
    cbn [mbind option_bind fmap option_fmap option_map option_list];
    [by rewrite app_nil_r| |by rewrite app_nil_r].
  generalize (Re.search cutoff_pattern (c :: content)). intros [m|];
    cbn [mbind option_bind fmap option_fmap option_map option_list];
    [|by rewrite app_nil_r].
  destruct (bool_decide (Re.group 1 m = target_period));
    [|by rewrite app_nil_r].
  generalize (Re.search timestamp_pattern file_path). intros [tm|];
    cbn [mbind option_bind fmap option_fmap option_map option_list];
    [|by rewrite app_nil_r].
  destruct (DateTime.strptime (Re.group 1 tm));
    cbn [mbind option_bind fmap option_fmap option_map option_list];
    [done|by rewrite app_nil_r].
Qed.

Lemma fold_consider (found : list pystr) (candidates : list candidate) :
  fold_left (consider gbk_table fs target_period) found candidates
  = candidates ++ omap (candidate_of gbk_table fs target_period) found.
Proof.
  revert candidates. induction found as [|p found IH]; intros candidates; cbn.
  - by rewrite app_nil_r.
  - rewrite IH, consider_selectable, <- app_assoc. f_equal.
    unfold candidate_of. by destruct (selectable gbk_table fs target_period p).
Qed.

Lemma in_candidates (found : list pystr) (ts : DateTime.datetime) (p : pystr) :
  In (ts, p) (omap (candidate_of gbk_table fs target_period) found) ↔
  In p found ∧ selectable gbk_table fs target_period p = Some ts.
Proof.
  rewrite <- !list_elem_of_In, list_elem_of_omap. split.
  - intros (q & Hq & Hsel). unfold candidate_of in Hsel.
    destruct (selectable gbk_table fs target_period q) as [t|] eqn:Hs;
      [|discriminate].
    cbn [fmap option_fmap option_map] in Hsel. injection Hsel as -> ->.
    by split.
  - intros [Hp Hs]. exists p. split; [done|].
    unfold candidate_of. by rewrite Hs.
Qed.

Lemma find_matching_report_head (found : list pystr) :
  find_matching_report gbk_table fs found target_period
  = snd <$> head (sorted_reverse candidate_ltb
                    (omap (candidate_of gbk_table fs target_period) found)).
Proof.
  unfold find_matching_report. rewrite fold_consider. cbn [app].
  destruct (omap (candidate_of gbk_table fs target_period) found)
    as [|c l] eqn:Hc; [done|].
  by destruct (sorted_reverse candidate_ltb (c :: l)).
Qed.

(** C5.  The file returned is one of the files found that is selectable
    for the target period, and no selectable file has a later time
    stamp; nothing is returned exactly when no file found is selectable;
    and the result does not depend on the order in which the directory
    lists the files.  A file is selectable exactly when it reads as a
    non-empty text whose declared cutoff is the target and its name
    embeds a time stamp that parses, so a file lacking either is never
    returned. *)
Theorem find_matching_report_latest (found : list pystr) :
  (∀ file_path,
     find_matching_report gbk_table fs found target_period = Some file_path →
     In file_path found
     ∧ ∃ ts, selectable gbk_table fs target_period file_path = Some ts
             ∧ ∀ p ts', In p found →
                 selectable gbk_table fs target_period p = Some ts' →
                 DateTime.ltb ts ts' = false)
  ∧ (find_matching_report gbk_table fs found target_period = None ↔
       ∀ p, In p found → selectable gbk_table fs target_period p = None)
  ∧ (∀ found', Permutation found found' →
       find_matching_report gbk_table fs found' target_period
       = find_matching_report gbk_table fs found target_period)
  ∧ (∀ p ts, selectable gbk_table fs target_period p = Some ts ↔
       ∃ content, robust_file_read gbk_table fs p = Some content
                  ∧ content ≠ []
                  ∧ declared_cutoff content = Some target_period
                  ∧ filename_timestamp p = Some ts).
Proof.
  split; [|split; [|split]].
  - intros file_path. rewrite find_matching_report_head.
    destruct (sorted_reverse _ _) as [|[ts p] t] eqn:Hs; [done|].
    cbn. intros [= ->]. apply latest_candidate in Hs as [Hin Hmax].
    apply in_candidates in Hin as [Hin Hsel]. split; [done|].
    exists ts. split; [done|]. intros p ts' Hp Hsel'.
    assert (Hc : In (ts', p) (omap (candidate_of gbk_table fs target_period) found))
      by (by apply in_candidates).
    specialize (Hmax _ Hc).
    destruct (DateTime.ltb ts ts') eqn:Hlt; [|done].
    assert (candidate_ltb (ts, file_path) (ts', p) = true) as Habs
      by (apply candidate_ltb_cases; by left).
    congruence.
  - rewrite find_matching_report_head. split.
    + intros H p Hp.
      destruct (selectable gbk_table fs target_period p) as [ts|] eqn:Hsel; [|done].
      assert (Hc : In (ts, p) (omap (candidate_of gbk_table fs target_period) found))
        by (by apply in_candidates).
      destruct (sorted_reverse _ _) as [|x t] eqn:Hs; [|done].
      unfold sorted_reverse in Hs.
      apply (Permutation_in _ (Permutation_sym
               (sorted_perm (fun a b => candidate_ltb b a) _))) in Hc.
      rewrite Hs in Hc. destruct Hc.
    + intros H.
      assert (omap (candidate_of gbk_table fs target_period) found = []) as ->;
        [|done].
      destruct (omap (candidate_of gbk_table fs target_period) found)
        as [|[ts p] l] eqn:Hc; [done|].
      assert (Hin : In (ts, p) (omap (candidate_of gbk_table fs target_period) found))
        by (rewrite Hc; by left).
      apply in_candidates in Hin as [Hp Hsel]. rewrite (H p Hp) in Hsel. done.
  - intros found' Hperm. rewrite !find_matching_report_head. f_equal.
    apply latest_candidate_unique. apply Permutation_sym.
    by apply omap_Permutation.
  - apply selectable_iff.
Qed.

End LocatorFacts.

(* ====================================================================== *)
(** * Ledger: proofs *)
(* ====================================================================== *)

Lemma dropwhile_nil (f : N → bool) (s : pystr) :
  dropwhile f s = [] → forallb f s = true.
Proof.
  induction s as [|c s IH]; cbn; [done|].
  destruct (f c); [exact IH|discriminate].
Qed.

(** A section that [strip] empties consists of white space only. *)
Lemma strip_nil (s : pystr) : strip s = [] → forallb isspace s = true.
Proof.
  unfold strip. intros H.
  apply (f_equal (@rev N)) in H. rewrite rev_involutive in H. cbn in H.
  apply dropwhile_nil in H. rewrite forallb_forall in H.
  destruct (dropwhile isspace s) as [|c r] eqn:Hd.
  - by apply dropwhile_nil.
  - assert (Hc : isspace c = true) by (apply H, in_rev; rewrite rev_involutive; by left).
    clear H. exfalso. induction s as [|x s IH]; cbn in Hd; [done|].
    destruct (isspace x) eqn:Hx; [by apply IH|].
    injection Hd as -> _. congruence.
Qed.

Lemma startswith_head (m : N) (ms s : pystr) :
  startswith (m :: ms) s = true → ∃ s', s = m :: s'.
Proof.
  destruct s as [|c s]; cbn; [done|].
  intros H. apply andb_true_iff in H as [H _]. apply N.eqb_eq in H.
  subst. by exists s.
Qed.

Lemma contains_head (m : N) (ms s : pystr) :
  contains (m :: ms) s = true → In m s.
Proof.
  induction s as [|c s IH]; intros H.
  - cbn in H. discriminate.
  - cbn [contains] in H. apply orb_true_iff in H as [H|H].
    + apply startswith_head in H as (s' & [= -> ->]). by left.
    + right. by apply IH.
Qed.

(** White space holds none of the three markers. *)
Lemma blank_section_unmarked (s : pystr) :
  strip s = [] → is_error_section s = false ∧ contains EVAL_TIME_MARKER s = false.
Proof.
  intros H. apply strip_nil in H. rewrite forallb_forall in H.
  assert (Hno : ∀ m ms, isspace m = false → contains (m :: ms) s = false).
  { intros m ms Hm. destruct (contains (m :: ms) s) eqn:Hc; [|done].
    apply contains_head, H in Hc. congruence. }
  unfold is_error_section, ERROR_MARKER, CUOWU_MARKER, EVAL_TIME_MARKER.
  rewrite !Hno by reflexivity. done.
Qed.

Lemma classify_spec (st : list pystr * list pystr) (section : pystr) :
  classify st section
  = (st.1 ++ (if is_normal_section section then [section] else []),
     st.2 ++ (if is_error_section section then [section] else [])).
Proof.
  destruct st as [n e]. unfold classify, is_normal_section. cbn [fst snd].
  destruct (strip section) as [|c r] eqn:Hs.
  - destruct (blank_section_unmarked section Hs) as [-> ->]. cbn.
    by rewrite !app_nil_r.
  - fold (is_error_section section).
    destruct (is_error_section section); cbn; [by rewrite app_nil_r|].
    destruct (contains EVAL_TIME_MARKER section); by rewrite !app_nil_r.
Qed.

Lemma fold_classify (sections : list pystr) (st : list pystr * list pystr) :
  fold_left classify sections st
  = (st.1 ++ List.filter is_normal_section sections,
     st.2 ++ List.filter is_error_section sections).
Proof.
  revert st. induction sections as [|s sections IH]; intros st; cbn.
  - destruct st. by rewrite !app_nil_r.
  - rewrite IH, classify_spec. cbn [fst snd]. rewrite <- !app_assoc.
    by destruct (is_normal_section s), (is_error_section s).
Qed.

(** What a call does, in one equation. *)
Lemma manage_report_spec (existing_content now_entry now_error : pystr)
    (new_entry : option entry_data) (new_error : option pystr) :
  let sections := split DELIMITER existing_content in
  let normals :=
    take MAX_NORMAL_RECORDS
      (new_normal_records now_entry new_entry
       ++ List.filter is_normal_section sections) in
  let errors :=
    take MAX_ERROR_LOGS
      (new_error_logs now_error new_error
       ++ List.filter is_error_section sections) in
  manage_report existing_content now_entry now_error new_entry new_error
  = {| normal_records := normals;
       error_logs := errors;
       written := join DELIMITER (layout normals errors) |}.
Proof.
  cbv zeta. unfold manage_report. rewrite fold_classify. cbn [fst snd app].
  set (old_n := List.filter is_normal_section _).
  set (old_e := List.filter is_error_section _).
  assert (Hn : match new_entry with
               | Some e => if entry_nonempty e
                           then render_entry now_entry e :: old_n else old_n
               | None => old_n
               end = new_normal_records now_entry new_entry ++ old_n).
  { unfold new_normal_records. destruct new_entry as [e|]; [|done].
    by destruct (entry_nonempty e). }
  assert (He : match new_error with
               | Some (c :: msg) => render_error now_error (c :: msg) :: old_e
               | _ => old_e
               end = new_error_logs now_error new_error ++ old_e).
  { unfold new_error_logs. by destruct new_error as [[|c msg]|]. }
  rewrite Hn, He.
  set (normals := take MAX_NORMAL_RECORDS _).
  set (errors := take MAX_ERROR_LOGS _).
  f_equal. f_equal. unfold layout.
  destruct normals as [|n ns], errors as [|e es]; cbn [app];
    rewrite ?app_nil_r, <- ?app_assoc; reflexivity.
Qed.

(** C8, as the claim states it, fails when both kinds of record are
    present: the file has an empty part between the last normal record
    and the header. *)
Lemma blank_part_before_header :
  let result :=
    manage_report (lit "评估时间: t" ++ DELIMITER ++ lit "ERROR e") [] [] None None in
  normal_records result = [lit "评估时间: t"]
  ∧ error_logs result = [lit "ERROR e"]
  ∧ written result
    = join DELIMITER [lit "评估时间: t"; []; ERROR_LOG_HEADER; lit "ERROR e"]
  ∧ written result
    ≠ join DELIMITER
        (layout_as_claimed (normal_records result) (error_logs result)).
Proof.
  cbv zeta. repeat split; try (vm_compute; reflexivity).
  vm_compute. discriminate.
Qed.

(** C8, amended.  Every section of the existing text that holds an error
    marker is an error log; every other section that holds the
    evaluation time stamp marker is a normal record; the remaining
    sections, the empty and blank ones among them, are dropped.  The
    file is rewritten as the retained normal records, followed, only if
    error logs remain, by an empty part (only when a normal record is
    retained), the header line and the retained error logs, all joined by
    the delimiter. *)
Theorem manage_report_layout (existing_content now_entry now_error : pystr)
    (new_entry : option entry_data) (new_error : option pystr) :
  let sections := split DELIMITER existing_content in
  let result :=
    manage_report existing_content now_entry now_error new_entry new_error in
  fold_left classify sections ([], [])
  = (List.filter is_normal_section sections,
     List.filter is_error_section sections)
  ∧ (∀ section, strip section = [] →
       is_normal_section section = false ∧ is_error_section section = false)
  ∧ normal_records result
    = take MAX_NORMAL_RECORDS
        (new_normal_records now_entry new_entry
         ++ List.filter is_normal_section sections)
  ∧ error_logs result
    = take MAX_ERROR_LOGS
        (new_error_logs now_error new_error
         ++ List.filter is_error_section sections)
  ∧ written result
    = join DELIMITER (layout (normal_records result) (error_logs result)).
Proof.
  cbv zeta. rewrite manage_report_spec. cbn [normal_records error_logs written].
  split; [by rewrite fold_classify|]. split; [|done].
  intros section Hs. unfold is_normal_section.
  destruct (blank_section_unmarked section Hs) as [-> ->]. done.
Qed.


(* ====================================================================== *)
(** * Recommendations: proofs *)
(* ====================================================================== *)

(** ** The matcher looks no further than it has to *)

Section Locality.
Context {R R' : Type} (f : R → R') (z : N) (w : pystr).

Lemma rep_local (cls : N → bool) (lo : nat) (hi : option nat) (n : nat)
    (s : pystr) (k : pystr → option R) (k' : pystr → option R') :
  cls z = false →
  (∀ x, k' (x ++ z :: w) = f <$> k x) →
  Re.rep cls lo hi n (s ++ z :: w) k' = f <$> Re.rep cls lo hi n s k.
Proof.
  intros Hz Hk. revert n. induction s as [|c s IH]; intros n; cbn [app Re.rep].
  - rewrite Hz. cbn [andb]. destruct (lo <=? n); [apply (Hk [])|done].
  - destruct (cls c && Re.below n hi).
    + rewrite IH. destruct (Re.rep cls lo hi (S n) s k); [done|].
      cbn [fmap option_fmap option_map].
      destruct (lo <=? n); [apply (Hk (c :: s))|done].
    + destruct (lo <=? n); [apply (Hk (c :: s))|done].
Qed.

Lemma run_local (t t' : nat) (r : Re.regex) :
  avoids z r = true →
  ∀ (s : pystr) (g : Re.captures)
    (k : pystr → Re.captures → option R) (k' : pystr → Re.captures → option R'),
    (∀ x g', k' (x ++ z :: w) g' = f <$> k x g') →
    Re.run t r (s ++ z :: w) g k' = f <$> Re.run t' r s g k.
Proof.
  induction r as [|c|cls|r1 IH1 r2 IH2|r1 IH1 r2 IH2|cls lo hi|i r1 IH1| |];
    cbn [avoids Re.run]; intros Hav s g k k' Hk.
  - apply Hk.
  - apply negb_true_iff in Hav. destruct s as [|c' s]; cbn [app].
    + by rewrite Hav.
    + destruct (c' =? c)%N; [apply Hk|done].
  - apply negb_true_iff in Hav. destruct s as [|c' s]; cbn [app].
    + by rewrite Hav.
    + destruct (cls c'); [apply Hk|done].
  - apply andb_true_iff in Hav as [H1 H2]. apply IH1; [done|].
    intros x g'. by apply IH2.
  - apply andb_true_iff in Hav as [H1 H2].
    rewrite (IH1 H1 s g k k' Hk), (IH2 H2 s g k k' Hk).
    by destruct (Re.run t' r1 s g k).
  - apply negb_true_iff in Hav. apply rep_local; [done|].
    intros x. apply Hk.
  - apply IH1; [done|]. intros x g'.
    rewrite !length_app, Hk.
    replace (length s + length (z :: w) - (length x + length (z :: w)))
      with (length s - length x) by lia.
    by rewrite take_app_le by lia.
  - done.
  - done.
Qed.

End Locality.

(** Without anchors the length of the whole subject plays no role. *)
Lemma run_total {R : Type} (z : N) (t t' : nat) (r : Re.regex) :
  avoids z r = true →
  ∀ (s : pystr) (g : Re.captures) (k k' : pystr → Re.captures → option R),
    (∀ x g', k' x g' = k x g') →
    Re.run t r s g k' = Re.run t' r s g k.
Proof.
  induction r as [|c|cls|r1 IH1 r2 IH2|r1 IH1 r2 IH2|cls lo hi|i r1 IH1| |];
    cbn [avoids Re.run]; intros Hav s g k k' Hk.
  - apply Hk.
  - destruct s as [|c' s]; [done|]. destruct (c' =? c)%N; [apply Hk|done].
  - destruct s as [|c' s]; [done|]. destruct (cls c'); [apply Hk|done].
  - apply andb_true_iff in Hav as [H1 H2]. apply IH1; [done|].
    intros x g'. by apply IH2.
  - apply andb_true_iff in Hav as [H1 H2].
    by rewrite (IH1 H1 s g k k' Hk), (IH2 H2 s g k k' Hk).
  - generalize 0. revert Hk. clear. intros Hk.
    induction s as [|c s IH]; intros n; cbn [Re.rep]; rewrite ?IH, ?Hk; done.
  - apply IH1; [done|]. intros x g'. apply Hk.
  - done.
  - done.
Qed.

(** A repetition followed by something that succeeds right after the
    longest run takes the longest run. *)
Lemma rep_longest {R : Type} (cls : N → bool) (lo n : nat) (a b : pystr)
    (k : pystr → option R) :
  forallb cls a = true →
  match b with [] => True | c :: _ => cls c = false end →
  lo ≤ n + length a → is_Some (k b) →
  Re.rep cls lo None n (a ++ b) k = k b.
Proof.
  intros Ha Hb Hlo Hk. revert n Hlo.
  induction a as [|c a IH]; intros n Hlo; cbn [app].
  - cbn [length] in Hlo. assert ((lo <=? n) = true) as Hle by (apply Nat.leb_le; lia).
    destruct b as [|c b]; cbn [Re.rep]; [by rewrite Hle|].
    by rewrite Hb, Hle.
  - cbn in Ha. apply andb_true_iff in Ha as [Hc Ha].
    cbn [Re.rep Re.below]. rewrite Hc. cbn [andb].
    rewrite (IH Ha (S n)) by (cbn [length] in Hlo; lia).
    by destruct Hk as [x ->].
Qed.

(** ** A single-bet line is matched as a whole *)

Section BetLine.
Variables (t : nat) (sp1 idx sp2 content post : pystr).
Hypothesis Hsp1 : forallb isspace sp1 = true.
Hypothesis Hidx : forallb isdecimal idx = true.
Hypothesis Hidx_ne : idx ≠ [].
Hypothesis Hsp2 : forallb isspace sp2 = true.
Hypothesis Hcontent : forallb digit_space_comma content = true.
Hypothesis Hcontent_ne : content ≠ [].

Lemma match_bracket_content :
  Re.run t (Re.Cat [Re.Group 1 (Re.Plus digit_space_comma); Re.Chr 93])
    (content ++ 93%N :: post) [] Re.accept = Some (line_match content post).
Proof.
  unfold Re.Plus. cbn [Re.Cat foldr Re.run].
  rewrite rep_longest; [| done | reflexivity | | ].
  - cbn [Re.run]. rewrite N.eqb_refl. unfold Re.accept, line_match. do 3 f_equal.
    rewrite length_app. cbn [length].
    replace (length content + S (length post) - S (length post))
      with (length content) by lia.
    by rewrite take_app_length.
  - destruct content; [done|cbn; lia].
  - cbn [Re.run]. by rewrite N.eqb_refl.
Qed.

Lemma match_bracketed :
  Re.run t (Re.Cat bracketed) (sp2 ++ 91%N :: content ++ 93%N :: post) []
    Re.accept = Some (line_match content post).
Proof.
  unfold bracketed, Re.Star. cbn [Re.Cat foldr Re.run].
  assert (Hrest : Re.run t (Re.Cat [Re.Chr 91; Re.Group 1 (Re.Plus digit_space_comma);
                                    Re.Chr 93])
                    (91%N :: content ++ 93%N :: post) [] Re.accept = Some (line_match content post)).
  { cbn [Re.Cat foldr Re.run]. rewrite N.eqb_refl. apply match_bracket_content. }
  rewrite rep_longest; [exact Hrest | done | reflexivity | lia | ].
  eexists. exact Hrest.
Qed.

Lemma match_rec_body :
  Re.run t rec_body
    (sp1 ++ idx ++ 58%N :: sp2 ++ 91%N :: content ++ 93%N :: post) []
    Re.accept = Some (line_match content post).
Proof.
  unfold rec_body, Re.Star at 1. cbn [app Re.Cat foldr Re.run].
  assert (Hcolon : Re.run t (Re.Cat (Re.Chr 58 :: bracketed))
                     (58%N :: sp2 ++ 91%N :: content ++ 93%N :: post) []
                     Re.accept = Some (line_match content post)).
  { cbn [Re.Cat foldr Re.run]. rewrite N.eqb_refl. apply match_bracketed. }
  assert (Hindex : Re.run t (Re.Cat (Re.Plus isdecimal :: Re.Chr 58 :: bracketed))
                     (idx ++ 58%N :: sp2 ++ 91%N :: content ++ 93%N :: post) []
                     Re.accept = Some (line_match content post)).
  { unfold Re.Plus at 1. cbn [Re.Cat foldr Re.run].
    rewrite rep_longest; [exact Hcolon | done | reflexivity | | ].
    - destruct idx; [done|cbn; lia].
    - eexists. exact Hcolon. }
  rewrite rep_longest; [exact Hindex | done | | lia | ].
  - destruct idx as [|c idx']; [done|]. cbn [app].
    cbn in Hidx. apply andb_true_iff in Hidx as [Hc _].
    by apply isdecimal_not_isspace.
  - eexists. exact Hindex.
Qed.

Lemma rec_pattern_shape :
  rec_pattern = Re.Seq (Re.Seq (Re.Chr ZHU) Re.Eps) rec_body.
Proof. reflexivity. Qed.

Lemma match_bet_line :
  Re.match_at t rec_pattern (bet_line sp1 idx sp2 content ++ post) = Some (line_match content post).
Proof.
  unfold Re.match_at, bet_line. rewrite rec_pattern_shape.
  cbn [app Re.run]. rewrite N.eqb_refl.
  repeat (rewrite <- ?app_assoc; cbn [app]).
  apply match_rec_body.
Qed.

End BetLine.

(** ** Scanning a text that contains a single-bet line *)

Lemma rec_body_avoids_zhu : avoids ZHU rec_body = true.
Proof. vm_compute. reflexivity. Qed.

Lemma rec_pattern_no_anchor : avoids 0 rec_pattern = true.
Proof. vm_compute. reflexivity. Qed.

Lemma match_at_total (t t' : nat) (s : pystr) :
  Re.match_at t rec_pattern s = Re.match_at t' rec_pattern s.
Proof.
  unfold Re.match_at. apply (run_total 0); [apply rec_pattern_no_anchor|done].
Qed.

(** Before a 注 further on, a match is the one found without it. *)
Lemma match_at_before_zhu (t t' : nat) (c : N) (s w : pystr) :
  Re.match_at t rec_pattern (c :: s ++ ZHU :: w)
  = extend (ZHU :: w) <$> Re.match_at t' rec_pattern (c :: s).
Proof.
  unfold Re.match_at. rewrite rec_pattern_shape. cbn [app Re.run].
  destruct (c =? ZHU)%N; [|done].
  apply run_local; [apply rec_body_avoids_zhu|]. done.
Qed.

Lemma match_at_nil (t : nat) : Re.match_at t rec_pattern [] = None.
Proof. reflexivity. Qed.

Lemma finditer_before_zhu (t t' : nat) (s w : pystr) (skip : nat) :
  skip ≤ length s →
  Re.finditer_aux t rec_pattern skip (s ++ ZHU :: w)
  = List.map (extend (ZHU :: w)) (Re.finditer_aux t' rec_pattern skip s)
    ++ Re.finditer_aux t rec_pattern 0 (ZHU :: w).
Proof.
  revert skip. induction s as [|c s IH]; intros skip Hskip.
  - cbn [length] in Hskip. assert (skip = 0) as -> by lia.
    cbn [app Re.finditer_aux]. by rewrite match_at_nil.
  - destruct skip as [|skip].
    + cbn [app Re.finditer_aux]. rewrite (match_at_before_zhu t t').
      destruct (Re.match_at t' rec_pattern (c :: s)) as [m|];
        cbn [fmap option_fmap option_map app List.map].
      * f_equal. cbn [extend Re.after]. cbn [length]. rewrite !length_app.
        replace (S (length s + length (ZHU :: w))
                 - (length (Re.after m) + length (ZHU :: w)))
          with (S (length s) - length (Re.after m)) by lia.
        apply IH. lia.
      * apply IH. lia.
    + cbn [app Re.finditer_aux]. apply IH. cbn [length] in Hskip. lia.
Qed.

Lemma finditer_skip (t : nat) (r : Re.regex) (a b : pystr) :
  Re.finditer_aux t r (length a) (a ++ b) = Re.finditer_aux t r 0 b.
Proof. induction a as [|c a IH]; cbn [length app Re.finditer_aux]; done. Qed.

Lemma finditer_total (t t' : nat) (s : pystr) (skip : nat) :
  Re.finditer_aux t rec_pattern skip s = Re.finditer_aux t' rec_pattern skip s.
Proof.
  revert skip. induction s as [|c s IH]; intros [|skip]; cbn [Re.finditer_aux];
    rewrite ?(match_at_total t t'); try done.
  - destruct (Re.match_at t' rec_pattern (c :: s)); by rewrite IH.
Qed.

(** The matches in a text around a single-bet line: those before the
    line, the line, those after it. *)
Lemma finditer_bet_line (pre sp1 idx sp2 content post : pystr) :
  forallb isspace sp1 = true → forallb isdecimal idx = true → idx ≠ [] →
  forallb isspace sp2 = true →
  forallb digit_space_comma content = true → content ≠ [] →
  Re.finditer rec_pattern (pre ++ bet_line sp1 idx sp2 content ++ post)
  = List.map (extend (bet_line sp1 idx sp2 content ++ post))
      (Re.finditer rec_pattern pre)
    ++ line_match content post :: Re.finditer rec_pattern post.
Proof.
  intros Hsp1 Hidx Hidx_ne Hsp2 Hcontent Hcontent_ne. unfold Re.finditer.
  set (t := length (pre ++ _)).
  pose proof (match_bet_line t sp1 idx sp2 content post
                Hsp1 Hidx Hidx_ne Hsp2 Hcontent Hcontent_ne) as Hline.
  remember (bet_line sp1 idx sp2 content) as line eqn:Hl.
  unfold bet_line in Hl.
  destruct line as [|z rest]; [discriminate|]. injection Hl as -> Hrest.
  cbn [app] in *.
  rewrite (finditer_before_zhu t (length pre)) by lia. f_equal.
  cbn [Re.finditer_aux]. rewrite Hline. f_equal.
  cbn [line_match Re.after length].
  rewrite length_app.
  replace (Nat.pred (S (length rest + length post) - length post))
    with (length rest) by lia.
  rewrite finditer_skip. apply finditer_total.
Qed.

(** ** From matches to stored bets *)

Lemma int_single_digit (c : N) (d : Z) :
  todecimal c = Some d → Py.int (strip [c]) = Some d.
Proof.
  intros Hd.
  assert (Hc : isdecimal c = true) by (unfold isdecimal; by rewrite Hd).
  pose proof (isdecimal_not_isspace c Hc) as Hsp.
  pose proof (isdecimal_not_int_space c Hc) as Hisp.
  unfold strip. cbn [dropwhile rev app]. rewrite Hsp. cbn [rev app dropwhile].
  rewrite Hsp. cbn [rev app].
  unfold Py.int. cbn [dropwhile]. rewrite Hisp.
  assert ((c =? 43)%N = false) as ->.
  { apply N.eqb_neq. intros ->. vm_compute in Hd. discriminate. }
  assert ((c =? 45)%N = false) as ->.
  { apply N.eqb_neq. intros ->. vm_compute in Hd. discriminate. }
  unfold int_unsigned. rewrite Hd. reflexivity.
Qed.

Lemma digits_in_values (s : pystr) : digits_in s = Some (digit_values s).
Proof.
  unfold digits_in, Re.findall_digit, digit_values.
  induction s as [|c s IH]; [done|].
  cbn [List.filter omap list_omap]. unfold isdecimal at 1.
  destruct (todecimal c) as [d|] eqn:Hd; [|exact IH].
  cbn [List.map mapM]. rewrite (int_single_digit c d Hd).
  cbn [mbind option_bind]. rewrite IH. reflexivity.
Qed.

Lemma digit_values_range (s : pystr) :
  forallb in_digit_range (digit_values s) = true.
Proof.
  unfold digit_values. induction s as [|c s IH]; [done|].
  cbn [omap list_omap]. destruct (todecimal c) as [d|] eqn:Hd; [|exact IH].
  cbn [forallb]. rewrite IH, andb_true_r.
  apply todecimal_range in Hd. unfold in_digit_range.
  apply andb_true_iff. split; apply Z.leb_le; lia.
Qed.

Lemma add_single_spec (acc : list (list Z)) (m : Re.rmatch) :
  add_single acc m
  = acc ++ (if five_digits (Re.group 1 m)
            then [digit_values (Re.group 1 m)] else []).
Proof.
  unfold add_single, five_digits. rewrite digits_in_values, digit_values_range.
  rewrite andb_true_r. destruct (_ =? 5); [done|by rewrite app_nil_r].
Qed.

Lemma fold_add_single (ms : list Re.rmatch) (acc : list (list Z)) :
  fold_left add_single ms acc
  = acc ++ List.map digit_values
             (List.filter five_digits (List.map (Re.group 1) ms)).
Proof.
  revert acc. induction ms as [|m ms IH]; intros acc; cbn [fold_left List.map List.filter].
  - by rewrite app_nil_r.
  - rewrite IH, add_single_spec, <- app_assoc.
    by destruct (five_digits (Re.group 1 m)).
Qed.

Lemma single_spec (content : pystr) :
  single (parse_recommendations_from_report content)
  = List.map digit_values
      (List.filter five_digits
         (List.map (Re.group 1) (Re.finditer rec_pattern content))).
Proof. unfold parse_recommendations_from_report. cbn [single]. apply fold_add_single. Qed.

(** ** The claim *)

Lemma group_extend (tail : pystr) (ms : list Re.rmatch) :
  List.map (Re.group 1) (List.map (extend tail) ms) = List.map (Re.group 1) ms.
Proof. rewrite List.map_map. apply List.map_ext. by intros []. Qed.

Lemma single_around_bet_line (pre sp1 idx sp2 content post : pystr) :
  forallb isspace sp1 = true → forallb isdecimal idx = true → idx ≠ [] →
  forallb isspace sp2 = true →
  forallb digit_space_comma content = true → content ≠ [] →
  single (parse_recommendations_from_report
            (pre ++ bet_line sp1 idx sp2 content ++ post))
  = single (parse_recommendations_from_report pre)
    ++ (if five_digits content then [digit_values content] else [])
    ++ single (parse_recommendations_from_report post).
Proof.
  intros Hsp1 Hidx Hidx_ne Hsp2 Hcontent Hcontent_ne.
  rewrite !single_spec, finditer_bet_line by done.
  rewrite List.map_app, List.filter_app, List.map_app, group_extend.
  f_equal. cbn [List.map List.filter].
  change (Re.group 1 (line_match content post)) with content.
  by destruct (five_digits content).
Qed.

Lemma length_digit_values (s : pystr) :
  length (digit_values s) = length (List.filter isdecimal s).
Proof.
  unfold digit_values. induction s as [|c s IH]; [done|].
  cbn [omap list_omap List.filter]. unfold isdecimal at 1.
  destruct (todecimal c); cbn [length]; [f_equal|]; apply IH.
Qed.

(** C4, as the claim states it, fails: the number in the label of a line
    is not recorded.  The line with bet index 3, alone in a report, is
    the first stored bet, and scoring reports it with index 1; there is
    no third bet. *)
Lemma bet_label_not_recorded :
  let recs :=
    single (parse_recommendations_from_report (lit "注 3: [1, 2, 3, 4, 5]")) in
  recs = [[1; 2; 3; 4; 5]%Z]
  ∧ recs !! 2 = None
  ∧ List.map WinRecord.index
      (calculate_prize recs [1; 2; 3; 4; 5]%Z).2 = [1%Z].
Proof. cbv zeta. repeat split; vm_compute; reflexivity. Qed.

(** C4, amended.  The stored single bets are, in the order in which the
    lines appear in the text, the digit values of those single-bet lines
    whose brackets hold exactly five digit characters; every stored bet
    has five numbers from 0 to 9.  A single-bet line, whatever its bet
    index and wherever it stands in the text, adds its digits between
    the bets found before it and the bets found after it when its
    brackets hold exactly five digit characters, and adds nothing
    otherwise: a line with fewer than five digit characters yields no
    entry.  In particular the line with bet index 3 and the digits 1, 2,
    3, 4, 5 yields the bet (1,2,3,4,5), whose position is one more than
    the number of bets stored before it, not the number in its label. *)
Theorem single_bets_extracted :
  (∀ content,
     single (parse_recommendations_from_report content)
     = List.map digit_values
         (List.filter five_digits
            (List.map (Re.group 1) (Re.finditer rec_pattern content))))
  ∧ (∀ content nums,
       In nums (single (parse_recommendations_from_report content)) →
       length nums = 5 ∧ Forall (fun num => 0 <= num <= 9)%Z nums)
  ∧ (∀ pre sp1 idx sp2 bracket post,
       forallb isspace sp1 = true → forallb isdecimal idx = true → idx ≠ [] →
       forallb isspace sp2 = true →
       forallb digit_space_comma bracket = true → bracket ≠ [] →
       single (parse_recommendations_from_report
                 (pre ++ bet_line sp1 idx sp2 bracket ++ post))
       = single (parse_recommendations_from_report pre)
         ++ (if five_digits bracket then [digit_values bracket] else [])
         ++ single (parse_recommendations_from_report post))
  ∧ (∀ bracket, length (List.filter isdecimal bracket) < 5 →
       five_digits bracket = false)
  ∧ BET_3 = lit "注 3: [1, 2, 3, 4, 5]"
  ∧ (∀ pre post,
       let recs := single (parse_recommendations_from_report
                             (pre ++ BET_3 ++ post)) in
       let before := single (parse_recommendations_from_report pre) in
       recs = before ++ [1; 2; 3; 4; 5]%Z
                        :: single (parse_recommendations_from_report post)
       ∧ recs !! length before = Some [1; 2; 3; 4; 5]%Z).
Proof.
  split; [apply single_spec|]. split; [|split; [|split; [|split]]].
  - intros content nums. rewrite single_spec, in_map_iff.
    intros (g & <- & Hg). apply filter_In in Hg as [_ Hfive].
    unfold five_digits in Hfive. apply Nat.eqb_eq in Hfive.
    split; [done|]. pose proof (digit_values_range g) as Hr.
    rewrite forallb_forall in Hr. apply List.Forall_forall. intros num Hnum.
    specialize (Hr num Hnum). unfold in_digit_range in Hr.
    apply andb_true_iff in Hr as [H1 H2]. apply Z.leb_le in H1, H2. lia.
  - apply single_around_bet_line.
  - intros bracket Hlt. unfold five_digits. apply Nat.eqb_neq.
    rewrite length_digit_values. lia.
  - reflexivity.
  - intros pre post. cbv zeta.
    assert (Heq : single (parse_recommendations_from_report (pre ++ BET_3 ++ post))
                  = single (parse_recommendations_from_report pre)
                    ++ [1; 2; 3; 4; 5]%Z
                       :: single (parse_recommendations_from_report post)).
    { unfold BET_3. rewrite single_around_bet_line; [reflexivity|..];
        vm_compute; (reflexivity || discriminate). }
    split; [exact Heq|]. rewrite Heq.
    by rewrite lookup_app_r, Nat.sub_diag by lia.
Qed.

(* ====================================================================== *)
(** * Ledger: what is written is read back *)
(* ====================================================================== *)

Lemma startswith_app (a b : pystr) : startswith a (a ++ b) = true.
Proof. induction a as [|c a IH]; cbn; [done|]. by rewrite N.eqb_refl. Qed.

Lemma split_aux_skip (sep a rest cur : pystr) :
  split_aux sep (length a) cur (a ++ rest) = split_aux sep 0 cur rest.
Proof. induction a as [|c a IH]; cbn [length app split_aux]; done. Qed.

Lemma split_aux_sep (c0 : N) (tl cur rest : pystr) :
  split_aux (c0 :: tl) 0 cur ((c0 :: tl) ++ rest)
  = rev cur :: split_aux (c0 :: tl) 0 [] rest.
Proof.
  cbn [app split_aux]. change (c0 :: tl ++ rest) with ((c0 :: tl) ++ rest).
  rewrite startswith_app. cbn [length Nat.pred]. by rewrite split_aux_skip.
Qed.

(** Inside a part without ['='] no delimiter starts. *)
Lemma split_aux_part (p cur rest : pystr) :
  Forall (fun c => c ≠ 61%N) p →
  match rest with c :: _ => c ≠ 61%N | [] => True end →
  split_aux DELIMITER 0 cur (p ++ rest)
  = split_aux DELIMITER 0 (rev p ++ cur) rest.
Proof.
  revert cur. induction p as [|c p IH]; intros cur Hp Hrest; [done|].
  apply Forall_cons in Hp as [Hc Hp].
  cbn [app split_aux rev].
  assert (startswith DELIMITER (c :: p ++ rest) = false) as ->.
  { change DELIMITER with (10%N :: 61%N :: repeat 61%N 79 ++ [10%N]).
    cbn [startswith]. apply andb_false_iff. right.
    destruct p as [|c' p]; cbn [app].
    - destruct rest as [|r rest]; [done|]. cbn [startswith].
      apply andb_false_iff. left. by apply N.eqb_neq.
    - apply Forall_cons in Hp as [Hc' _]. cbn [startswith].
      apply andb_false_iff. left. by apply N.eqb_neq. }
  rewrite IH by done. by rewrite <- app_assoc.
Qed.

Lemma split_aux_delimiter (cur rest : pystr) :
  split_aux DELIMITER 0 cur (DELIMITER ++ rest)
  = rev cur :: split_aux DELIMITER 0 [] rest.
Proof. unfold DELIMITER. apply split_aux_sep. Qed.

(** Splitting the joined parts gives the parts back. *)
Lemma split_join (parts : list pystr) :
  parts ≠ [] → Forall (fun p => plain p = true) parts →
  split DELIMITER (join DELIMITER parts) = parts.
Proof.
  assert (Hne : ∀ p, plain p = true → Forall (fun c => c ≠ 61%N) p).
  { intros p Hp. unfold plain in Hp. rewrite forallb_forall in Hp.
    apply List.Forall_forall. intros c Hc ->. specialize (Hp _ Hc). done. }
  unfold split. induction parts as [|p parts IH]; [done|].
  intros _ Hparts. apply Forall_cons in Hparts as [Hp Hparts].
  destruct parts as [|q parts].
  - cbn [join]. rewrite <- (app_nil_r p) at 1.
    rewrite split_aux_part by (done || by apply Hne).
    cbn. by rewrite app_nil_r, rev_involutive.
  - change (join DELIMITER (p :: q :: parts))
      with (p ++ DELIMITER ++ join DELIMITER (q :: parts)).
    rewrite split_aux_part; [| by apply Hne | by cbn].
    rewrite app_nil_r, split_aux_delimiter, rev_involutive.
    f_equal. by apply IH.
Qed.

(** ** A rendered entry is a plain normal record *)

Lemma plain_app (a b : pystr) : plain (a ++ b) = plain a && plain b.
Proof. apply forallb_app. Qed.

Lemma plain_join (sep : pystr) (parts : list pystr) :
  plain sep = true → forallb plain parts = true → plain (join sep parts) = true.
Proof.
  intros Hsep. induction parts as [|p parts IH]; [done|].
  cbn [forallb]. intros H. apply andb_true_iff in H as [Hp Hparts].
  destruct parts as [|q parts]; [done|].
  change (join sep (p :: q :: parts)) with (p ++ sep ++ join sep (q :: parts)).
  rewrite !plain_app, Hp, Hsep. by apply IH.
Qed.

Lemma uint_chars_plain (d : Decimal.uint) : plain (uint_chars d) = true.
Proof. induction d; cbn; done. Qed.

Lemma group3_plain (ds : pystr) : plain ds = true → plain (group3 ds) = true.
Proof.
  induction ds as [|d ds IH]; [done|]. cbn [plain forallb group3].
  intros H. apply andb_true_iff in H as [Hd Hds].
  destruct (_ && _); cbn [forallb]; rewrite Hd; cbn; by apply IH.
Qed.

Lemma str_of_int_plain (z : Z) : plain (str_of_int z) = true.
Proof.
  unfold str_of_int, digits_of. destruct (z <? 0)%Z; cbn [plain forallb];
    apply uint_chars_plain.
Qed.

Lemma format_comma_plain (z : Z) : plain (format_comma z) = true.
Proof.
  unfold format_comma, digits_of. destruct (z <? 0)%Z; cbn [plain forallb];
    apply group3_plain, uint_chars_plain.
Qed.

Lemma concat_ints_plain (l : list Z) : plain (concat_ints l) = true.
Proof.
  unfold concat_ints. induction l as [|z l IH]; [done|].
  cbn [List.map List.concat]. by rewrite plain_app, str_of_int_plain.
Qed.

Lemma detail_line_plain (d : WinRecord.t) :
  plain (WinRecord.prize_type d) = true → plain (detail_line d) = true.
Proof.
  intros Hd. unfold detail_line.
  rewrite !plain_app, str_of_int_plain, concat_ints_plain, format_comma_plain, Hd.
  reflexivity.
Qed.

Lemma detail_lines_plain (ds : list WinRecord.t) :
  forallb (fun d => plain (WinRecord.prize_type d)) ds = true →
  forallb plain (List.map detail_line ds) = true.
Proof.
  induction ds as [|d ds IH]; [done|]. cbn [forallb List.map].
  intros H. apply andb_true_iff in H as [Hd Hds].
  by rewrite (detail_line_plain d Hd), IH.
Qed.

Lemma render_entry_plain (now : pystr) (e : entry_data) :
  entry_plain now e = true → plain (render_entry now e) = true.
Proof.
  unfold entry_plain. intros H.
  apply andb_true_iff in H as [H Hdetails].
  apply andb_true_iff in H as [Hnow Hperiod].
  assert (Hp : plain (default (lit "未知") (period e)) = true).
  { destruct (period e); [exact Hperiod|reflexivity]. }
  unfold render_entry. apply plain_join; [reflexivity|].
  assert (Hhead : ∀ tail, forallb plain tail = true →
            forallb plain
              ([ lit "评估时间: " ++ now;
                 lit "评估期号: " ++ default (lit "未知") (period e);
                 lit "开奖号码: " ++ concat_ints (default [] (prize_numbers e));
                 lit "推荐数量: "
                   ++ str_of_int (default 0%Z (recommendation_count e)) ++ lit "注";
                 lit "中奖数量: "
                   ++ str_of_int (default 0%Z (winning_count e)) ++ lit "注";
                 lit "总奖金: "
                   ++ format_comma (default 0%Z (total_prize e)) ++ lit "元";
                 [] ] ++ tail) = true).
  { intros tail Htail. cbn [app forallb].
    rewrite !plain_app, Hnow, Hp, concat_ints_plain, !str_of_int_plain,
      format_comma_plain, Htail.
    reflexivity. }
  destruct (winning_details e) as [[|d ds]|];
    [rewrite <- (app_nil_r [_; _; _; _; _; _; _]); by apply Hhead| |
     rewrite <- (app_nil_r [_; _; _; _; _; _; _]); by apply Hhead].
  apply Hhead.
  change (default [] (Some (d :: ds))) with (d :: ds) in Hdetails.
  rewrite !forallb_app, (detail_lines_plain _ Hdetails). reflexivity.
Qed.

Lemma plain_not_error (s : pystr) : plain s = true → is_error_section s = false.
Proof.
  intros Hs. unfold plain in Hs. rewrite forallb_forall in Hs.
  unfold is_error_section, ERROR_MARKER, CUOWU_MARKER.
  apply orb_false_iff. split.
  - destruct (contains _ s) eqn:Hc; [|done].
    apply contains_head, Hs in Hc. discriminate.
  - destruct (contains _ s) eqn:Hc; [|done].
    apply contains_head, Hs in Hc. discriminate.
Qed.

Lemma contains_startswith (sub s : pystr) :
  startswith sub s = true → contains sub s = true.
Proof. intros H. destruct s; cbn [contains]; by rewrite H. Qed.

Lemma render_entry_marked (now : pystr) (e : entry_data) :
  contains EVAL_TIME_MARKER (render_entry now e) = true.
Proof.
  assert (H : ∃ rest, render_entry now e = EVAL_TIME_MARKER ++ rest).
  { unfold render_entry.
    change (lit "评估时间: ") with (EVAL_TIME_MARKER ++ [32%N]).
    destruct (winning_details e) as [[|d ds]|]; cbn [app join];
      rewrite <- !app_assoc; eexists; reflexivity. }
  destruct H as [rest ->]. apply contains_startswith, startswith_app.
Qed.

Lemma render_entry_normal (now : pystr) (e : entry_data) :
  entry_plain now e = true → is_normal_section (render_entry now e) = true.
Proof.
  intros H. unfold is_normal_section.
  by rewrite (plain_not_error _ (render_entry_plain now e H)), render_entry_marked.
Qed.

(** ** Successive evaluations *)

(** A ledger of plain normal records is read back as these records. *)
Lemma reread_normal_records (parts : list pystr) :
  Forall (fun p => plain p = true ∧ is_normal_section p = true) parts →
  List.filter is_normal_section (split DELIMITER (join DELIMITER parts)) = parts
  ∧ List.filter is_error_section (split DELIMITER (join DELIMITER parts)) = [].
Proof.
  intros Hparts. destruct parts as [|p parts]; [by vm_compute|].
  rewrite split_join; [|done|].
  - split.
    + apply forallb_filter_id. rewrite forallb_forall.
      rewrite List.Forall_forall in Hparts. intros q Hq. by apply Hparts.
    + induction Hparts as [|q qs [Hq _] _ IH]; [done|].
      cbn [List.filter]. by rewrite (plain_not_error q Hq).
  - eapply Forall_impl; [exact Hparts|]. by intros q [? _].
Qed.

Lemma record_all_spec (writes : list (pystr * entry_data)) (parts : list pystr) :
  Forall (fun w => entry_nonempty w.2 = true ∧ entry_plain w.1 w.2 = true) writes →
  Forall (fun p => plain p = true ∧ is_normal_section p = true) parts →
  length parts ≤ MAX_NORMAL_RECORDS →
  record_all writes (join DELIMITER parts)
  = join DELIMITER
      (take MAX_NORMAL_RECORDS
         (rev (List.map (fun w => render_entry w.1 w.2) writes) ++ parts)).
Proof.
  revert parts. induction writes as [|[now e] writes IH]; intros parts Hw Hparts Hlen.
  - cbn [record_all List.map rev app]. by rewrite take_ge.
  - apply Forall_cons in Hw as [[Hne Hplain] Hw]. cbn [fst snd] in Hne, Hplain.
    cbn [record_all]. rewrite manage_report_spec. cbn [written].
    destruct (reread_normal_records parts Hparts) as [-> ->].
    unfold new_normal_records, new_error_logs. rewrite Hne.
    cbn [app]. rewrite take_nil. unfold layout. rewrite app_nil_r.
    rewrite IH; [| done | | rewrite length_take; lia].
    + f_equal. cbn [List.map rev fst snd]. rewrite <- app_assoc. cbn [app].
      set (older := rev _). set (new := render_entry now e).
      rewrite (take_app older), (take_app older (new :: parts)).
      f_equal. rewrite take_take. f_equal. lia.
    + apply Forall_take. constructor; [|done].
      split; [by apply render_entry_plain|by apply render_entry_normal].
Qed.

(** C2.  When the existing text holds exactly as many normal records as
    the cap allows (10), a call with a new entry leaves the new record
    followed by the first nine of the old ones, in their order: the
    last, which is the oldest, is gone.  These records are what the
    rewritten text starts with.  After any call whatever, the list of
    normal records has at most 10 entries and the list of error logs at
    most 20.  Over a sequence of calls, each reading the text the call
    before wrote: after any number of evaluations recorded into an empty
    ledger, with entries as the script builds them, the text holds the
    10 newest records, newest first, and they are what the next call
    reads. *)
Theorem manage_report_retention (existing_content now_entry now_error : pystr)
    (e : entry_data) (new_error : option pystr) :
  entry_nonempty e = true →
  let old := List.filter is_normal_section (split DELIMITER existing_content) in
  let result :=
    manage_report existing_content now_entry now_error (Some e) new_error in
  MAX_NORMAL_RECORDS = 10 ∧ MAX_ERROR_LOGS = 20
  ∧ (length old = MAX_NORMAL_RECORDS →
       normal_records result = render_entry now_entry e :: take 9 old
       ∧ length (normal_records result) = MAX_NORMAL_RECORDS
       ∧ ∃ oldest, old = take 9 old ++ [oldest])
  ∧ written result
    = join DELIMITER (layout (normal_records result) (error_logs result))
  ∧ (∀ existing' now1 now2 any_entry any_error,
       let r := manage_report existing' now1 now2 any_entry any_error in
       length (normal_records r) ≤ MAX_NORMAL_RECORDS
       ∧ length (error_logs r) ≤ MAX_ERROR_LOGS)
  ∧ (∀ writes : list (pystr * entry_data),
       Forall (fun w => entry_nonempty w.2 = true ∧ entry_plain w.1 w.2 = true)
         writes →
       let newest_first := rev (List.map (fun w => render_entry w.1 w.2) writes) in
       record_all writes [] = join DELIMITER (take MAX_NORMAL_RECORDS newest_first)
       ∧ List.filter is_normal_section
           (split DELIMITER (record_all writes []))
         = take MAX_NORMAL_RECORDS newest_first).
Proof.
  intros He old result. split; [done|]. split; [done|].
  split; [|split; [|split]].
  - intros Hlen. subst result. rewrite manage_report_spec.
    cbn [normal_records]. unfold new_normal_records. rewrite He.
    fold old. cbn [app]. unfold MAX_NORMAL_RECORDS in *.
    cbn [take]. fold (take 9 old). split; [done|]. split.
    + cbn [length]. rewrite length_take. lia.
    + destruct (rev old) as [|oldest r] eqn:Hr.
      * apply (f_equal (@length _)) in Hr. rewrite length_rev in Hr.
        cbn in Hr. lia.
      * exists oldest. apply (f_equal (@rev _)) in Hr.
        rewrite rev_involutive in Hr. cbn in Hr.
        assert (Hlr : length (rev r) = 9).
        { apply (f_equal (@length _)) in Hr.
          rewrite length_app in Hr. cbn in Hr. lia. }
        rewrite Hr at 2. rewrite take_app_length' by done. exact Hr.
  - subst result. by rewrite manage_report_spec.
  - intros existing' now1 now2 any_entry any_error. cbv zeta.
    rewrite manage_report_spec. cbn [normal_records error_logs].
    rewrite !length_take. lia.
  - intros writes Hwrites. cbv zeta.
    pose proof (record_all_spec writes [] Hwrites (List.Forall_nil _)) as Hall.
    rewrite app_nil_r in Hall. change (join DELIMITER []) with (@nil N) in Hall.
    rewrite Hall by (cbn; lia). split; [done|].
    apply reread_normal_records. apply Forall_take, Forall_rev.
    apply List.Forall_forall. intros p Hp.
    apply in_map_iff in Hp as ([now e'] & <- & Hin).
    rewrite List.Forall_forall in Hwrites.
    destruct (Hwrites _ Hin) as [_ Hplain]. cbn [fst snd] in *.
    split; [by apply render_entry_plain|by apply render_entry_normal].
Qed.

Lemma manage_report_retention_witness :
  let existing_content :=
    join DELIMITER (List.map (fun c => EVAL_TIME_MARKER ++ [c])
                      [48; 49; 50; 51; 52; 53; 54; 55; 56; 57]%N) in
  let e := {| period := Some (lit "25001");
              prize_numbers := Some [7; 7; 7; 7; 7]%Z;
              recommendation_count := Some 1%Z;
              winning_count := Some 0%Z;
              total_prize := Some 0%Z;
              winning_details := Some [] |} in
  normal_records
    (manage_report existing_content (lit "2025-01-01 00:00:00") [] (Some e) None)
  = render_entry (lit "2025-01-01 00:00:00") e
    :: List.map (fun c => EVAL_TIME_MARKER ++ [c])
         [48; 49; 50; 51; 52; 53; 54; 55; 56]%N.
Proof.
  cbv zeta.
  refine (proj1 (proj1 (proj2 (proj2
    (manage_report_retention _ (lit "2025-01-01 00:00:00") [] _ None _))) _)).
  - vm_compute. reflexivity.
  - vm_compute. reflexivity.
Defined.

(* ====================================================================== *)
(** * Further properties of the draw table *)
(* ====================================================================== *)

(** The reader yields at least one row once it has a line to read or a
    quoted field left open. *)
Lemma feed_state (line : pystr) (rd rd' : Csv.reader) :
  Csv.feed rd line = Some rd' →
  Csv.state rd' = Csv.START_RECORD ∨ Csv.state rd' = Csv.IN_QUOTED_FIELD.
Proof.
  revert rd. induction line as [|c line IH]; intros rd; cbn [Csv.feed].
  - unfold Csv.parse_process_char.
    destruct (Csv.state rd) eqn:Hst; intros [= <-]; cbn; auto.
  - destruct (Csv.parse_process_char rd (Some c)) as [rd1|]; [|done]. apply IH.
Qed.

Lemma rows_from_nonempty (lines : list pystr) (rd : Csv.reader)
    (rows : list (list pystr)) :
  lines ≠ [] ∨ Csv.state rd = Csv.IN_QUOTED_FIELD →
  Csv.rows_from rd lines = Some rows → rows ≠ [].
Proof.
  revert rd rows. induction lines as [|line lines IH]; intros rd rows Hst.
  - destruct Hst as [?|Hst]; [done|]. cbn [Csv.rows_from]. rewrite Hst.
    by destruct (Csv.field rd); intros [= <-].
  - cbn [Csv.rows_from].
    destruct (Csv.feed rd line) as [rd1|] eqn:Hfeed; [|done].
    destruct (feed_state line rd rd1 Hfeed) as [H|H]; rewrite H.
    + destruct (Csv.rows_from Csv.parse_reset lines); [|done].
      by intros [= <-].
    + apply IH. by right.
Qed.

Lemma splitlines_aux_nonempty (c : N) (s cur : pystr) :
  splitlines_aux cur (c :: s) ≠ [].
Proof.
  revert c cur. induction s as [|c' s IH]; intros c cur; cbn [splitlines_aux].
  - destruct (c =? 13)%N; [done|]. by destruct (islinebreak c).
  - destruct (c =? 13)%N.
    + by destruct (c' =? 10)%N.
    + destruct (islinebreak c); [done|]. apply IH.
Qed.

Lemma table_has_header (csv_content : pystr) :
  csv_content ≠ [] → Csv.reader_rows (splitlines csv_content) ≠ Some [].
Proof.
  intros Hne Hrows. destruct csv_content as [|c s]; [done|].
  apply rows_from_nonempty in Hrows; [done|]. left.
  apply splitlines_aux_nonempty.
Qed.

Lemma load_rows_periods (rows : list (list pystr)) :
  (load_rows rows).2
  = List.map (fun row => cell row 0) (List.filter row_accepted rows).
Proof. unfold load_rows. by rewrite fold_load_row_periods. Qed.

Lemma load_rows_empty (rows : list (list pystr)) :
  (load_rows rows).1 = ∅ ↔ List.filter row_accepted rows = [].
Proof.
  unfold load_rows. rewrite fold_load_row_empty by done.
  rewrite fold_load_row_periods. cbn [snd app].
  destruct (List.filter row_accepted rows); cbn; split; done.
Qed.

(** X1.  The loader gives no data in exactly three cases: the text is
    empty, the reader fails on it, or none of the rows after the first
    one is well formed.  The first row is never loaded. *)
Theorem loader_no_data (csv_content : pystr) :
  get_period_data_from_csv csv_content = None ↔
  csv_content = []
  ∨ Csv.reader_rows (splitlines csv_content) = None
  ∨ ∃ header rows,
      Csv.reader_rows (splitlines csv_content) = Some (header :: rows)
      ∧ Forall (fun row => row_accepted row = false) rows.
Proof.
  unfold get_period_data_from_csv.
  destruct csv_content as [|c s]; [split; [by left|done]|].
  pose proof (table_has_header (c :: s)) as Hheader.
  destruct (Csv.reader_rows (splitlines (c :: s))) as [[|header rows]|].
  - exfalso. by apply Hheader.
  - destruct (load_rows rows) as [m l] eqn:Hl.
    assert (Hm : m = ∅ ↔ List.filter row_accepted rows = []).
    { rewrite <- load_rows_empty. by rewrite Hl. }
    assert (Hall : List.filter row_accepted rows = [] ↔
                   Forall (fun row => row_accepted row = false) rows).
    { clear. induction rows as [|row rows IH]; cbn; [split; constructor|].
      destruct (row_accepted row) eqn:Hrow.
      - split; [done|]. intros H. apply Forall_cons in H as [H _]. cbv beta in H. congruence.
      - rewrite IH. split; [by constructor|]. intros H.
        by apply Forall_cons in H as [_ ?]. }
    destruct (bool_decide (m = ∅)) eqn:Hd.
    + apply bool_decide_eq_true in Hd. split; [|done]. intros _.
      right. right. exists header, rows. split; [done|]. by apply Hall, Hm.
    + apply bool_decide_eq_false in Hd. split; [done|].
      intros [?|[?|(h & rs & [= <- <-] & Hrs)]]; [done..|].
      exfalso. by apply Hd, Hm, Hall.
  - split; [|done]. intros _. right. by left.
Qed.

(** The record a period ends up with: the one of the last well-formed
    row that carries it. *)
Lemma fold_load_row_lookup (rows : list (list pystr)) (st : loader_state)
    (p : pystr) :
  (fold_left load_row rows st).1 !! p
  = match last (rows_of_period p rows) with
    | Some row => Some (record_of_row row)
    | None => st.1 !! p
    end.
Proof.
  revert st. induction rows as [|row rows IH]; intros st; [done|].
  unfold rows_of_period in *. cbn [fold_left List.filter].
  rewrite IH, load_row_spec.
  destruct (row_accepted row) eqn:Hrow; cbn [andb]; [|done].
  destruct (bool_decide (cell row 0 = p)) eqn:Hp.
  - apply bool_decide_eq_true in Hp. rewrite last_cons. cbn [fst].
    destruct (last (List.filter _ rows)); [done|].
    by rewrite Hp, lookup_insert_eq.
  - apply bool_decide_eq_false in Hp. cbn [fst].
    destruct (last (List.filter _ rows)); [done|]. by rewrite lookup_insert_ne.
Qed.

Lemma count_rows_of_period (p : pystr) (rows : list (list pystr)) :
  count_occ pystr_eq_dec
    (List.map (fun row => cell row 0) (List.filter row_accepted rows)) p
  = length (rows_of_period p rows).
Proof.
  unfold rows_of_period. induction rows as [|row l IH]; [done|].
  cbn [List.filter].
  destruct (row_accepted row); cbn [andb List.map count_occ]; [|done].
  destruct (pystr_eq_dec (cell row 0) p) as [Heq|Hne].
  - rewrite bool_decide_eq_true_2 by done. cbn [length]. by rewrite IH.
  - by rewrite bool_decide_eq_false_2.
Qed.

(** The mapping and the list in terms of the rows of the table. *)
Lemma loader_rows_spec (csv_content : pystr)
    (period_map : gmap pystr draw_record) (periods_list : list pystr) :
  get_period_data_from_csv csv_content = Some (period_map, periods_list) →
  ∃ header rows,
    Csv.reader_rows (splitlines csv_content) = Some (header :: rows)
    ∧ (∀ p, period_map !! p = record_of_row <$> last (rows_of_period p rows))
    ∧ (∀ p, count_occ pystr_eq_dec periods_list p
            = length (rows_of_period p rows)).
Proof.
  intros Hget.
  apply get_period_data_rows in Hget as (header & rows & Hrows & -> & ->).
  exists header, rows. split; [done|]. split.
  - intros p. unfold load_rows. rewrite fold_load_row_lookup. cbn [fst].
    rewrite lookup_empty. by destruct (last _).
  - intros p. rewrite <- count_rows_of_period, <- load_rows_periods.
    revert p. apply (Permutation_count_occ pystr_eq_dec).
    apply sorted_perm.
Qed.

(** X2.  The mapping and the period list agree: a period has a record
    exactly when it is listed.  When several well-formed rows carry the
    same period, the record is that of the last of them, while the list
    has one entry for each. *)
Theorem loader_map_agrees_with_list (csv_content : pystr)
    (period_map : gmap pystr draw_record) (periods_list : list pystr) :
  get_period_data_from_csv csv_content = Some (period_map, periods_list) →
  ∃ header rows,
    Csv.reader_rows (splitlines csv_content) = Some (header :: rows)
    ∧ (∀ p, is_Some (period_map !! p) ↔ In p periods_list)
    ∧ (∀ p, period_map !! p = record_of_row <$> last (rows_of_period p rows))
    ∧ (∀ p, count_occ pystr_eq_dec periods_list p
            = length (rows_of_period p rows)).
Proof.
  intros Hget.
  apply loader_rows_spec in Hget as (header & rows & Hrows & Hlookup & Hcount).
  exists header, rows. split; [done|]. split; [|by split].
  intros p. rewrite Hlookup, (count_occ_In pystr_eq_dec), Hcount.
  destruct (rows_of_period p rows) as [|r rs]; cbn [length].
  - split; [by intros [? ?]|lia].
  - split; [lia|]. intros _. rewrite last_cons.
    destruct (last rs); by eexists.
Qed.

Lemma loader_map_agrees_with_list_witness :
  ∃ header rows,
    Csv.reader_rows (splitlines (lit "period,n1,n2,n3,n4,n5
1000,1,2,3,4,5
1000,9,9,9,9,9")) = Some (header :: rows)
    ∧ (∀ p, is_Some ((<[lit "1000" := {| numbers := [9; 9; 9; 9; 9]%Z |}]> ∅
                       : gmap pystr draw_record) !! p)
            ↔ In p [lit "1000"; lit "1000"]).
Proof.
  destruct (loader_map_agrees_with_list
              (lit "period,n1,n2,n3,n4,n5
1000,1,2,3,4,5
1000,9,9,9,9,9")
              (<[lit "1000" := {| numbers := [9; 9; 9; 9; 9]%Z |}]> ∅)
              [lit "1000"; lit "1000"])
    as (header & rows & Hrows & Hin & _).
  - vm_compute. reflexivity.
  - exists header, rows. split; [exact Hrows|exact Hin].
Defined.

(* ====================================================================== *)
(** * What a parenthesised quantifier captures *)
(* ====================================================================== *)

Section Captures.
Context {R : Type}.

Lemma rep_Some (f : N → bool) (lo : nat) (hi : option nat) (s : pystr)
    (k : pystr → option R) (x : R) :
  ∀ n, Re.rep f lo hi n s k = Some x →
  ∃ pre s', s = pre ++ s' ∧ forallb f pre = true ∧ lo ≤ n + length pre
            ∧ k s' = Some x.
Proof.
  induction s as [|c s IH]; intros n; cbn [Re.rep].
  - destruct (lo <=? n)%nat eqn:Hlo; [|done]. apply Nat.leb_le in Hlo.
    intros Hk. exists [], []. cbn. repeat split; [lia|done].
  - assert (Hstop : (if (lo <=? n)%nat then k (c :: s) else None) = Some x →
                    ∃ pre s', c :: s = pre ++ s' ∧ forallb f pre = true
                              ∧ lo ≤ n + length pre ∧ k s' = Some x).
    { destruct (lo <=? n)%nat eqn:Hlo; [|done]. apply Nat.leb_le in Hlo.
      intros Hk. exists [], (c :: s). cbn. repeat split; [lia|done]. }
    destruct (f c && Re.below n hi) eqn:Hc; [|done].
    destruct (Re.rep f lo hi (S n) s k) as [y|] eqn:Hrep; [|done].
    intros [= ->]. apply IH in Hrep as (pre & s' & -> & Hpre & Hlen & Hk).
    apply andb_prop in Hc as [Hc _].
    exists (c :: pre), s'. cbn [forallb length app]. rewrite Hc, Hpre.
    repeat split; [lia|done].
Qed.

Lemma run_group_free (total : nat) (r : Re.regex) :
  group_free r = true →
  ∀ s g (k : pystr → Re.captures → option R) x,
    Re.run total r s g k = Some x → ∃ s', k s' g = Some x.
Proof.
  induction r as [| c | f | r1 IH1 r2 IH2 | r1 IH1 r2 IH2 | f lo hi | i r IH | |];
    cbn [group_free Re.run]; intros Hfree s g k x.
  - by exists s.
  - destruct s as [|c' s]; [done|]. destruct (c' =? c)%N; [|done]. by exists s.
  - destruct s as [|c' s]; [done|]. destruct (f c'); [|done]. by exists s.
  - apply andb_prop in Hfree as [H1 H2]. intros Hrun.
    apply (IH1 H1) in Hrun as (s1 & Hrun). by apply (IH2 H2) in Hrun.
  - apply andb_prop in Hfree as [H1 H2].
    destruct (Re.run total r1 s g k) as [y|] eqn:Hrun.
    + intros [= ->]. by apply (IH1 H1) in Hrun.
    + by apply IH2.
  - intros Hrep. apply rep_Some in Hrep as (pre & s' & _ & _ & _ & Hk).
    by exists s'.
  - done.
  - destruct (length s =? total)%nat; [|done]. by exists s.
  - destruct s as [|c [|c' s]]; [by exists []| |done].
    destruct (c =? 10)%N; [|done]. by exists [c].
Qed.

Lemma group_free_Cat (rs : list Re.regex) :
  forallb group_free rs = true → group_free (Re.Cat rs) = true.
Proof.
  induction rs as [|r rs IH]; cbn; [done|].
  intros H. apply andb_prop in H as [-> H]. by apply IH.
Qed.

(** In a sequence whose only parentheses enclose one quantified class,
    the group holds characters of that class, at least as many as the
    quantifier asks for. *)
Lemma run_single_group (total : nat) (rs1 rs2 : list Re.regex) (i : nat)
    (f : N → bool) (lo : nat) (hi : option nat) :
  forallb group_free rs1 = true →
  ∀ s g (k : pystr → Re.captures → option R) x,
    Re.run total (Re.Cat (rs1 ++ Re.Group i (Re.Rep f lo hi) :: rs2)) s g k
    = Some x →
    ∃ v s1, forallb f v = true ∧ lo ≤ length v
            ∧ Re.run total (Re.Cat rs2) s1 ((i, v) :: g) k = Some x.
Proof.
  induction rs1 as [|r rs1 IH]; intros Hfree s g k x.
  - cbn [app Re.Cat foldr Re.run]. intros Hrep.
    apply rep_Some in Hrep as (pre & s' & -> & Hpre & Hlen & Hk).
    exists pre, s'. split; [done|]. split; [lia|].
    rewrite length_app in Hk.
    replace (length pre + length s' - length s') with (length pre) in Hk by lia.
    by rewrite take_app_length in Hk.
  - cbn [forallb] in Hfree. apply andb_prop in Hfree as [Hr Hfree].
    cbn [app Re.Cat foldr Re.run]. intros Hrun.
    apply (run_group_free _ _ Hr) in Hrun as (s1 & Hrun).
    by apply (IH Hfree) in Hrun.
Qed.

End Captures.

Lemma match_single_group (total : nat) (rs1 rs2 : list Re.regex) (i : nat)
    (f : N → bool) (lo : nat) (hi : option nat) (s : pystr) (m : Re.rmatch) :
  forallb group_free rs1 = true → forallb group_free rs2 = true →
  Re.match_at total (Re.Cat (rs1 ++ Re.Group i (Re.Rep f lo hi) :: rs2)) s
  = Some m →
  forallb f (Re.group i m) = true ∧ lo ≤ length (Re.group i m).
Proof.
  intros H1 H2 Hm. unfold Re.match_at in Hm.
  apply (run_single_group _ _ _ _ _ _ _ H1) in Hm as (v & s1 & Hv & Hlen & Hm).
  apply (run_group_free _ _ (group_free_Cat _ H2)) in Hm as (s2 & Hm).
  injection Hm as <-. unfold Re.group. cbn [Re.groups Re.lookup_group].
  by rewrite Nat.eqb_refl.
Qed.

Lemma search_from_match (total : nat) (r : Re.regex) (s : pystr) (m : Re.rmatch) :
  Re.search_from total r s = Some m → ∃ s', Re.match_at total r s' = Some m.
Proof.
  induction s as [|c s IH]; cbn [Re.search_from].
  - destruct (Re.match_at total r []) eqn:Hm; [|done]. intros [= ->]. by exists [].
  - destruct (Re.match_at total r (c :: s)) eqn:Hm; [|done].
    intros [= ->]. by exists (c :: s).
Qed.

Lemma cutoff_group_digits (content : pystr) (m : Re.rmatch) :
  Re.search cutoff_pattern content = Some m →
  forallb isdecimal (Re.group 1 m) = true ∧ 1 ≤ length (Re.group 1 m).
Proof.
  intros Hs. apply search_from_match in Hs as (s' & Hm).
  apply (match_single_group (length content)
           [ Re.Str (lit "分析基于数据:"); Re.Star isspace; Re.Str (lit "截至");
             Re.Star isspace ]
           [ Re.Star isspace; Re.Str (lit "期") ] 1 isdecimal 1 None s' m);
    [by vm_compute..|exact Hm].
Qed.

Lemma target_group_digits (content : pystr) (m : Re.rmatch) :
  Re.search target_pattern content = Some m →
  forallb isdecimal (Re.group 1 m) = true ∧ 1 ≤ length (Re.group 1 m).
Proof.
  intros Hs. apply search_from_match in Hs as (s' & Hm).
  apply (match_single_group (length content)
           [ Re.Str (lit "本次预测目标:"); Re.Star isspace; Re.Str (lit "第");
             Re.Star isspace ]
           [ Re.Star isspace; Re.Str (lit "期") ] 1 isdecimal 1 None s' m);
    [by vm_compute..|exact Hm].
Qed.

(** X3.  The target period taken from a report is a run of decimal
    digits; it is empty exactly when the report has no target line. *)
Theorem target_period_digits (content : pystr) :
  let p := target_period (parse_recommendations_from_report content) in
  forallb isdecimal p = true
  ∧ (p = [] ↔ Re.search target_pattern content = None).
Proof.
  cbn [target_period parse_recommendations_from_report].
  destruct (Re.search target_pattern content) as [m|] eqn:Hs; [|done].
  apply target_group_digits in Hs as [Hd Hlen]. split; [done|].
  split; [|done]. intros H. rewrite H in Hlen. cbn in Hlen. lia.
Qed.

(** X4.  A report is only ever found for a target period that is a
    non-empty run of decimal digits: for any other target no file is
    returned, whatever the directory holds. *)
Theorem find_matching_report_numeric_target (gbk_table : N → N → option N)
    (fs : filesystem) (found : list pystr) (target_period : pystr) :
  target_period = [] ∨ forallb isdecimal target_period = false →
  find_matching_report gbk_table fs found target_period = None.
Proof.
  intros Htarget. rewrite find_matching_report_head.
  assert (omap (candidate_of gbk_table fs target_period) found = []) as ->;
    [|done].
  destruct (omap (candidate_of gbk_table fs target_period) found)
    as [|[ts p] l] eqn:Hc; [done|]. exfalso.
  assert (Hin : In (ts, p) (omap (candidate_of gbk_table fs target_period) found))
    by (rewrite Hc; by left).
  apply in_candidates in Hin as [_ Hsel].
  apply selectable_iff in Hsel as (content & _ & _ & Hd & _).
  unfold declared_cutoff in Hd.
  destruct (Re.search cutoff_pattern content) as [m|] eqn:Hs; [|done].
  injection Hd as Hd. apply cutoff_group_digits in Hs as [Hdig Hlen].
  rewrite Hd in Hdig, Hlen. destruct Htarget as [->|Hnd].
  - cbn in Hlen. lia.
  - congruence.
Qed.

Lemma find_matching_report_numeric_target_witness :
  find_matching_report (fun _ _ => None)
    (<[lit "r_20240101_000000.txt" :=
         Content (list_byte_of_string "分析基于数据: 截至 2024001 期")]> ∅)
    [lit "r_20240101_000000.txt"] (lit "2024oo1") = None.
Proof.
  apply find_matching_report_numeric_target. right. vm_compute. reflexivity.
Defined.

(* ====================================================================== *)
(** * Duplex digits *)
(* ====================================================================== *)

Lemma sorted_digits (l : list Z) :
  let r := sorted Z.ltb (remove_dups (List.filter in_digit_range l)) in
  List.filter in_digit_range l ≠ [] →
  r ≠ [] ∧ StronglySorted Z.lt r ∧ Forall is_digit r.
Proof.
  intros r Hne. subst r.
  set (kept := List.filter in_digit_range l) in *.
  pose proof (sorted_perm Z.ltb (remove_dups kept)) as Hperm.
  split; [|split].
  - intros Hnil. rewrite Hnil in Hperm. apply Permutation_nil in Hperm.
    destruct kept as [|x kept']; [done|].
    assert (x ∈ remove_dups (x :: kept')) as Hx
      by (apply elem_of_remove_dups; left).
    rewrite Hperm in Hx. by apply not_elem_of_nil in Hx.
  - pose proof (sorted_by_key (fun z : Z => z) (remove_dups kept)) as Hs.
    change (by_key (fun z : Z => z)) with Z.ltb in Hs.
    apply (sorted_strict_iff (fun z : Z => z)) in Hs as Hiff.
    apply Hiff. rewrite List.map_id.
    apply (Permutation_NoDup (Permutation_sym Hperm)).
    apply NoDup_ListNoDup, NoDup_remove_dups.
  - apply List.Forall_forall. intros d Hd.
    apply (Permutation_in _ Hperm) in Hd.
    rewrite <- list_elem_of_In, elem_of_remove_dups, list_elem_of_In in Hd.
    subst kept. apply filter_In in Hd as [_ Hd]. unfold in_digit_range in Hd.
    unfold is_digit. lia.
Qed.

Lemma add_duplex_invariant (content : pystr) (acc : gmap pystr (list Z))
    (entry : pystr * Re.regex) (P : pystr → list Z → Prop) :
  (∀ l, l ≠ [] → StronglySorted Z.lt l → Forall is_digit l → P entry.1 l) →
  map_Forall P acc → map_Forall P (add_duplex content acc entry).
Proof.
  intros HP Hacc. unfold add_duplex.
  destruct (Re.search entry.2 content) as [m|]; [|done].
  destruct (digits_in (Re.group 1 m)) as [nums|]; [|done].
  destruct (List.filter in_digit_range nums) as [|d kept] eqn:Hk; [done|].
  apply map_Forall_insert_2; [|done].
  rewrite <- Hk.
  assert (Hne : List.filter in_digit_range nums ≠ []) by (by rewrite Hk).
  destruct (sorted_digits nums Hne) as (H1 & H2 & H3). by apply HP.
Qed.

(** X5.  Every entry of the duplex mapping is stored under one of the
    five position labels, and its digits are non-empty, strictly
    ascending (sorted, without repetition) and between 0 and 9. *)
Theorem duplex_digits_sorted (content pos : pystr) (digits : list Z) :
  duplex (parse_recommendations_from_report content) !! pos = Some digits →
  In pos duplex_labels
  ∧ digits ≠ [] ∧ StronglySorted Z.lt digits ∧ Forall is_digit digits.
Proof.
  cbn [duplex parse_recommendations_from_report].
  set (P := fun (pos : pystr) (digits : list Z) =>
              In pos duplex_labels
              ∧ digits ≠ [] ∧ StronglySorted Z.lt digits ∧ Forall is_digit digits).
  assert (Hfold : ∀ entries acc,
            (∀ e, In e entries → In e.1 duplex_labels) →
            map_Forall P acc →
            map_Forall P (fold_left (add_duplex content) entries acc)).
  { induction entries as [|e entries IH]; intros acc Hin Hacc; [done|].
    cbn [fold_left]. apply IH; [intros e' He'; apply Hin; by right|].
    apply add_duplex_invariant; [|done].
    intros l H1 H2 H3. split; [apply Hin; by left|done]. }
  intros Hlook. apply (Hfold duplex_patterns ∅); [| |exact Hlook].
  - intros e He. unfold duplex_labels. by apply in_map.
  - apply map_Forall_empty.
Qed.

Lemma duplex_digits_sorted_witness :
  In (lit "pos1") duplex_labels
  ∧ [1; 3]%Z ≠ [] ∧ StronglySorted Z.lt [1; 3]%Z ∧ Forall is_digit [1; 3]%Z.
Proof.
  apply (duplex_digits_sorted (lit "第一位推荐: [3, 1, 3]") (lit "pos1")).
  vm_compute. reflexivity.
Defined.

(* ====================================================================== *)
(** * Scoring does not depend on the order of the bets *)
(* ====================================================================== *)

Lemma calculate_prize_not_five (recommendations : list (list Z))
    (prize_numbers : list Z) :
  length prize_numbers ≠ 5 →
  calculate_prize recommendations prize_numbers = (0%Z, ∅, []).
Proof.
  intros Hlen. unfold calculate_prize.
  destruct recommendations; [done|]. destruct prize_numbers; [done|].
  destruct (length _ =? 5)%nat eqn:H5; [|done].
  apply Nat.eqb_eq in H5. done.
Qed.

Lemma winning_bets_numbers_from (prize_numbers : list Z) (l : list (list Z))
    (k : nat) :
  List.map snd
    (List.filter (fun b : nat * list Z => bool_decide (b.2 = prize_numbers))
       (combine (seq k (length l)) l))
  = matching_bets prize_numbers l.
Proof.
  revert k. induction l as [|bet l IH]; intros k; [done|].
  cbn [length seq combine List.filter matching_bets snd].
  destruct (bool_decide (bet = prize_numbers)); cbn [List.map snd];
    by rewrite IH.
Qed.

Lemma winning_bets_numbers (prize_numbers : list Z) (l : list (list Z)) :
  List.map snd (winning_bets prize_numbers l) = matching_bets prize_numbers l.
Proof. apply winning_bets_numbers_from. Qed.

Lemma matching_bets_repeat (prize_numbers : list Z) (l : list (list Z)) :
  matching_bets prize_numbers l
  = repeat prize_numbers (length (matching_bets prize_numbers l)).
Proof.
  unfold matching_bets. induction l as [|bet l IH]; [done|]. cbn [List.filter].
  destruct (bool_decide (bet = prize_numbers)) eqn:Hb; [|done].
  apply bool_decide_eq_true in Hb. subst bet. cbn [length repeat]. by f_equal.
Qed.

Lemma matching_bets_perm (prize_numbers : list Z) (l l' : list (list Z)) :
  Permutation l l' →
  matching_bets prize_numbers l = matching_bets prize_numbers l'.
Proof.
  intros Hperm. rewrite (matching_bets_repeat _ l), (matching_bets_repeat _ l').
  f_equal. apply Permutation_length. unfold matching_bets.
  induction Hperm; cbn [List.filter].
  - done.
  - destruct (bool_decide _); [by constructor|done].
  - destruct (bool_decide (x = _)), (bool_decide (y = _)); try done.
    apply perm_swap.
  - by etransitivity.
Qed.

(** X6.  The score depends on the bets only through the number of bets
    equal to the draw: the total and the statistics are 100000 times
    that number and that number, the winning numbers are copies of the
    draw, and reordering the bets changes only the bet numbers of the
    win records. *)
Theorem calculate_prize_order_independent (recommendations recommendations'
    : list (list Z)) (prize_numbers : list Z) :
  Permutation recommendations recommendations' →
  let '(total_prize, prize_stats, winning_details) :=
    calculate_prize recommendations prize_numbers in
  let '(total_prize', prize_stats', winning_details') :=
    calculate_prize recommendations' prize_numbers in
  total_prize' = total_prize ∧ prize_stats' = prize_stats
  ∧ List.map WinRecord.numbers winning_details'
    = List.map WinRecord.numbers winning_details
  ∧ (length prize_numbers = 5 →
       List.map WinRecord.numbers winning_details
       = matching_bets prize_numbers recommendations
       ∧ total_prize
         = (100000
            * Z.of_nat (length (matching_bets prize_numbers recommendations)))%Z).
Proof.
  intros Hperm.
  destruct (decide (length prize_numbers = 5)) as [H5|H5].
  - destruct (decide (recommendations = [])) as [->|Hne].
    + apply Permutation_nil in Hperm. subst recommendations'.
      cbn. repeat split; done.
    + assert (recommendations' ≠ []) as Hne'.
      { intros ->. apply Permutation_sym, Permutation_nil in Hperm. done. }
      rewrite (calculate_prize_nonempty _ _ H5 Hne).
      rewrite (calculate_prize_nonempty _ _ H5 Hne'). cbv zeta.
      assert (Hnum : ∀ l, List.map WinRecord.numbers
                (List.map (fun b : nat * list Z => win_record b.1 b.2)
                   (winning_bets prize_numbers l))
              = matching_bets prize_numbers l).
      { intros l. rewrite List.map_map. cbn [win_record WinRecord.numbers].
        apply winning_bets_numbers. }
      assert (Hlen : ∀ l, length (winning_bets prize_numbers l)
                          = length (matching_bets prize_numbers l)).
      { intros l. by rewrite <- winning_bets_numbers, length_map. }
      rewrite !Hnum, !Hlen, (matching_bets_perm _ _ _ Hperm).
      repeat split; done.
  - rewrite !calculate_prize_not_five by done. repeat split; try done.
Qed.

Lemma calculate_prize_order_independent_witness :
  let '(total_prize, prize_stats, winning_details) :=
    calculate_prize [[1; 2; 3; 4; 5]; [5; 4; 3; 2; 1]]%Z [1; 2; 3; 4; 5]%Z in
  let '(total_prize', prize_stats', winning_details') :=
    calculate_prize [[5; 4; 3; 2; 1]; [1; 2; 3; 4; 5]]%Z [1; 2; 3; 4; 5]%Z in
  total_prize' = total_prize ∧ prize_stats' = prize_stats
  ∧ List.map WinRecord.numbers winning_details'
    = List.map WinRecord.numbers winning_details
  ∧ (length [1; 2; 3; 4; 5]%Z = 5 →
       List.map WinRecord.numbers winning_details
       = matching_bets [1; 2; 3; 4; 5]%Z [[1; 2; 3; 4; 5]; [5; 4; 3; 2; 1]]%Z
       ∧ total_prize
         = (100000
            * Z.of_nat (length (matching_bets [1; 2; 3; 4; 5]%Z
                                  [[1; 2; 3; 4; 5]; [5; 4; 3; 2; 1]]%Z)))%Z).
Proof.
  apply (calculate_prize_order_independent
           [[1; 2; 3; 4; 5]; [5; 4; 3; 2; 1]]%Z
           [[5; 4; 3; 2; 1]; [1; 2; 3; 4; 5]]%Z [1; 2; 3; 4; 5]%Z).
  apply perm_swap.
Defined.

(* ====================================================================== *)
(** * Digits written as a bet are read back *)
(* ====================================================================== *)

Lemma digit_cases (d : Z) :
  is_digit d →
  d = 0%Z ∨ d = 1%Z ∨ d = 2%Z ∨ d = 3%Z ∨ d = 4%Z ∨ d = 5%Z ∨ d = 6%Z
  ∨ d = 7%Z ∨ d = 8%Z ∨ d = 9%Z.
Proof. unfold is_digit. lia. Qed.

Lemma str_of_digit (d : Z) :
  is_digit d →
  digit_values (str_of_int d) = [d]
  ∧ forallb digit_space_comma (str_of_int d) = true
  ∧ str_of_int d ≠ [].
Proof.
  intros Hd. apply digit_cases in Hd.
  repeat destruct Hd as [->|Hd]; try subst d; by vm_compute.
Qed.

Lemma digit_values_app (a b : pystr) :
  digit_values (a ++ b) = digit_values a ++ digit_values b.
Proof. unfold digit_values. apply omap_app. Qed.

Lemma digit_values_separator (sep : pystr) :
  digit_separator sep = true → digit_values sep = [].
Proof.
  unfold digit_separator, digit_values.
  induction sep as [|c sep IH]; [done|]. cbn [forallb].
  intros H. apply andb_prop in H as [Hc Hsep].
  change (omap todecimal (c :: sep))
    with (match todecimal c with
          | Some y => y :: omap todecimal sep
          | None => omap todecimal sep
          end).
  rewrite (IH Hsep).
  destruct (todecimal c) as [v|] eqn:Hv; [|done]. exfalso.
  assert (isdecimal c = true) as Hdec by (unfold isdecimal; by rewrite Hv).
  apply orb_prop in Hc as [Hc|Hc].
  - apply isdecimal_not_isspace in Hdec. congruence.
  - apply N.eqb_eq in Hc. subst c. by vm_compute in Hv.
Qed.

Lemma separator_in_class (sep : pystr) :
  digit_separator sep = true → forallb digit_space_comma sep = true.
Proof.
  unfold digit_separator. induction sep as [|c sep IH]; [done|].
  cbn [forallb]. intros H. apply andb_prop in H as [Hc Hsep].
  rewrite (IH Hsep), andb_true_r. unfold digit_space_comma.
  apply orb_prop in Hc as [Hc|Hc]; rewrite Hc; by rewrite ?orb_true_r.
Qed.

Lemma joined_digits (sep : pystr) (nums : list Z) :
  digit_separator sep = true → Forall is_digit nums →
  let content := join sep (List.map str_of_int nums) in
  digit_values content = nums
  ∧ forallb digit_space_comma content = true
  ∧ (nums ≠ [] → content ≠ []).
Proof.
  intros Hsep Hnums. cbv zeta.
  induction Hnums as [|d nums Hd Hnums IH]; [done|].
  destruct (str_of_digit d Hd) as (Hv & Hc & Hne).
  destruct nums as [|d' nums].
  - cbn [List.map join]. done.
  - change (join sep (List.map str_of_int (d :: d' :: nums)))
      with (str_of_int d ++ sep ++ join sep (List.map str_of_int (d' :: nums))).
    destruct IH as (IHv & IHc & _).
    rewrite !digit_values_app, Hv, (digit_values_separator sep Hsep), IHv.
    rewrite !forallb_app, Hc, (separator_in_class sep Hsep), IHc.
    split; [done|]. split; [done|]. intros _. by destruct (str_of_int d).
Qed.

(** X7.  Five digits written on a bet line, separated by commas, white
    space or nothing, are extracted as exactly these five numbers, at
    the position of the line among the bets of the report. *)
Theorem written_bet_extracted (pre sp1 idx sp2 sep post : pystr)
    (nums : list Z) :
  forallb isspace sp1 = true → forallb isdecimal idx = true → idx ≠ [] →
  forallb isspace sp2 = true → digit_separator sep = true →
  length nums = 5 → Forall is_digit nums →
  single (parse_recommendations_from_report
            (pre ++ bet_line sp1 idx sp2 (join sep (List.map str_of_int nums))
                 ++ post))
  = single (parse_recommendations_from_report pre)
    ++ nums :: single (parse_recommendations_from_report post).
Proof.
  intros Hsp1 Hidx Hidx' Hsp2 Hsep Hlen Hnums.
  destruct (joined_digits sep nums Hsep Hnums) as (Hv & Hc & Hne).
  rewrite single_around_bet_line; [|done..|].
  - unfold five_digits. rewrite Hv, Hlen. done.
  - apply Hne. by destruct nums.
Qed.

Lemma written_bet_extracted_witness :
  single (parse_recommendations_from_report
            (lit "x" ++ bet_line (lit " ") (lit "12") []
                          (join [] (List.map str_of_int [7; 0; 7; 0; 7]%Z))
                 ++ lit "y"))
  = single (parse_recommendations_from_report (lit "x"))
    ++ [7; 0; 7; 0; 7]%Z :: single (parse_recommendations_from_report (lit "y")).
Proof.
  apply (written_bet_extracted (lit "x") (lit " ") (lit "12") [] [] (lit "y")
           [7; 0; 7; 0; 7]%Z);
    try (vm_compute; reflexivity).
  - vm_compute. discriminate.
  - unfold is_digit. repeat constructor; lia.
Defined.

(* ====================================================================== *)
(** * Ledger: the header of the error logs is read back as an error log *)
(* ====================================================================== *)

Lemma split_join_no_equals (parts : list pystr) :
  parts ≠ [] → Forall no_equals parts →
  split DELIMITER (join DELIMITER parts) = parts.
Proof.
  unfold split. induction parts as [|p parts IH]; [done|].
  intros _ Hparts. apply Forall_cons in Hparts as [Hp Hparts].
  destruct parts as [|q parts].
  - cbn [join]. rewrite <- (app_nil_r p) at 1.
    rewrite split_aux_part by done.
    cbn. by rewrite app_nil_r, rev_involutive.
  - change (join DELIMITER (p :: q :: parts))
      with (p ++ DELIMITER ++ join DELIMITER (q :: parts)).
    rewrite split_aux_part; [| done | by cbn].
    rewrite app_nil_r, split_aux_delimiter, rev_involutive.
    f_equal. by apply IH.
Qed.

Lemma plain_no_equals (p : pystr) : plain p = true → no_equals p.
Proof.
  intros Hp. unfold plain in Hp. rewrite forallb_forall in Hp.
  apply List.Forall_forall. intros c Hc ->. specialize (Hp _ Hc). done.
Qed.

Lemma filter_all {A : Type} (f : A → bool) (l : list A) :
  Forall (fun x => f x = true) l → List.filter f l = l.
Proof.
  induction 1 as [|x l Hx _ IH]; [done|]. cbn [List.filter]. by rewrite Hx, IH.
Qed.

Lemma filter_none {A : Type} (f : A → bool) (l : list A) :
  Forall (fun x => f x = false) l → List.filter f l = [].
Proof.
  induction 1 as [|x l Hx _ IH]; [done|]. cbn [List.filter]. by rewrite Hx, IH.
Qed.

(** What a call reads from a file laid out by an earlier call. *)
Lemma reread_layout (normals errors : list pystr) :
  Forall normal_part normals → Forall error_part errors →
  let sections := split DELIMITER (join DELIMITER (layout normals errors)) in
  List.filter is_normal_section sections = normals
  ∧ List.filter is_error_section sections = error_logs_read errors.
Proof.
  intros Hn He. cbv zeta.
  assert (Hnn : List.filter is_normal_section normals = normals).
  { apply filter_all. eapply Forall_impl; [exact Hn|]. by intros p [_ ?]. }
  assert (Hne : List.filter is_error_section normals = []).
  { apply filter_none. eapply Forall_impl; [exact Hn|].
    intros p [? _]. by apply plain_not_error. }
  assert (Hen : List.filter is_normal_section errors = []).
  { apply filter_none. eapply Forall_impl; [exact He|].
    intros p [_ Hp]. unfold is_normal_section. by rewrite Hp. }
  assert (Hee : List.filter is_error_section errors = errors).
  { apply filter_all. eapply Forall_impl; [exact He|]. by intros p [_ ?]. }
  destruct (decide (layout normals errors = [])) as [Hnil|Hnonnil].
  { rewrite Hnil. unfold layout in Hnil.
    destruct normals; [|done]. destruct errors; [|done]. by vm_compute. }
  rewrite split_join_no_equals; [|done|].
  - unfold layout. rewrite !List.filter_app, Hnn, Hne.
    destruct errors as [|e errors]; [by rewrite app_nil_r|].
    rewrite !List.filter_app.
    change (ERROR_LOG_HEADER :: e :: errors)
      with ([ERROR_LOG_HEADER] ++ e :: errors).
    rewrite !List.filter_app, Hen, Hee.
    assert (List.filter is_normal_section [ERROR_LOG_HEADER] = []) as ->
      by (by vm_compute).
    assert (List.filter is_error_section [ERROR_LOG_HEADER] = [ERROR_LOG_HEADER])
      as -> by (by vm_compute).
    destruct normals; cbn [List.filter app]; [done|].
    assert (is_normal_section [] = false) as -> by (by vm_compute).
    assert (is_error_section [] = false) as -> by (by vm_compute).
    cbn [app]. by rewrite app_nil_r.
  - unfold layout. apply Forall_app. split.
    + eapply Forall_impl; [exact Hn|]. intros p [? _]. by apply plain_no_equals.
    + destruct errors as [|e errors]; [done|].
      apply Forall_app. split; [destruct normals; by repeat constructor|].
      constructor.
      * unfold no_equals. apply List.Forall_forall.
        intros c Hc. vm_compute in Hc. intros ->.
        repeat destruct Hc as [Hc|Hc]; done.
      * eapply Forall_impl; [exact He|]. by intros p [? _].
Qed.

(** X8.  A call that reads a file written by an earlier call finds the
    normal records as they were written, and, when the file holds error
    logs, the header line of the error logs as one more error log in
    front of them.  So with nothing to add a file without error logs is
    rewritten unchanged, while every rewrite of a file with error logs
    stores one more header among them. *)
Theorem manage_report_reread (normals errors : list pystr)
    (now_entry now_error : pystr) (new_entry : option entry_data)
    (new_error : option pystr) :
  Forall normal_part normals → Forall error_part errors →
  let result :=
    manage_report (join DELIMITER (layout normals errors)) now_entry now_error
      new_entry new_error in
  normal_records result
  = take MAX_NORMAL_RECORDS (new_normal_records now_entry new_entry ++ normals)
  ∧ error_logs result
    = take MAX_ERROR_LOGS
        (new_error_logs now_error new_error ++ error_logs_read errors)
  ∧ (new_normal_records now_entry new_entry = [] →
     new_error_logs now_error new_error = [] →
     length normals ≤ MAX_NORMAL_RECORDS → errors = [] →
     written result = join DELIMITER (layout normals errors)).
Proof.
  intros Hn He. cbv zeta. rewrite manage_report_spec. cbv zeta.
  destruct (reread_layout normals errors Hn He) as [-> ->].
  cbn [normal_records error_logs written]. repeat split; try done.
  intros -> -> Hlen ->. cbn [app error_logs_read].
  rewrite take_ge by done. by rewrite take_nil.
Qed.

Lemma manage_report_reread_witness :
  let result :=
    manage_report
      (join DELIMITER (layout [lit "评估时间: t"] [lit "错误时间: t"]))
      [] [] None None in
  normal_records result
  = take MAX_NORMAL_RECORDS (new_normal_records [] None ++ [lit "评估时间: t"])
  ∧ error_logs result
    = take MAX_ERROR_LOGS
        (new_error_logs [] None ++ error_logs_read [lit "错误时间: t"])
  ∧ (new_normal_records [] None = [] →
     new_error_logs [] None = [] →
     length [lit "评估时间: t"] ≤ MAX_NORMAL_RECORDS → [lit "错误时间: t"] = [] →
     written result
     = join DELIMITER (layout [lit "评估时间: t"] [lit "错误时间: t"])).
Proof.
  apply (manage_report_reread [lit "评估时间: t"] [lit "错误时间: t"]).
  - constructor; [|constructor]. split; vm_compute; reflexivity.
  - constructor; [|constructor]. split; [|vm_compute; reflexivity].
    unfold no_equals. vm_compute. repeat constructor; discriminate.
Defined.

(* ====================================================================== *)
(** * Ledger: a run of failures *)
(* ====================================================================== *)

Lemma no_equals_app (a b : pystr) :
  no_equals a → no_equals b → no_equals (a ++ b).
Proof. intros Ha Hb. apply Forall_app. by split. Qed.

Lemma no_equals_closed (s : pystr) :
  forallb (fun c => negb (c =? 61)%N) s = true → no_equals s.
Proof.
  intros H. rewrite forallb_forall in H. apply List.Forall_forall.
  intros c Hc ->. specialize (H _ Hc). done.
Qed.

Lemma header_error_part : error_part ERROR_LOG_HEADER.
Proof. split; [by apply no_equals_closed|by vm_compute]. Qed.

Lemma render_error_part (now msg : pystr) :
  no_equals now → no_equals msg → error_part (render_error now msg).
Proof.
  intros Hnow Hmsg. split.
  - unfold render_error.
    repeat apply no_equals_app; try done; by apply no_equals_closed.
  - unfold is_error_section. apply orb_true_iff. right.
    apply contains_startswith. unfold render_error.
    assert (lit "错误时间: " = CUOWU_MARKER ++ lit "时间: ") as ->
      by (by vm_compute).
    rewrite <- app_assoc. apply startswith_app.
Qed.

Lemma log_error_parts (errors : list pystr) (failure : pystr * pystr) :
  loggable failure → Forall error_part errors →
  Forall error_part (log_error errors failure).
Proof.
  intros (Hnow & Hmsg & _) He. unfold log_error. apply Forall_take.
  constructor; [by apply render_error_part|].
  destruct errors; [done|]. constructor; [apply header_error_part|done].
Qed.

(** One failing call on a file laid out by an earlier call. *)
Lemma manage_report_failure (normals errors : list pystr) (now msg : pystr) :
  Forall normal_part normals → length normals ≤ MAX_NORMAL_RECORDS →
  Forall error_part errors → loggable (now, msg) →
  manage_report (join DELIMITER (layout normals errors)) [] now None (Some msg)
  = {| normal_records := normals;
       error_logs := log_error errors (now, msg);
       written :=
         join DELIMITER (layout normals (log_error errors (now, msg))) |}.
Proof.
  intros Hn Hlen He (_ & _ & Hmsg). rewrite manage_report_spec. cbv zeta.
  destruct (reread_layout normals errors Hn He) as [-> ->].
  cbn [fst snd] in Hmsg. destruct msg as [|c msg]; [done|].
  cbn [new_normal_records new_error_logs app fst snd].
  rewrite take_ge by done. done.
Qed.

Lemma log_all_layout (failures : list (pystr * pystr))
    (normals errors : list pystr) :
  Forall normal_part normals → length normals ≤ MAX_NORMAL_RECORDS →
  Forall error_part errors → Forall loggable failures →
  log_all failures (join DELIMITER (layout normals errors))
  = join DELIMITER (layout normals (fold_left log_error failures errors)).
Proof.
  intros Hn Hlen He Hf. revert errors He.
  induction Hf as [|[now msg] failures Hw Hf IH]; intros errors He; [done|].
  cbn [log_all fold_left].
  rewrite (manage_report_failure normals errors now msg) by done.
  cbn [written]. apply IH. by apply log_error_parts.
Qed.

Lemma log_error_closed (failures : list (pystr * pystr)) :
  fold_left log_error failures []
  = take MAX_ERROR_LOGS
      (interleave ERROR_LOG_HEADER
         (rev (List.map (fun w => render_error w.1 w.2) failures))).
Proof.
  induction failures as [|w failures IH] using rev_ind; [done|].
  rewrite fold_left_app, IH, List.map_app, rev_app_distr.
  cbn [fold_left List.map rev app]. unfold log_error, MAX_ERROR_LOGS.
  destruct (rev (List.map _ failures)) as [|r R]; [done|].
  set (I := interleave ERROR_LOG_HEADER (r :: R)).
  assert (take 20 I = r :: take 19 (tl I)) as Htake.
  { subst I. by destruct R. }
  change (interleave ERROR_LOG_HEADER (render_error w.1 w.2 :: r :: R))
    with (render_error w.1 w.2 :: ERROR_LOG_HEADER :: I).
  rewrite Htake. cbn [error_logs_read]. rewrite <- Htake.
  cbn [take]. do 2 f_equal. rewrite take_take. f_equal.
Qed.

Lemma take_interleave {A : Type} (x : A) (n : nat) (l : list A) :
  n < length l →
  take (2 * n) (interleave x l) = flat_map (fun a => [a; x]) (take n l).
Proof.
  revert l. induction n as [|n IH]; intros l Hlen; [by rewrite take_0|].
  destruct l as [|a [|b l]]; cbn [length] in Hlen; [lia..|].
  replace (2 * S n) with (S (S (2 * n))) by lia.
  change (interleave x (a :: b :: l)) with (a :: x :: interleave x (b :: l)).
  cbn [take flat_map app]. do 2 f_equal.
  apply IH. cbn [length]. lia.
Qed.

(** X9.  After a run of failures the error list is the rendered
    failures, newest first, with the header line between each two of
    them, cut to twenty parts: every rewrite reads the header back as an
    error log.  So from the eleventh failure on the list holds the ten
    newest failures, each followed by a header, and older failures are
    gone although the bound is twenty.  The normal records are kept. *)
Theorem error_logs_after_failures (normals : list pystr)
    (failures : list (pystr * pystr)) (now msg : pystr) :
  Forall normal_part normals → length normals ≤ MAX_NORMAL_RECORDS →
  Forall loggable (failures ++ [(now, msg)]) →
  let result :=
    manage_report (log_all failures (join DELIMITER normals)) [] now None
      (Some msg) in
  let newest_first :=
    rev (List.map (fun w => render_error w.1 w.2) (failures ++ [(now, msg)])) in
  normal_records result = normals
  ∧ error_logs result
    = take MAX_ERROR_LOGS (interleave ERROR_LOG_HEADER newest_first)
  ∧ (10 ≤ length failures →
     error_logs result
     = flat_map (fun e => [e; ERROR_LOG_HEADER]) (take 10 newest_first)).
Proof.
  intros Hn Hlen Hall. cbv zeta.
  apply Forall_app in Hall as Hboth. destruct Hboth as [Hf Hw].
  apply Forall_cons in Hw as [Hw _].
  assert (join DELIMITER normals = join DELIMITER (layout normals [])) as ->.
  { unfold layout. by rewrite app_nil_r. }
  rewrite log_all_layout by done.
  assert (Forall error_part (fold_left log_error failures [])) as He.
  { clear Hall Hw. generalize (@nil pystr) (Forall_nil_2 error_part).
    induction Hf as [|w failures Hw Hf IH]; intros errors He; [done|].
    cbn [fold_left]. apply IH. by apply log_error_parts. }
  rewrite (manage_report_failure normals _ now msg) by done.
  cbn [normal_records error_logs]. split; [done|].
  assert (log_error (fold_left log_error failures []) (now, msg)
          = fold_left log_error (failures ++ [(now, msg)]) []) as ->
    by (by rewrite fold_left_app).
  rewrite log_error_closed. split; [done|].
  intros Hten. unfold MAX_ERROR_LOGS. change 20 with (2 * 10).
  apply take_interleave. rewrite length_rev, length_map, length_app.
  cbn [length]. lia.
Qed.

Lemma error_logs_after_failures_witness :
  let result :=
    manage_report (log_all [(lit "t1", lit "a")] (join DELIMITER [])) []
      (lit "t2") None (Some (lit "b")) in
  error_logs result
  = [ render_error (lit "t2") (lit "b"); ERROR_LOG_HEADER;
      render_error (lit "t1") (lit "a") ].
Proof.
  destruct (error_logs_after_failures [] [(lit "t1", lit "a")] (lit "t2")
              (lit "b")) as (_ & Hlogs & _).
  - constructor.
  - cbn. lia.
  - repeat constructor; cbn [fst snd];
      try (apply no_equals_closed; vm_compute; reflexivity);
      vm_compute; discriminate.
  - exact Hlogs.
Defined.

(* ====================================================================== *)
(** * The main process *)
(* ====================================================================== *)

Lemma last_in {A : Type} (l : list A) (x : A) : last l = Some x → In x l.
Proof.
  induction l as [|a l IH]; [done|]. rewrite last_cons.
  destruct (last l) as [y|]; intros [= ->]; [right; by apply IH|by left].
Qed.

(** A listed period is a run of four to seven decimal digits, and its
    record holds the five digits of a well-formed row. *)
Lemma loader_listed_period (csv_content : pystr)
    (period_map : gmap pystr draw_record) (periods_list : list pystr)
    (p : pystr) :
  get_period_data_from_csv csv_content = Some (period_map, periods_list) →
  In p periods_list →
  forallb isdecimal p = true ∧ 4 ≤ length p ≤ 7
  ∧ ∃ draw, period_map !! p = Some {| numbers := draw |}
            ∧ length draw = 5 ∧ Forall is_digit draw.
Proof.
  intros Hget Hin.
  apply loader_rows_spec in Hget as (header & rows & Hrows & Hlookup & Hcount).
  apply (count_occ_In pystr_eq_dec) in Hin. rewrite Hcount in Hin.
  specialize (Hlookup p).
  destruct (last (rows_of_period p rows)) as [row|] eqn:Hlast.
  - apply last_in in Hlast. unfold rows_of_period in Hlast.
    apply filter_In in Hlast as [Hrow Hacc].
    apply andb_prop in Hacc as [Hacc Hp]. apply bool_decide_eq_true in Hp.
    destruct (table_period_digits _ _ _ _ Hrows Hrow Hacc) as [Hd Hl].
    rewrite Hp in Hd, Hl. split; [done|]. split; [done|].
    exists (row_numbers row). split; [done|].
    by apply row_numbers_digits.
  - destruct (rows_of_period p rows) as [|r rs]; [cbn in Hin; lia|].
    rewrite last_cons in Hlast. by destruct (last rs).
Qed.

Lemma loader_nonempty (csv_content : pystr)
    (period_map : gmap pystr draw_record) (periods_list : list pystr) :
  get_period_data_from_csv csv_content = Some (period_map, periods_list) →
  period_map ≠ ∅ ∧ periods_list ≠ [].
Proof.
  intros Hget.
  assert (period_map ≠ ∅) as Hm.
  { unfold get_period_data_from_csv in Hget.
    destruct csv_content; [done|].
    destruct (Csv.reader_rows _) as [[|header rows]|]; [done| |done].
    destruct (load_rows rows) as [m l].
    destruct (bool_decide (m = ∅)) eqn:Hd; [done|].
    apply bool_decide_eq_false in Hd. by injection Hget as <- _. }
  split; [done|]. intros ->.
  apply loader_rows_spec in Hget as (header & rows & Hrows & Hlookup & Hcount).
  apply Hm. apply map_eq. intros p. rewrite Hlookup, lookup_empty.
  specialize (Hcount p). cbn in Hcount.
  by destruct (rows_of_period p rows).
Qed.

Lemma last_two_ordered (csv_content : pystr)
    (period_map : gmap pystr draw_record) (earlier : list pystr)
    (cutoff eval : pystr) :
  get_period_data_from_csv csv_content
  = Some (period_map, earlier ++ [cutoff; eval]) →
  period_le cutoff eval.
Proof.
  intros Hget.
  apply get_period_data_rows in Hget as (header & rows & _ & _ & Hps).
  pose proof (sorted_by_key period_key (load_rows rows).2) as Hs.
  rewrite <- Hps in Hs. clear Hps.
  induction earlier as [|p earlier IH].
  - apply StronglySorted_inv in Hs as [_ Hs].
    by apply Forall_cons in Hs as [? _].
  - apply StronglySorted_inv in Hs as [Hs _]. by apply IH.
Qed.

Lemma index_from_end_two {A : Type} (l : list A) :
  2 ≤ length l →
  ∃ front a b, l = front ++ [a; b]
               ∧ index_from_end l 1 = Some b ∧ index_from_end l 2 = Some a.
Proof.
  intros Hlen.
  destruct (rev l) as [|b [|a r]] eqn:Hrev.
  - apply (f_equal (@length A)) in Hrev. rewrite length_rev in Hrev.
    cbn in Hrev. lia.
  - apply (f_equal (@length A)) in Hrev. rewrite length_rev in Hrev.
    cbn in Hrev. lia.
  - assert (l = rev r ++ [a; b]) as ->.
    { rewrite <- (rev_involutive l), Hrev. cbn [rev]. by rewrite <- app_assoc. }
    exists (rev r), a, b. split; [done|]. unfold index_from_end.
    rewrite length_app. cbn [length].
    replace (1 <=? length (rev r) + 2)%nat with true
      by (symmetry; apply Nat.leb_le; lia).
    replace (2 <=? length (rev r) + 2)%nat with true
      by (symmetry; apply Nat.leb_le; lia).
    split.
    + rewrite lookup_app_r by lia.
      by replace (length (rev r) + 2 - 1 - length (rev r)) with 1 by lia.
    + rewrite lookup_app_r by lia.
      by replace (length (rev r) + 2 - 2 - length (rev r)) with 0 by lia.
Qed.

Section MainFacts.
Variable gbk_table : N → N → option N.
Variable fs : filesystem.

(** The report found reads as a non-empty text that declares the
    cutoff, and its path is one of those listed, and not empty. *)
Lemma find_matching_report_readable (found : list pystr)
    (target_period file_path : pystr) :
  find_matching_report gbk_table fs found target_period = Some file_path →
  In file_path found ∧ file_path ≠ []
  ∧ ∃ c content,
      robust_file_read gbk_table fs file_path = Some (c :: content)
      ∧ declared_cutoff (c :: content) = Some target_period.
Proof.
  rewrite find_matching_report_head.
  destruct (sorted_reverse _ _) as [|[ts p] t] eqn:Hs; [done|].
  cbn [head fmap option_fmap option_map snd]. intros [= ->].
  apply latest_candidate in Hs as [Hin _].
  apply in_candidates in Hin as [Hin Hsel]. split; [done|].
  apply selectable_iff in Hsel as (content & Hread & Hne & Hd & Hts).
  split; [intros ->; by vm_compute in Hts|].
  destruct content as [|c content]; [done|]. by exists c, content.
Qed.

Lemma find_matching_report_perm (found found' : list pystr)
    (target_period : pystr) :
  Permutation found found' →
  find_matching_report gbk_table fs found' target_period
  = find_matching_report gbk_table fs found target_period.
Proof.
  intros Hperm. rewrite !find_matching_report_head. f_equal.
  apply latest_candidate_unique. apply Permutation_sym.
  by apply omap_Permutation.
Qed.

Lemma evaluate_failures_cause (found : list pystr) (msg : pystr) :
  evaluate gbk_table fs found = inl msg →
  failure_cause gbk_table fs found msg.
Proof.
  unfold evaluate, failure_cause.
  destruct (robust_file_read gbk_table fs CSV_FILE) as [[|c csv]|] eqn:Hcsv;
    [intros [= <-]; left; split; [by vm_compute|by right]
    | | intros [= <-]; left; split; [by vm_compute|by left]].
  intros Heval. right. exists (c :: csv). split; [done|].
  destruct (get_period_data_from_csv (c :: csv)) as [[m ps]|] eqn:Hget;
    [|injection Heval as <-; by left].
  destruct (loader_nonempty _ _ _ Hget) as [Hm Hps].
  rewrite (bool_decide_eq_false_2 _ Hm), (bool_decide_eq_false_2 _ Hps) in Heval.
  cbn [orb] in Heval.
  destruct (length ps <? 2)%nat eqn:Hlen.
  { injection Heval as <-. right. left. split; [done|].
    apply Nat.ltb_lt in Hlen. destruct ps as [|p [|q ps]]; [done| |cbn in Hlen; lia].
    by exists m, p. }
  apply Nat.ltb_ge in Hlen.
  destruct (index_from_end_two ps Hlen) as (front & cutoff & eval & -> & H1 & H2).
  rewrite H1, H2 in Heval. right. right. exists m, front, cutoff, eval.
  split; [done|].
  destruct (find_matching_report gbk_table fs found cutoff) as [path|] eqn:Hfind;
    [|injection Heval as <-; by left].
  destruct (find_matching_report_readable _ _ _ Hfind)
    as (_ & Hpath & c' & content & Hread & _).
  destruct path as [|pc path]; [done|]. rewrite Hread in Heval.
  destruct (single (parse_recommendations_from_report (c' :: content)))
    as [|bet recs] eqn:Hrecs.
  { injection Heval as <-. right. split; [done|].
    by exists (pc :: path), (c' :: content). }
  assert (In eval (front ++ [cutoff; eval])) as Hin
    by (apply in_or_app; right; right; by left).
  destruct (loader_listed_period _ _ _ _ Hget Hin)
    as (_ & _ & draw & Hdraw & _).
  rewrite Hdraw in Heval.
  destruct (calculate_prize (bet :: recs) (numbers {| numbers := draw |}))
    as [[? ?] ?]. done.
Qed.

(** Of the reports that declare the cutoff and carry the same time
    stamp, the one found has the greatest path. *)
Lemma find_matching_report_greatest (found : list pystr)
    (target_period file_path p : pystr) (ts : DateTime.datetime) :
  find_matching_report gbk_table fs found target_period = Some file_path →
  selectable gbk_table fs target_period file_path = Some ts →
  In p found → selectable gbk_table fs target_period p = Some ts →
  Py.ltb file_path p = false.
Proof.
  rewrite find_matching_report_head.
  destruct (sorted_reverse _ _) as [|[ts' q] t] eqn:Hs; [done|].
  cbn [head fmap option_fmap option_map snd]. intros [= ->] Hsel Hp Hsel'.
  apply latest_candidate in Hs as [Hin Hmax].
  apply in_candidates in Hin as [_ Hts]. rewrite Hsel in Hts.
  injection Hts as <-.
  assert (Hc : In (ts, p) (omap (candidate_of gbk_table fs target_period) found))
    by (by apply in_candidates).
  specialize (Hmax _ Hc).
  destruct (Py.ltb file_path p) eqn:Hlt; [|done].
  assert (candidate_ltb (ts, file_path) (ts, p) = true) as Habs
    by (apply candidate_ltb_cases; right; by split).
  congruence.
Qed.

(** X10.  A run can fail in five ways only, each with its own message:
    the table cannot be read or is empty; it has no well-formed row;
    it has a single well-formed row; no report declares the period
    before the last as its cutoff; the report found has no bet.  The
    other exits of the code are never taken: the report that was found
    is always read again with success, the two last periods always
    exist, and the evaluation period always has a record. *)
Theorem evaluate_failures (found : list pystr) (msg : pystr) :
  evaluate gbk_table fs found = inl msg →
  failure_cause gbk_table fs found msg.
Proof. apply evaluate_failures_cause. Qed.

End MainFacts.

Lemma evaluate_failures_witness :
  failure_cause (fun _ _ => None) ∅ [] (lit "无法读取CSV文件: pl5.csv").
Proof.
  apply (evaluate_failures (fun _ _ => None) ∅ []). vm_compute. reflexivity.
Defined.

Section RunFacts.
Variable gbk_table : N → N → option N.
Variable fs : filesystem.

Lemma evaluate_entry_run (found : list pystr) (e : entry_data) :
  evaluate gbk_table fs found = inr e → run_of gbk_table fs found e.
Proof.
  unfold evaluate, run_of.
  destruct (robust_file_read gbk_table fs CSV_FILE) as [[|c csv]|] eqn:Hcsv;
    [done| |done].
  destruct (get_period_data_from_csv (c :: csv)) as [[m ps]|] eqn:Hget; [|done].
  destruct (loader_nonempty _ _ _ Hget) as [Hm Hps].
  rewrite (bool_decide_eq_false_2 _ Hm), (bool_decide_eq_false_2 _ Hps).
  cbn [orb].
  destruct (length ps <? 2)%nat eqn:Hlen; [done|].
  apply Nat.ltb_ge in Hlen.
  destruct (index_from_end_two ps Hlen) as (front & cutoff & eval & -> & H1 & H2).
  rewrite H1, H2.
  destruct (find_matching_report gbk_table fs found cutoff) as [path|] eqn:Hfind;
    [|done].
  destruct (find_matching_report_readable _ _ _ _ _ Hfind)
    as (_ & Hpath & c' & content & Hread & Hcut).
  destruct path as [|pc path]; [done|]. rewrite Hread.
  destruct (single (parse_recommendations_from_report (c' :: content)))
    as [|bet recs] eqn:Hrecs; [done|].
  assert (In eval (front ++ [cutoff; eval])) as Hin
    by (apply in_or_app; right; right; by left).
  destruct (loader_listed_period _ _ _ _ Hget Hin)
    as (Hdig & _ & draw & Hdraw & Hlen5 & Hdigits).
  rewrite Hdraw. cbn [numbers].
  rewrite (calculate_prize_nonempty _ _ Hlen5) by done. cbv zeta.
  intros [= <-].
  exists (c :: csv), m, front, cutoff, eval, (pc :: path), (c' :: content), draw.
  rewrite Hrecs. repeat split; try done; [by apply (last_two_ordered _ _ _ _ _ Hget)|].
  unfold entry_of. rewrite length_map.
  assert (length (winning_bets draw (bet :: recs))
          = length (matching_bets draw (bet :: recs))) as Hw
    by (by rewrite <- winning_bets_numbers, length_map).
  by rewrite Hw.
Qed.

(** X11.  A run that succeeds has read the table, taken its last period
    as the one to evaluate and the period before it as the cutoff, found
    a report that declares this cutoff, and scored the bets of the
    report against the five digits recorded for the last period.  Its
    entry counts the bets, of which there is at least one, and the bets
    equal to the draw, and the total is 100000 for each of these. *)
Theorem evaluate_entry (found : list pystr) (e : entry_data) :
  evaluate gbk_table fs found = inr e → run_of gbk_table fs found e.
Proof. apply evaluate_entry_run. Qed.





(** X15.  When several reports that declare the cutoff carry the same
    time stamp in their names, the one found is the one whose path is
    greatest in the order of strings. *)
Theorem find_matching_report_tie (found : list pystr)
    (target_period file_path p : pystr) (ts : DateTime.datetime) :
  find_matching_report gbk_table fs found target_period = Some file_path →
  selectable gbk_table fs target_period file_path = Some ts →
  In p found → selectable gbk_table fs target_period p = Some ts →
  Py.ltb file_path p = false ∧ (p ≠ file_path → Py.ltb p file_path = true).
Proof.
  intros Hfind Hsel Hp Hsel'.
  pose proof (find_matching_report_greatest _ _ _ _ _ _ _ Hfind Hsel Hp Hsel')
    as Hge.
  split; [done|]. intros Hne.
  destruct (str_ltb_trichotomy p file_path) as [?|[?|?]]; [done|done|congruence].
Qed.

(** X13.  The outcome of a run does not depend on the order in which
    the directory lists the reports. *)
Theorem main_process_listing_order (found found' : list pystr)
    (report_path now : pystr) :
  Permutation found found' →
  main_process gbk_table fs found' report_path now
  = main_process gbk_table fs found report_path now.
Proof.
  intros Hperm. unfold main_process.
  assert (evaluate gbk_table fs found' = evaluate gbk_table fs found) as ->;
    [|done].
  unfold evaluate.
  destruct (robust_file_read gbk_table fs CSV_FILE) as [[|c csv]|]; try done.
  destruct (get_period_data_from_csv (c :: csv)) as [[m ps]|]; [|done].
  destruct (_ || _); [done|]. destruct (length ps <? 2)%nat; [done|].
  destruct (index_from_end ps 1); [|done].
  destruct (index_from_end ps 2) as [cutoff|]; [|done].
  by rewrite (find_matching_report_perm _ _ _ _ cutoff Hperm).
Qed.

End RunFacts.


Lemma evaluate_entry_witness :
  run_of (fun _ _ => None)
    {[ lit "pl5.csv" :=
         Content (list_byte_of_string "period,n1,n2,n3,n4,n5
25001,1,2,3,4,5
25002,7,7,7,7,7");
       lit "pl5_analysis_output_20250101_120000.txt" :=
         Content (list_byte_of_string "分析基于数据: 截至 25001 期
注 1: [7, 7, 7, 7, 7]
注 2: [1, 2, 3, 4, 5]") ]}
    [lit "pl5_analysis_output_20250101_120000.txt"]
    (entry_of (lit "25002") [7; 7; 7; 7; 7]%Z
       [[7; 7; 7; 7; 7]; [1; 2; 3; 4; 5]]%Z).
Proof.
  apply (evaluate_entry (fun _ _ => None)). vm_compute. reflexivity.
Defined.

Lemma find_matching_report_tie_witness :
  Py.ltb (lit "b_20250101_000000.txt") (lit "a_20250101_000000.txt") = false
  ∧ (lit "a_20250101_000000.txt" ≠ lit "b_20250101_000000.txt" →
     Py.ltb (lit "a_20250101_000000.txt") (lit "b_20250101_000000.txt") = true).
Proof.
  apply (find_matching_report_tie (fun _ _ => None)
           {[ lit "a_20250101_000000.txt" :=
                Content (list_byte_of_string "分析基于数据: 截至 25001 期");
              lit "b_20250101_000000.txt" :=
                Content (list_byte_of_string "分析基于数据: 截至 25001 期") ]}
           [lit "b_20250101_000000.txt"; lit "a_20250101_000000.txt"]
           (lit "25001") (lit "b_20250101_000000.txt")
           (lit "a_20250101_000000.txt")
           {| DateTime.year := 2025; DateTime.month := 1; DateTime.day := 1;
              DateTime.hour := 0; DateTime.minute := 0; DateTime.second := 0 |});
    try (vm_compute; reflexivity).
  right. left. vm_compute. reflexivity.
Defined.

Lemma main_process_listing_order_witness :
  main_process (fun _ _ => None) ∅ [lit "b"; lit "a"] [] []
  = main_process (fun _ _ => None) ∅ [lit "a"; lit "b"] [] [].
Proof.
  apply (main_process_listing_order (fun _ _ => None) ∅ [lit "a"; lit "b"]
           [lit "b"; lit "a"]).
  apply perm_swap.
Defined.

(* ====================================================================== *)
(** * Formatting the wins *)
(* ====================================================================== *)

Ltac head_clash H :=
  apply (f_equal (hd 0%N)) in H; vm_compute in H; discriminate H.

Lemma format_detail_not_regret (details : list WinRecord.t) :
  ¬ In REGRET_LINE (List.map format_detail details).
Proof.
  intros H. apply in_map_iff in H as (d & H & _). unfold format_detail in H.
  head_clash H.
Qed.

Lemma format_duplex_not_regret (duplex_data : list (pystr * list Z)) :
  ¬ In REGRET_LINE (List.map format_duplex duplex_data).
Proof.
  intros H. apply in_map_iff in H as (d & H & _). unfold format_duplex in H.
  head_clash H.
Qed.

Lemma format_winning_details_regret (winning_details : list WinRecord.t)
    (prize_numbers : list Z) (duplex_data : list (pystr * list Z))
    (target_period : pystr) :
  In REGRET_LINE
    (format_winning_details winning_details prize_numbers duplex_data
       target_period)
  ↔ winning_details = [].
Proof.
  unfold format_winning_details. split.
  - intros H. destruct winning_details as [|d ds]; [done|]. exfalso.
    assert (Hduplex : ¬ In REGRET_LINE
                        ([DUPLEX_HEADER] ++ List.map format_duplex duplex_data)).
    { intros Hd. apply in_app_or in Hd as [[Hd|[]]|Hd]; [head_clash Hd|].
      by apply format_duplex_not_regret in Hd. }
    assert (Hwins : ¬ In REGRET_LINE
                      ([lit "恭喜：共有 "
                        ++ str_of_int (Z.of_nat (length (d :: ds)))
                        ++ lit " 注中奖"]
                       ++ List.map format_detail (d :: ds))).
    { intros Hw. apply in_app_or in Hw as [[Hw|[]]|Hw]; [head_clash Hw|].
      by apply format_detail_not_regret in Hw. }
    assert (Hdraw : ¬ In REGRET_LINE
                      [lit "开奖号码: " ++ concat_ints prize_numbers]).
    { intros [Hw|[]]. head_clash Hw. }
    assert (Htarget : ¬ In REGRET_LINE
                        match target_period with
                        | [] => []
                        | _ => [] ++ [lit "预测期号: 第" ++ target_period ++ lit "期"]
                        end).
    { destruct target_period; [by intros []|]. intros [Hw|[]]. head_clash Hw. }
    rewrite in_app_iff in Hduplex, Hwins.
    destruct duplex_data as [|item items]; rewrite ?in_app_iff in H; tauto.
  - intros ->. destruct duplex_data; rewrite !in_app_iff; cbn [In]; tauto.
Qed.

Lemma format_winning_details_length (winning_details : list WinRecord.t)
    (prize_numbers : list Z) (duplex_data : list (pystr * list Z))
    (target_period : pystr) :
  length (format_winning_details winning_details prize_numbers duplex_data
            target_period)
  = (match target_period with [] => 0 | _ => 1 end)
    + 2 + length winning_details
    + (match duplex_data with [] => 0 | _ => 1 + length duplex_data end).
Proof.
  unfold format_winning_details.
  destruct target_period, winning_details, duplex_data;
    rewrite ?length_app, ?length_map; cbn [length]; lia.
Qed.

(** X14.  Formatting the wins of a scoring gives the line of regret
    exactly when no bet equals a draw of five numbers; otherwise it
    gives one line for each such bet after the line that counts them.
    In all, the lines are: the target period when it is not empty, the
    draw, the regret or the count, the wins, and for a non-empty duplex
    mapping a header and one line for each position. *)
Theorem format_winning_details_of_score (recommendations : list (list Z))
    (prize_numbers : list Z) (duplex_data : list (pystr * list Z))
    (target_period : pystr) :
  let winning_details := (calculate_prize recommendations prize_numbers).2 in
  let lines :=
    format_winning_details winning_details prize_numbers duplex_data
      target_period in
  (In REGRET_LINE lines ↔
     length prize_numbers ≠ 5
     ∨ matching_bets prize_numbers recommendations = [])
  ∧ (length prize_numbers = 5 →
     length winning_details
     = length (matching_bets prize_numbers recommendations))
  ∧ length lines
    = (match target_period with [] => 0 | _ => 1 end)
      + 2 + length winning_details
      + (match duplex_data with [] => 0 | _ => 1 + length duplex_data end).
Proof.
  cbv zeta. rewrite format_winning_details_regret, format_winning_details_length.
  destruct (decide (length prize_numbers = 5)) as [H5|H5].
  - rewrite (calculate_prize_details _ _ H5).
    assert (Hlen : length (List.map (fun b : nat * list Z => win_record b.1 b.2)
                             (winning_bets prize_numbers recommendations))
                   = length (matching_bets prize_numbers recommendations)).
    { by rewrite length_map, <- winning_bets_numbers, length_map. }
    split; [|by split]. split.
    + intros Hnil. right. rewrite Hnil in Hlen. cbn in Hlen.
      by destruct (matching_bets prize_numbers recommendations).
    + intros [?|Hnil]; [done|]. rewrite Hnil in Hlen. cbn in Hlen.
      by destruct (List.map _ _).
  - rewrite (calculate_prize_not_five _ _ H5). cbn [snd].
    split; [|by split]. split; [by left|done].
Qed.

(* ====================================================================== *)
(** * Reading files: line ends *)
(* ====================================================================== *)

Section LineEnds.
Variable gbk_table : N → N → option N.
Variable fs : filesystem.

(** X16.  The text robust_file_read returns holds no carriage return:
    it is a decoding of the bytes of the file, in one of the three
    encodings, in which every CR LF and every lone CR has become a line
    feed. *)
Theorem robust_file_read_line_ends (file_path text : pystr) :
  robust_file_read gbk_table fs file_path = Some text →
  ¬ In 13%N text
  ∧ ∃ bs enc decoded,
      fs !! file_path = Some (Content bs) ∧ In enc encodings
      ∧ decode gbk_table enc bs = Some decoded
      ∧ text = universal_newlines decoded.
Proof.
  unfold robust_file_read.
  destruct (fs !! file_path) as [f|] eqn:Hf; [|done].
  intros Hread.
  apply try_encodings_some in Hread as (earlier & enc & later & Hencs & Hopen & _).
  unfold open_read in Hopen. rewrite Hf in Hopen.
  destruct f as [|bs]; [done|].
  destruct (decode gbk_table enc bs) as [decoded|] eqn:Hd; [|done].
  injection Hopen as <-. split; [apply universal_newlines_no_cr|].
  exists bs, enc, decoded. repeat split; try done.
  rewrite Hencs. apply in_or_app. right. by left.
Qed.

End LineEnds.

Lemma robust_file_read_line_ends_witness :
  ¬ In 13%N [97; 10; 98; 10]%N
  ∧ ∃ bs enc decoded,
      ({[ lit "pl5.csv" := Content [Byte.x61; Byte.x0d; Byte.x0a; Byte.x62; Byte.x0d] ]}
         : filesystem) !! lit "pl5.csv" = Some (Content bs)
      ∧ In enc encodings
      ∧ decode (fun _ _ => None) enc bs = Some decoded
      ∧ [97; 10; 98; 10]%N = universal_newlines decoded.
Proof.
  apply (robust_file_read_line_ends (fun _ _ => None)
           {[ lit "pl5.csv" := Content [Byte.x61; Byte.x0d; Byte.x0a; Byte.x62; Byte.x0d] ]}
           (lit "pl5.csv")).
  vm_compute. reflexivity.
Defined.

(* ====================================================================== *)
(** * Worked examples *)
(* ====================================================================== *)

(** Scoring is exact equality of the five digits. *)
Example score_exact :
  calculate_prize [[1; 2; 3; 4; 5]]%Z [1; 2; 3; 4; 5]%Z
  = (100000%Z, {[ ZHIXUAN := 1%Z ]}, [win_record 0 [1; 2; 3; 4; 5]%Z]).
Proof. vm_compute. reflexivity. Qed.

Example score_one_off :
  calculate_prize [[1; 2; 3; 4; 6]]%Z [1; 2; 3; 4; 5]%Z
  = (0%Z, {[ ZHIXUAN := 0%Z ]}, []).
Proof. vm_compute. reflexivity. Qed.

(** Lines with four or six digits in the brackets are dropped; the label
    of a line plays no role. *)
Example extract_singles :
  single (parse_recommendations_from_report
            (lit "注 7: [1, 2, 3, 4]
注 3: [1, 2, 3, 4, 5]
注 9: [1,2,3,4,5,6]
注 1: [0 0 0 0 9]"))
  = [[1; 2; 3; 4; 5]; [0; 0; 0; 0; 9]]%Z.
Proof. vm_compute. reflexivity. Qed.

(** Rows out of order, a short period, a number out of range, a period
    that is not a number, and a repeated period. *)
Example load_table :
  snd <$> get_period_data_from_csv
    (lit "period,n1,n2,n3,n4,n5
25003,1,2,3,4,5
25001,0,0,0,0,0
999,1,1,1,1,1
25002,1,2,3,4,10
abcd,1,2,3,4,5
25001,9,9,9,9,9,extra")
  = Some [lit "25001"; lit "25001"; lit "25003"].
Proof. vm_compute. reflexivity. Qed.

(** Of two reports for the same cutoff the later one is chosen, in either
    listing order; a report for another cutoff and one without a time
    stamp in its name are passed over. *)
Example locate_report :
  let report cutoff :=
    Content (list_byte_of_string ("分析基于数据: 截至 " ++ cutoff ++ " 期")%string) in
  let fs : filesystem :=
    {[ lit "out_20250101_235959.txt" := report "25001"%string;
       lit "out_20250102_000000.txt" := report "25001"%string;
       lit "out_20250103_000000.txt" := report "25002"%string;
       lit "out_latest.txt" := report "25001"%string;
       lit "out_20250230_000000.txt" := report "25001"%string ]} in
  let found :=
    [ lit "out_20250102_000000.txt"; lit "out_latest.txt";
      lit "out_20250103_000000.txt"; lit "out_20250230_000000.txt";
      lit "out_20250101_235959.txt"; lit "out_missing.txt" ] in
  find_matching_report (fun _ _ => None) fs found (lit "25001")
  = Some (lit "out_20250102_000000.txt")
  ∧ find_matching_report (fun _ _ => None) fs (rev found) (lit "25001")
    = Some (lit "out_20250102_000000.txt")
  ∧ find_matching_report (fun _ _ => None) fs found (lit "25003") = None.
Proof. cbv zeta. repeat split; vm_compute; reflexivity. Qed.

(** Bytes that are neither UTF-8 nor GBK are still read, as Latin-1. *)
Example read_fallback :
  let fs : filesystem := {[ lit "pl5.csv" := Content [Byte.xff; Byte.x41] ]} in
  robust_file_read (fun _ _ => None) fs (lit "pl5.csv") = Some [255; 65]%N
  ∧ robust_file_read (fun _ _ => None) fs (lit "other.csv") = None.
Proof. cbv zeta. split; vm_compute; reflexivity. Qed.

(** Two calls in a row: a first evaluation into an empty ledger, then an
    error.  The text written by the second call keeps the record, and
    has an empty part before the header. *)
Example ledger_two_calls :
  let e := {| period := Some (lit "25002");
              prize_numbers := Some [7; 7; 7; 7; 7]%Z;
              recommendation_count := Some 1%Z;
              winning_count := Some 1%Z;
              total_prize := Some 100000%Z;
              winning_details := Some [win_record 0 [7; 7; 7; 7; 7]%Z] |} in
  let first := manage_report [] (lit "2025-01-01 08:00:00") [] (Some e) None in
  let second :=
    manage_report (written first) [] (lit "2025-01-02 08:00:00") None
      (Some (lit "boom")) in
  written first
  = lit "评估时间: 2025-01-01 08:00:00
评估期号: 25002
开奖号码: 77777
推荐数量: 1注
中奖数量: 1注
总奖金: 100,000元

中奖详情:
  第1注: 77777 - 直选 - 100,000元
"
  ∧ normal_records second = [written first]
  ∧ error_logs second = [lit "错误时间: 2025-01-02 08:00:00
错误信息: boom
"]
  ∧ written second
    = join DELIMITER
        [written first; []; ERROR_LOG_HEADER;
         lit "错误时间: 2025-01-02 08:00:00
错误信息: boom
"].
Proof. cbv zeta. repeat split; vm_compute; reflexivity. Qed.

(** The header line holds an error marker, so the next call reads it as
    an error log of its own. *)
Example header_read_as_error_log :
  let first := manage_report [] [] (lit "2025-01-02 08:00:00") None (Some (lit "boom")) in
  let second := manage_report (written first) [] [] None None in
  error_logs first = [render_error (lit "2025-01-02 08:00:00") (lit "boom")]
  ∧ error_logs second
    = [ERROR_LOG_HEADER; render_error (lit "2025-01-02 08:00:00") (lit "boom")].
Proof. cbv zeta. split; vm_compute; reflexivity. Qed.

(** A run on a table of two draws and a report on the first of them:
    the second draw is evaluated, one bet of two wins. *)
Example run_success :
  let fs : filesystem :=
    {[ lit "pl5.csv" :=
         Content (list_byte_of_string "period,n1,n2,n3,n4,n5
25001,1,2,3,4,5
25002,7,7,7,7,7");
       lit "pl5_analysis_output_20250101_120000.txt" :=
         Content (list_byte_of_string "分析基于数据: 截至 25001 期
注 1: [1, 2, 3, 4, 5]
注 2: [7, 7, 7, 7, 7]") ]} in
  written (main_process (fun _ _ => None) fs
             [lit "pl5_analysis_output_20250101_120000.txt"]
             (lit "latest_pl5_calculation.txt") (lit "2025-01-02 08:00:00"))
  = lit "评估时间: 2025-01-02 08:00:00
评估期号: 25002
开奖号码: 77777
推荐数量: 2注
中奖数量: 1注
总奖金: 100,000元

中奖详情:
  第2注: 77777 - 直选 - 100,000元
".
Proof. cbv zeta. vm_compute. reflexivity. Qed.

(** When the newest period stands on two rows, it is both the period
    evaluated and the cutoff looked for: the report on the period before
    it is passed over, and the draw is that of the later row. *)
Example run_repeated_period :
  let fs : filesystem :=
    {[ lit "pl5.csv" :=
         Content (list_byte_of_string "period,n1,n2,n3,n4,n5
25001,1,2,3,4,5
25002,7,7,7,7,7
25002,8,8,8,8,8");
       lit "pl5_analysis_output_20250101_120000.txt" :=
         Content (list_byte_of_string "分析基于数据: 截至 25001 期
注 1: [7, 7, 7, 7, 7]");
       lit "pl5_analysis_output_20250102_120000.txt" :=
         Content (list_byte_of_string "分析基于数据: 截至 25002 期
注 1: [8, 8, 8, 8, 8]") ]} in
  evaluate (fun _ _ => None) fs [lit "pl5_analysis_output_20250101_120000.txt"]
  = inl (lit "未找到数据截止期为 25002 的分析报告")
  ∧ evaluate (fun _ _ => None) fs
      [ lit "pl5_analysis_output_20250101_120000.txt";
        lit "pl5_analysis_output_20250102_120000.txt" ]
    = inr (entry_of (lit "25002") [8; 8; 8; 8; 8]%Z [[8; 8; 8; 8; 8]%Z]).
Proof. cbv zeta. split; vm_compute; reflexivity. Qed.

(** The formatter on a win and a duplex mapping. *)
Example format_win :
  format_winning_details [win_record 1 [7; 7; 7; 7; 7]%Z] [7; 7; 7; 7; 7]%Z
    [(lit "pos1", [1; 3]%Z); (lit "other", [])] (lit "25002")
  = [ lit "预测期号: 第25002期"; lit "开奖号码: 77777";
      lit "恭喜：共有 1 注中奖"; lit "  第2注: 77777 - 直选 - 100000元";
      lit "
复式推荐参考:"; lit "  第一位: [1,3]"; lit "  other: []" ].
Proof. vm_compute. reflexivity. Qed.
